(** * mcp-filesystem: edit engine, bounded search and operation handlers

    A shallow embedding of [src/utils/file-utils.ts] and of the file
    handlers that call it, together with models of the platform calls
    they rely on (JavaScript strings, Node's [path] and [fs] modules).

    Conventions.
    - A JavaScript string is a [string]; every character stands for one
      code unit below 256.
    - Code that throws returns a value of [result]; code that touches the
      disk is a function of the file system, in the monad [IO].
    - Library calls that the repository does not define
      ([createTwoFilesPatch], [minimatch], [path.relative], [fs.readdir],
      [fs.mkdir]) are section variables, and so are the times and the
      mode that [fs.stat] reports, which the file system of the model
      does not hold.
    - [validatePath] is not among the sources: the path sandbox is
      modelled from the specification, and the theorems about it are
      stated against the kernel's resolution of paths. *)

From Stdlib Require Import Ascii String List Arith Lia Bool DecimalString.
From stdpp Require Import base option list strings gmap.

(* ===================================================================== *)
(** * JavaScript strings and arrays *)
(* ===================================================================== *)

Module Js.

Definition LF : ascii := "010"%char.
Definition CR : ascii := "013"%char.

(** The string ["\n"]. *)
Definition newline : string := String LF "".

(** [s.length] *)
Definition len (s : string) : nat := String.length s.

Fixpoint take (n : nat) (s : string) : string :=
  match n, s with
  | S n', String c s' => String c (take n' s')
  | _, _ => ""
  end.

Fixpoint drop (n : nat) (s : string) : string :=
  match n, s with
  | S n', String _ s' => drop n' s'
  | _, _ => s
  end.

(** [s.startsWith(p)] *)
Fixpoint startsWith (p s : string) : bool :=
  match p, s with
  | EmptyString, _ => true
  | String a p', String b s' => Ascii.eqb a b && startsWith p' s'
  | String _ _, EmptyString => false
  end.

(** [s.indexOf(sub)], with [None] for -1. *)
Fixpoint indexOf (sub s : string) : option nat :=
  if startsWith sub s then Some 0
  else match s with
       | EmptyString => None
       | String _ s' => option_map S (indexOf sub s')
       end.

(** [s.includes(sub)] *)
Definition includes (s sub : string) : bool :=
  match indexOf sub s with Some _ => true | None => false end.

(** [c.repeat(n)] for a one-character string. *)
Fixpoint repeat (c : ascii) (n : nat) : string :=
  match n with
  | 0 => ""
  | S n' => String c (repeat c n')
  end.

(** The replacement-pattern expansion of [String.prototype.replace]
    when the pattern is a string, so that there are no captures: [$$]
    is a dollar sign, [$&] the matched text, [$`] the text before the
    match and [$'] the text after it; [$1], [$<name>] and every other
    use of [$] stay as written. *)
Fixpoint getSubstitution (matched before after template : string) : string :=
  match template with
  | EmptyString => ""
  | String c tail =>
      if Ascii.eqb c "$" then
        match tail with
        | EmptyString => "$"
        | String d rest =>
            if Ascii.eqb d "$" then
              String "$" (getSubstitution matched before after rest)
            else if Ascii.eqb d "&" then
              matched +:+ getSubstitution matched before after rest
            else if Ascii.eqb d "`" then
              before +:+ getSubstitution matched before after rest
            else if Ascii.eqb d "'" then
              after +:+ getSubstitution matched before after rest
            else String "$" (getSubstitution matched before after tail)
        end
      else String c (getSubstitution matched before after tail)
  end.

(** [s.replace(pattern, replacement)] with a string pattern: only the
    first occurrence is replaced, and the replacement is expanded. *)
Definition replace (s pattern replacement : string) : string :=
  match indexOf pattern s with
  | None => s
  | Some pos =>
      let before := take pos s in
      let after := drop (pos + len pattern) s in
      before +:+ getSubstitution pattern before after replacement +:+ after
  end.

(** [s.split(sep)] for a one-character separator; never empty. *)
Fixpoint split (sep : ascii) (s : string) : list string :=
  match s with
  | EmptyString => [""]
  | String c s' =>
      if Ascii.eqb c sep then "" :: split sep s'
      else match split sep s' with
           | [] => [String c ""]
           | l :: ls => String c l :: ls
           end
  end.

(** [ls.join(sep)] *)
Fixpoint join (sep : string) (ls : list string) : string :=
  match ls with
  | [] => ""
  | l :: ls' =>
      match ls' with
      | [] => l
      | _ :: _ => l +:+ sep +:+ join sep ls'
      end
  end.

(** White space and line terminators, as [trim] and the class [\s]
    see them, among the code units below 256. *)
Definition isWhiteSpace (c : ascii) : bool :=
  let n := nat_of_ascii c in
  (9 <=? n) && (n <=? 13) || (n =? 32) || (n =? 160).

(** [s.trimStart()] *)
Fixpoint trimStart (s : string) : string :=
  match s with
  | EmptyString => ""
  | String c s' => if isWhiteSpace c then trimStart s' else s
  end.

(** [s.trimEnd()] *)
Fixpoint trimEnd (s : string) : string :=
  match s with
  | EmptyString => ""
  | String c s' =>
      match trimEnd s' with
      | EmptyString => if isWhiteSpace c then "" else String c ""
      | t => String c t
      end
  end.

(** [s.trim()] *)
Definition trim (s : string) : string := trimEnd (trimStart s).

(** [s.match(/^\s*/)?.[0] || ''] *)
Fixpoint leadingWhitespace (s : string) : string :=
  match s with
  | EmptyString => ""
  | String c s' => if isWhiteSpace c then String c (leadingWhitespace s') else ""
  end.

(** Truthiness of a string: the empty string is falsy. *)
Definition truthy (s : string) : bool :=
  match s with EmptyString => false | String _ _ => true end.

(** [s.toLowerCase()] on code units below 256. *)
Definition lowerChar (c : ascii) : ascii :=
  let n := nat_of_ascii c in
  if (65 <=? n) && (n <=? 90) then ascii_of_nat (n + 32)
  else if (192 <=? n) && (n <=? 222) && negb (n =? 215) then ascii_of_nat (n + 32)
  else c.

Fixpoint toLowerCase (s : string) : string :=
  match s with
  | EmptyString => ""
  | String c s' => String (lowerChar c) (toLowerCase s')
  end.

(** [a.slice(i, j)] on arrays, for [0 <= i]. *)
Definition slice {A} (i j : nat) (a : list A) : list A :=
  List.firstn (j - i) (List.skipn i a).

(** [a.splice(i, n, ...items)]: the array after the call. *)
Definition splice {A} (a : list A) (i n : nat) (items : list A) : list A :=
  List.firstn i a ++ items ++ List.skipn (i + n) a.

(** [a.map((x, j) => f(x, j))] *)
Fixpoint mapi_from {A B} (j : nat) (f : A -> nat -> B) (a : list A) : list B :=
  match a with
  | [] => []
  | x :: a' => f x j :: mapi_from (S j) f a'
  end.

Definition mapi {A B} (f : A -> nat -> B) (a : list A) : list B :=
  mapi_from 0 f a.

End Js.

(* ===================================================================== *)
(** * Node's [path] module, POSIX flavour *)
(* ===================================================================== *)

Module Path.

Definition slash : ascii := "/"%char.

(** [path.isAbsolute(p)] *)
Definition isAbsolute (p : string) : bool :=
  match p with
  | String c _ => Ascii.eqb c slash
  | EmptyString => false
  end.

(** The segments of a path: the pieces between slashes, empty pieces
    dropped. *)
Definition segments (p : string) : list string :=
  List.filter Js.truthy (Js.split slash p).

(** One step of [normalizeString]: [acc] holds the segments kept so
    far, innermost first. *)
Definition pushSegment (allowAboveRoot : bool) (acc : list string) (seg : string)
  : list string :=
  if String.eqb seg "." then acc
  else if String.eqb seg ".." then
    match acc with
    | [] => if allowAboveRoot then [".."] else []
    | top :: below =>
        if String.eqb top ".." then seg :: acc else below
    end
  else seg :: acc.

(** [normalizeString]: collapse [.] and [..]; above the root of an
    absolute path [..] has no effect, a relative path keeps it. *)
Definition normalizeSegments (allowAboveRoot : bool) (segs : list string)
  : list string :=
  List.rev (List.fold_left (pushSegment allowAboveRoot) segs []).

Definition endsWithSlash (p : string) : bool :=
  match List.rev (Js.split slash p) with
  | last :: _ :: _ => negb (Js.truthy last)
  | _ => false
  end.

(** [path.normalize(p)] *)
Definition normalize (p : string) : string :=
  match p with
  | EmptyString => "."
  | _ =>
      let absolute := isAbsolute p in
      let body := Js.join "/" (normalizeSegments (negb absolute) (segments p)) in
      let trailing := endsWithSlash p in
      match body with
      | EmptyString =>
          if absolute then "/" else if trailing then "./" else "."
      | _ =>
          let body' := if trailing then body +:+ "/" else body in
          if absolute then "/" +:+ body' else body'
      end
  end.

(** [path.join(a, b)] *)
Definition join (a b : string) : string :=
  match List.filter Js.truthy [a; b] with
  | [] => "."
  | parts => normalize (Js.join "/" parts)
  end.

Fixpoint chars (s : string) : list ascii :=
  match s with
  | EmptyString => []
  | String c s' => c :: chars s'
  end.

Fixpoint ofChars (l : list ascii) : string :=
  match l with
  | [] => ""
  | c :: l' => String c (ofChars l')
  end.

Fixpoint dropWhile {A} (f : A -> bool) (l : list A) : list A :=
  match l with
  | [] => []
  | x :: l' => if f x then dropWhile f l' else l
  end.

(** [path.dirname(p)]: scan from the end, skip the trailing slashes
    and the last name, and cut at the slash found there; the first
    character is never examined. *)
Definition dirname (p : string) : string :=
  match p with
  | EmptyString => "."
  | String c0 rest =>
      let hasRoot := Ascii.eqb c0 slash in
      let isSlash := fun c => Ascii.eqb c slash in
      let scanned := dropWhile (fun c => negb (isSlash c))
                       (dropWhile isSlash (List.rev (chars rest))) in
      match scanned with
      | [] => if hasRoot then "/" else "."
      | _ :: before =>
          match before with
          | [] => if hasRoot then "//" else String c0 ""
          | _ :: _ => String c0 (ofChars (List.rev before))
          end
      end
  end.

End Path.

(* ===================================================================== *)
(** * Failures, results and the [IO] monad *)
(* ===================================================================== *)

(** The error codes of the system calls that the model can raise. *)
Inductive errno := ENOENT | ENOTDIR | EISDIR | ELOOP | ENOTEMPTY | EINVAL.

(** The failure modes of the path sandbox (spec, section 4.1). *)
Inductive Rejection := NotFoundRejection | OutsideSandbox | UnresolvableSymlink.

(** What a handler can throw: an [Error] built by the code with its
    message, a system error of Node with its [code], or the failure of
    the path sandbox. *)
Inductive JsError :=
| Thrown (message : string)
| SystemError (code : errno) (syscall : string)
| Rejected (why : Rejection).

Inductive result (A : Type) :=
| Ok (value : A)
| Err (error : JsError).
Arguments Ok {A} value.
Arguments Err {A} error.

(** The taxonomy of failures of the spec (section 7). *)
Inductive FailureKind :=
| ValidationError | PathRejected | PermissionDenied | NotFound
| AlreadyExists | SizeLimitExceeded | MatchFailure | IOFailure.

(** The kind of a failure, read off the fixed start of its message. *)
Definition kindOf (e : JsError) : FailureKind :=
  match e with
  | Rejected _ => PathRejected
  | SystemError ENOENT _ => NotFound
  | SystemError _ _ => IOFailure
  | Thrown m =>
      if Js.startsWith "Invalid arguments for " m then ValidationError
      else if Js.startsWith "Could not find exact match for edit:" m then MatchFailure
      else if Js.startsWith "Cannot modify file: edit permission not granted" m
           || Js.startsWith "Cannot move file: move permission not granted" m
           || Js.startsWith "Cannot rename file: rename permission not granted" m
      then PermissionDenied
      else if Js.startsWith "Cannot modify file: file does not exist" m
           || Js.startsWith "Destination parent directory does not exist: " m
      then NotFound
      else if Js.startsWith "Cannot rename file: a file with name " m
      then AlreadyExists
      else IOFailure
  end.

(* ===================================================================== *)
(** * Node's [fs] module over a finite map *)
(* ===================================================================== *)

Module Fs.

Inductive node :=
| File (content : string)
| Dir
| Symlink (target : string).

(** A file system maps the canonical absolute path of every entry but
    the root to its node. *)
Abbreviation filesystem := (gmap string node).

(** The key of a location given by its segments. *)
Definition key (segs : list string) : string := "/" +:+ Js.join "/" segs.

Definition parent (segs : list string) : list string := List.removelast segs.

Definition nodeAt (fs : filesystem) (segs : list string) : option node :=
  match segs with
  | [] => Some Dir
  | _ :: _ => fs !! key segs
  end.

(** Where a walk ends: the location, and the node there; [None] when
    only the last component is missing. *)
Definition located : Type := list string * option node.

(** Walk [rest] from the directory [cur], one component at a time.
    [onLink base rest'] continues at a symbolic link; the last
    component is followed only when [followLast] is set. *)
Definition walkWith (fs : filesystem) (followLast : bool)
    (onLink : list string -> list string -> errno + located)
  : list string -> list string -> errno + located :=
  fix walk (cur rest : list string) : errno + located :=
    match rest with
    | [] => inr (cur, nodeAt fs cur)
    | seg :: rest' =>
        if String.eqb seg "." then walk cur rest'
        else if String.eqb seg ".." then walk (parent cur) rest'
        else
          let here := cur ++ [seg] in
          match fs !! key here with
          | None =>
              match rest' with
              | [] => inr (here, None)
              | _ :: _ => inl ENOENT
              end
          | Some Dir => walk here rest'
          | Some (File c) =>
              match rest' with
              | [] => inr (here, Some (File c))
              | _ :: _ => inl ENOTDIR
              end
          | Some (Symlink target) =>
              match rest', followLast with
              | [], false => inr (here, Some (Symlink target))
              | _, _ =>
                  onLink (if Path.isAbsolute target then [] else cur)
                         (Path.segments target ++ rest')
              end
          end
    end.

(** Path resolution of the kernel, giving up after [hops] links. *)
Fixpoint resolve (fs : filesystem) (followLast : bool) (hops : nat)
  : list string -> list string -> errno + located :=
  walkWith fs followLast
    match hops with
    | 0 => fun _ _ => inl ELOOP
    | S h => resolve fs followLast h
    end.

(** Only the root is at the empty location, and it is a directory. *)
Definition rootIsDir (r : errno + located) : Prop :=
  match r with
  | inr ([], n) => n = Some Dir
  | _ => True
  end.

Definition maxSymlinks : nat := 40.

(** The resolution of the path [p] from the root. The path is read
    through its components: the empty path, which the kernel refuses,
    and a slash at the end, which the kernel takes as a demand for a
    directory, are not told apart from the root and from the path
    without that slash. *)
Definition locate (fs : filesystem) (followLast : bool) (p : string)
  : errno + located :=
  resolve fs followLast maxSymlinks [] (Path.segments p).

(** [fs.realpath(p)] *)
Definition realpath (fs : filesystem) (p : string) : errno + list string :=
  match locate fs true p with
  | inl e => inl e
  | inr (loc, Some _) => inr loc
  | inr (_, None) => inl ENOENT
  end.

End Fs.

(** Stateful code: a function of the file system that returns a result
    and the file system it leaves. *)
Definition IO (A : Type) : Type := Fs.filesystem -> result A * Fs.filesystem.

Definition ret {A} (a : A) : IO A := fun fs => (Ok a, fs).

Definition throw {A} (e : JsError) : IO A := fun fs => (Err e, fs).

Definition bind {A B} (m : IO A) (k : A -> IO B) : IO B :=
  fun fs =>
    match m fs with
    | (Ok a, fs') => k a fs'
    | (Err e, fs') => (Err e, fs')
    end.

(** [try { m } catch (error) { handler(error) }] *)
Definition tryCatch {A} (m : IO A) (handler : JsError -> IO A) : IO A :=
  fun fs =>
    match m fs with
    | (Ok a, fs') => (Ok a, fs')
    | (Err e, fs') => handler e fs'
    end.

Notation "x <- m ;; k" := (bind m (fun x => k))
  (at level 100, m at next level, right associativity).
Notation "m ;;; k" := (bind m (fun _ => k))
  (at level 100, right associativity).

Module FsOps.
Import Fs.

(** [await fs.access(p)] *)
Definition access (p : string) : IO unit :=
  fun fs =>
    match realpath fs p with
    | inr _ => (Ok tt, fs)
    | inl e => (Err (SystemError e "access"), fs)
    end.

(** [await fs.readFile(p, 'utf-8')] *)
Definition readFile (p : string) : IO string :=
  fun fs =>
    match locate fs true p with
    | inr (_, Some (File c)) => (Ok c, fs)
    | inr (_, Some _) => (Err (SystemError EISDIR "read"), fs)
    | inr (_, None) => (Err (SystemError ENOENT "open"), fs)
    | inl e => (Err (SystemError e "open"), fs)
    end.

(** [await fs.writeFile(p, content, 'utf-8')]: creates the file or
    replaces its content. The model raises the errors of the
    resolution of the path only: a write that is refused for the mode
    of the file or the state of the disk, or that fails half way, is
    outside it. *)
Definition writeFile (p content : string) : IO unit :=
  fun fs =>
    match locate fs true p with
    | inr ([], _) | inr (_, Some Dir) | inr (_, Some (Symlink _)) =>
        (Err (SystemError EISDIR "open"), fs)
    | inr (loc, _) => (Ok tt, <[key loc := File content]> fs)
    | inl e => (Err (SystemError e "open"), fs)
    end.

(** The entries strictly below the directory at [k]. *)
Definition below (k entry : string) : bool := Js.startsWith (k +:+ "/") entry.

Definition isEmptyDir (fs : filesystem) (k : string) : bool :=
  forallb (fun kv => negb (below k kv.1)) (map_to_list fs).

(** Move the entry at [src], with everything below it, to [dst]. *)
Definition moveTree (src dst : string) (fs : filesystem) : filesystem :=
  list_to_map
    (List.map
       (fun kv : string * node =>
          if String.eqb kv.1 src || below src kv.1
          then (dst +:+ Js.drop (Js.len src) kv.1, kv.2)
          else kv)
       (map_to_list (delete dst fs))).

(** [await fs.rename(src, dst)]: rename(2). Neither last component is
    followed; an existing destination is replaced, unless it is a
    directory that is not empty or the two are of different kinds. *)
Definition rename (src dst : string) : IO unit :=
  fun fs =>
    match locate fs false src, locate fs false dst with
    | inl e, _ | _, inl e => (Err (SystemError e "rename"), fs)
    | inr (_, None), _ => (Err (SystemError ENOENT "rename"), fs)
    | inr ([], _), _ | _, inr ([], _) => (Err (SystemError EINVAL "rename"), fs)
    | inr (sloc, Some n), inr (dloc, dnode) =>
        let s := key sloc in
        let d := key dloc in
        if String.eqb s d then (Ok tt, fs)
        else
          match n, dnode with
          | Dir, Some Dir =>
              if below s d then (Err (SystemError EINVAL "rename"), fs)
              else if isEmptyDir fs d then (Ok tt, moveTree s d fs)
              else (Err (SystemError ENOTEMPTY "rename"), fs)
          | Dir, Some _ => (Err (SystemError ENOTDIR "rename"), fs)
          | Dir, None =>
              if below s d then (Err (SystemError EINVAL "rename"), fs)
              else (Ok tt, moveTree s d fs)
          | _, Some Dir => (Err (SystemError EISDIR "rename"), fs)
          | _, _ => (Ok tt, <[d := n]> (delete s fs))
          end
    end.

End FsOps.

(* ===================================================================== *)
(** * The path sandbox *)
(* ===================================================================== *)

Module Sandbox.
Import Fs.

(** Modelled from the spec: the options of [validate]. *)
Record Options := { checkParentExists : bool }.

Definition defaultOptions : Options := {| checkParentExists := true |}.

(** Modelled from the spec: the comparison of step 5 of section 4.1,
    segment by segment: [/a/b] is a prefix of [/a/b] and of [/a/b/c],
    never of [/a/bc]. *)
Fixpoint isPrefix (r p : list string) : bool :=
  match r, p with
  | [], _ => true
  | a :: r', b :: p' => String.eqb a b && isPrefix r' p'
  | _ :: _, [] => false
  end.

Definition within (root : string) (p : list string) : bool :=
  isPrefix (Path.segments root) p.

Definition insideRoots (roots : list string) (p : list string) : bool :=
  existsb (fun root => within root p) roots.

(** Modelled from the spec: what stops a resolution (section 4.1), a
    component that is not there, or a symbolic link that may not be
    followed and is not in the cache. *)
Inductive obstacle := Missing | Unknown.

(** A resolved location, and whether there is an entry at it; when
    there is none, only its last component is missing. *)
Definition resolved : Type := list string * bool.

(** Modelled from the spec: step 3, every symbolic link on the way is
    resolved to its real target. *)
Definition resolveFollowing (fs : filesystem) (segs : list string)
  : obstacle + resolved :=
  match resolve fs true maxSymlinks [] segs with
  | inl _ => inl Missing
  | inr (loc, Some _) => inr (loc, true)
  | inr (loc, None) => inr (loc, false)
  end.

(** Modelled from the spec: step 4, a symbolic link is replaced by the
    target that the cache holds for it; one that the cache does not
    know is not followed. *)
Definition resolveCached (fs : filesystem) (cache : gmap string string)
  : list string -> list string -> obstacle + resolved :=
  fix walk (cur rest : list string) : obstacle + resolved :=
    match rest with
    | [] => inr (cur, true)
    | seg :: rest' =>
        let here := cur ++ [seg] in
        match fs !! key here with
        | None =>
            match rest' with
            | [] => inr (here, false)
            | _ :: _ => inl Missing
            end
        | Some Dir => walk here rest'
        | Some (File _) =>
            match rest' with
            | [] => inr (here, true)
            | _ :: _ => inl Missing
            end
        | Some (Symlink _) =>
            match cache !! key here with
            | Some real => walk (Path.segments real) rest'
            | None => inl Unknown
            end
        end
    end.

Definition resolveWith (fs : filesystem) (cache : gmap string string)
    (followSymlinks : bool) (segs : list string) : obstacle + resolved :=
  if followSymlinks then resolveFollowing fs segs
  else resolveCached fs cache [] segs.

Definition lastOf (segs : list string) : list string :=
  match List.rev segs with
  | [] => []
  | l :: _ => [l]
  end.

(** Modelled from the spec: with [checkParentExists: false], the first
    existing ancestor of [segs], resolved, and the path with the
    missing [tail] put back under it. *)
Fixpoint climb (r : list string -> obstacle + resolved) (n : nat)
    (segs tail : list string) : Rejection + (list string * list string) :=
  match r segs with
  | inl Unknown => inl UnresolvableSymlink
  | inr (p, true) => inr (p, p ++ tail)
  | _ =>
      match n with
      | 0 => inl NotFoundRejection
      | S n' => climb r n' (parent segs) (lastOf segs ++ tail)
      end
  end.

(** Modelled from the spec: steps 1 and 2, make the path absolute and
    collapse [.] and [..]. *)
Definition canonicalize (cwd candidatePath : string) : list string :=
  let absolute :=
    if Path.isAbsolute candidatePath then candidatePath
    else cwd +:+ "/" +:+ candidatePath in
  Path.normalizeSegments false (Path.segments absolute).

(** Modelled from the spec: steps 3, 4 and 6, the ancestor that has to
    exist, resolved, and the canonical resolution of the whole path. *)
Definition canonicalResolution (fs : filesystem) (cwd candidatePath : string)
    (cache : gmap string string) (followSymlinks : bool) (options : Options)
  : Rejection + (list string * list string) :=
  let canon := canonicalize cwd candidatePath in
  let r := resolveWith fs cache followSymlinks in
  match r canon with
  | inl Unknown => inl UnresolvableSymlink
  | inr (p, true) => inr (p, p)
  | inr (p, false) => inr (parent p, p)
  | inl Missing =>
      if checkParentExists options then inl NotFoundRejection
      else climb r (List.length canon) (parent canon) (lastOf canon)
  end.

(** Modelled from the spec: [validatePath] of [src/utils/path-utils.ts],
    which is not among the sources. Section 4.1: canonicalize, resolve
    the symbolic links by the policy, then compare with every allowed
    root segment by segment; the existing ancestor has to be inside
    the sandbox as well. *)
Definition validate (fs : filesystem) (cwd candidatePath : string)
    (allowedRoots : list string) (cache : gmap string string)
    (followSymlinks : bool) (options : Options) : Rejection + string :=
  match canonicalResolution fs cwd candidatePath cache followSymlinks options with
  | inl why => inl why
  | inr (ancestor, p) =>
      if insideRoots allowedRoots ancestor && insideRoots allowedRoots p
      then inr (key p)
      else inl OutsideSandbox
  end.

(** A segment that names an entry: neither [.] nor [..]. *)
Definition plain (seg : string) : Prop :=
  String.eqb seg "." = false /\ String.eqb seg ".." = false.

(** No symbolic link sits at any component of [rest] below [cur]. *)
Fixpoint noLinksFrom (fs : filesystem) (cur rest : list string) : Prop :=
  match rest with
  | [] => True
  | seg :: rest' =>
      (forall target, fs !! key (cur ++ [seg]) <> Some (Symlink target))
      /\ noLinksFrom fs (cur ++ [seg]) rest'
  end.

End Sandbox.

(* ===================================================================== *)
(** * The edit engine: [src/utils/file-utils.ts] *)
(* ===================================================================== *)

Record Edit := { oldText : string; newText : string }.

(** [text.replace(/\r\n/g, '\n')] *)
Fixpoint normalizeLineEndings (text : string) : string :=
  match text with
  | EmptyString => ""
  | String c rest =>
      match rest with
      | String d rest' =>
          if Ascii.eqb c Js.CR && Ascii.eqb d Js.LF
          then String Js.LF (normalizeLineEndings rest')
          else String c (normalizeLineEndings rest)
      | EmptyString => String c ""
      end
  end.

(** How an edit found its target. *)
Inductive Located :=
| ExactMatch
| FuzzyMatch (i : nat).

(** [oldLines.every((oldLine, j) => oldLine.trim() === potentialMatch[j].trim())] *)
Definition isMatch (oldLines potentialMatch : list string) : bool :=
  forallb id
    (Js.mapi
       (fun oldLine j =>
          match potentialMatch !! j with
          | Some contentLine => String.eqb (Js.trim oldLine) (Js.trim contentLine)
          | None => false
          end)
       oldLines).

(** The loop [for (let i = 0; i <= contentLines.length - oldLines.length; i++)]
    up to its [break]: the first window that matches. *)
Definition fuzzyIndex (oldLines contentLines : list string) : option nat :=
  List.find
    (fun i => isMatch oldLines (Js.slice i (i + List.length oldLines) contentLines))
    (List.seq 0 (S (List.length contentLines) - List.length oldLines)).

(** The callback of [normalizedNew.split('\n').map((line, j) => ...)]. *)
Definition reindent (originalIndent : string) (oldLines : list string)
    (line : string) (j : nat) : string :=
  match j with
  | 0 => originalIndent +:+ Js.trimStart line
  | S _ =>
      let oldIndent :=
        match oldLines !! j with
        | Some oldLine => Js.leadingWhitespace oldLine
        | None => ""
        end in
      let newIndent := Js.leadingWhitespace line in
      if Js.truthy oldIndent && Js.truthy newIndent then
        let relativeIndent := Js.len newIndent - Js.len oldIndent in
        originalIndent +:+ Js.repeat " " relativeIndent +:+ Js.trimStart line
      else line
  end.

(** The body of [if (isMatch) { ... }] for the window at [i]. *)
Definition fuzzyReplace (oldLines contentLines : list string)
    (normalizedNew : string) (i : nat) : string :=
  let originalIndent :=
    match contentLines !! i with
    | Some l => Js.leadingWhitespace l
    | None => ""
    end in
  let newLines :=
    Js.mapi (reindent originalIndent oldLines) (Js.split Js.LF normalizedNew) in
  Js.join (String Js.LF "")
    (Js.splice contentLines i (List.length oldLines) newLines).

(** Which of the two matching steps finds the edit, if any. *)
Definition locateEdit (modifiedContent normalizedOld : string) : option Located :=
  if Js.includes modifiedContent normalizedOld then Some ExactMatch
  else
    match fuzzyIndex (Js.split Js.LF normalizedOld) (Js.split Js.LF modifiedContent) with
    | Some i => Some (FuzzyMatch i)
    | None => None
    end.

Definition matchFailure (edit : Edit) : JsError :=
  Thrown ("Could not find exact match for edit:" +:+ String Js.LF (oldText edit)).

(** One turn of the loop [for (const edit of edits)]. *)
Definition applyEdit (modifiedContent : string) (edit : Edit) : result string :=
  let normalizedOld := normalizeLineEndings (oldText edit) in
  let normalizedNew := normalizeLineEndings (newText edit) in
  match locateEdit modifiedContent normalizedOld with
  | Some ExactMatch => Ok (Js.replace modifiedContent normalizedOld normalizedNew)
  | Some (FuzzyMatch i) =>
      Ok (fuzzyReplace (Js.split Js.LF normalizedOld)
            (Js.split Js.LF modifiedContent) normalizedNew i)
  | None => Err (matchFailure edit)
  end.

(** The whole loop: the edits apply in order, each to the content the
    earlier ones left; the first failure ends it. *)
Fixpoint applyEdits (modifiedContent : string) (edits : list Edit) : result string :=
  match edits with
  | [] => Ok modifiedContent
  | edit :: edits' =>
      match applyEdit modifiedContent edit with
      | Ok modifiedContent' => applyEdits modifiedContent' edits'
      | Err e => Err e
      end
  end.

(** The loop [while (diff.includes('`'.repeat(numBackticks))) numBackticks++],
    run for at most [fuel] turns. *)
Fixpoint fenceLength (fuel numBackticks : nat) (diff : string) : nat :=
  match fuel with
  | 0 => numBackticks
  | S fuel' =>
      if Js.includes diff (Js.repeat "`" numBackticks)
      then fenceLength fuel' (S numBackticks) diff
      else numBackticks
  end.

Section EditEngine.

(** [createTwoFilesPatch] of the package [diff]. *)
Variable createTwoFilesPatch :
  string -> string -> string -> string -> string -> string -> string.

Definition createUnifiedDiff (originalContent newContent filepath : string) : string :=
  let normalizedOriginal := normalizeLineEndings originalContent in
  let normalizedNew := normalizeLineEndings newContent in
  createTwoFilesPatch filepath filepath normalizedOriginal normalizedNew
    "original" "modified".

Definition formatDiff (diff : string) : string :=
  let numBackticks := fenceLength (Js.len diff) 3 diff in
  Js.repeat "`" numBackticks +:+ "diff" +:+ String Js.LF diff
    +:+ Js.repeat "`" numBackticks +:+ String Js.LF (String Js.LF "").

Definition applyFileEdits (filePath : string) (edits : list Edit) (dryRun : bool)
  : IO string :=
  raw <- FsOps.readFile filePath ;;
  let content := normalizeLineEndings raw in
  match applyEdits content edits with
  | Err e => throw e
  | Ok modifiedContent =>
      let diff := createUnifiedDiff content modifiedContent filePath in
      let formattedDiff := formatDiff diff in
      (if negb dryRun then FsOps.writeFile filePath modifiedContent else ret tt) ;;;
      ret formattedDiff
  end.

End EditEngine.

(* ===================================================================== *)
(** * Bounded search: [searchFiles] *)
(* ===================================================================== *)

(** A [Dirent] as [fs.readdir(..., { withFileTypes: true })] gives it. *)
Record Dirent := { name : string; isDirectory : bool }.

(** The array [results], and the calls of [fs.readdir] made so far,
    each with the depth of the directory it lists, latest first. *)
Record SearchState := {
  results : list string;
  listed : list (string * nat)
}.

Definition pushResult (fullPath : string) (st : SearchState) : SearchState :=
  {| results := results st ++ [fullPath]; listed := listed st |}.

Definition logReaddir (currentPath : string) (currentDepth : nat) (st : SearchState)
  : SearchState :=
  {| results := results st; listed := (currentPath, currentDepth) :: listed st |}.

(** How a call of [search] ends. *)
Inductive Outcome :=
| Returned
| Failed (e : errno)
| OutOfFuel.

Section BoundedSearch.

(** [fs.readdir]: the entries of a directory in the order the platform
    lists them, or the error it rejects with. *)
Variable readdir : string -> errno + list Dirent.
(** [minimatch(path, glob, { dot: true })] *)
Variable minimatch : string -> string -> bool.
(** [path.relative(from, to)] *)
Variable relative : string -> string -> string.

Variables (rootPath pattern : string) (excludePatterns : list string).
Variables (maxDepth maxResults : nat).

Definition shouldExclude (fullPath : string) : bool :=
  let relativePath := relative rootPath fullPath in
  existsb
    (fun pattern =>
       let globPattern :=
         if Js.includes pattern "*" then pattern
         else "**/" +:+ pattern +:+ "/**" in
       minimatch relativePath globPattern)
    excludePatterns.

Definition nameMatches (entry : Dirent) : bool :=
  Js.includes (Js.toLowerCase (name entry)) (Js.toLowerCase pattern).

(** The loop [for (const entry of entries)] of [search], given what a
    recursive call does. A [return] inside the loop ends the call of
    [search] that runs it, not the whole walk. *)
Definition searchEntries
    (recurse : string -> SearchState -> Outcome * SearchState)
    (currentPath : string)
  : list Dirent -> SearchState -> Outcome * SearchState :=
  fix loop (entries : list Dirent) (st : SearchState) : Outcome * SearchState :=
    match entries with
    | [] => (Returned, st)
    | entry :: rest =>
        let fullPath := Path.join currentPath (name entry) in
        if shouldExclude fullPath then loop rest st
        else
          let st1 :=
            if nameMatches entry && (List.length (results st) <? maxResults)
            then pushResult fullPath st else st in
          if nameMatches entry && (maxResults <=? List.length (results st1))
          then (Returned, st1)
          else if isDirectory entry && (List.length (results st1) <? maxResults)
          then
            match recurse fullPath st1 with
            | (Returned, st2) => loop rest st2
            | stopped => stopped
            end
          else loop rest st1
    end.

(** The inner function [search(currentPath, currentDepth)]. *)
Fixpoint search (fuel : nat) (currentPath : string) (currentDepth : nat)
    (st : SearchState) : Outcome * SearchState :=
  match fuel with
  | 0 => (OutOfFuel, st)
  | S fuel' =>
      if maxDepth <=? currentDepth then (Returned, st)
      else if maxResults <=? List.length (results st) then (Returned, st)
      else
        let st' := logReaddir currentPath currentDepth st in
        match readdir currentPath with
        | inl e => (Failed e, st')
        | inr entries =>
            searchEntries
              (fun fullPath => search fuel' fullPath (S currentDepth))
              currentPath entries st'
        end
  end.

(** [await search(rootPath, 0)] from the empty [results]. *)
Definition runSearch : Outcome * SearchState :=
  search (S maxDepth) rootPath 0 {| results := []; listed := [] |}.

(** [searchFiles]: the results, or the error of a failed listing;
    [None] only if the walk ran out of fuel. *)
Definition searchFiles : option (result (list string)) :=
  match runSearch with
  | (Returned, st) => Some (Ok (results st))
  | (Failed e, _) => Some (Err (SystemError e "scandir"))
  | (OutOfFuel, _) => None
  end.

End BoundedSearch.

(* ===================================================================== *)
(** * The operation handlers *)
(* ===================================================================== *)

Module Permissions.
Record t := {
  create : bool;
  edit : bool;
  move : bool;
  delete : bool;
  rename : bool;
  fullAccess : bool
}.
End Permissions.

(** What [Schema.safeParse(args)] returns. *)
Inductive SafeParse (A : Type) :=
| ParseSuccess (data : A)
| ParseFailure (error : string).
Arguments ParseSuccess {A} data.
Arguments ParseFailure {A} error.

Module WriteFileArgs.
Record t := { path : string; content : string }.
End WriteFileArgs.

Module MoveFileArgs.
Record t := { source : string; destination : string }.
End MoveFileArgs.

Module RenameFileArgs.
Record t := { path : string; newName : string }.
End RenameFileArgs.

Definition quote : string := String (ascii_of_nat 34) "".

Section Handlers.

(** The working directory of the process. *)
Variable cwd : string.

(** [validatePath], throwing the rejection of the sandbox. *)
Definition validatePath (requestedPath : string) (allowedDirectories : list string)
    (symlinksMap : gmap string string) (noFollowSymlinks : bool)
    (options : Sandbox.Options) : IO string :=
  fun fs =>
    match Sandbox.validate fs cwd requestedPath allowedDirectories symlinksMap
            (negb noFollowSymlinks) options with
    | inr validPath => (Ok validPath, fs)
    | inl why => (Err (Rejected why), fs)
    end.

Definition handleModifyFile (parsed : SafeParse WriteFileArgs.t)
    (permissions : Permissions.t) (allowedDirectories : list string)
    (symlinksMap : gmap string string) (noFollowSymlinks : bool) : IO string :=
  match parsed with
  | ParseFailure error =>
      throw (Thrown ("Invalid arguments for modify_file: " +:+ error))
  | ParseSuccess data =>
      validPath <- validatePath (WriteFileArgs.path data) allowedDirectories
                     symlinksMap noFollowSymlinks Sandbox.defaultOptions ;;
      tryCatch
        (FsOps.access validPath ;;;
         if negb (Permissions.edit permissions)
            && negb (Permissions.fullAccess permissions)
         then throw (Thrown
           "Cannot modify file: edit permission not granted (requires --allow-edit)")
         else
           FsOps.writeFile validPath (WriteFileArgs.content data) ;;;
           ret ("Successfully modified " +:+ WriteFileArgs.path data))
        (fun error => throw (Thrown "Cannot modify file: file does not exist"))
  end.

Definition handleMoveFile (parsed : SafeParse MoveFileArgs.t)
    (permissions : Permissions.t) (allowedDirectories : list string)
    (symlinksMap : gmap string string) (noFollowSymlinks : bool) : IO string :=
  match parsed with
  | ParseFailure error =>
      throw (Thrown ("Invalid arguments for move_file: " +:+ error))
  | ParseSuccess data =>
      if negb (Permissions.move permissions)
         && negb (Permissions.fullAccess permissions)
      then throw (Thrown
        "Cannot move file: move permission not granted (requires --allow-move)")
      else
        validSourcePath <- validatePath (MoveFileArgs.source data)
                             allowedDirectories symlinksMap noFollowSymlinks
                             Sandbox.defaultOptions ;;
        validDestPath <- validatePath (MoveFileArgs.destination data)
                           allowedDirectories symlinksMap noFollowSymlinks
                           {| Sandbox.checkParentExists := false |} ;;
        let destParentDir := Path.dirname validDestPath in
        tryCatch (FsOps.access destParentDir)
          (fun _ => throw (Thrown
             ("Destination parent directory does not exist: "
                +:+ Path.dirname (MoveFileArgs.destination data)))) ;;;
        FsOps.rename validSourcePath validDestPath ;;;
        ret ("Successfully moved " +:+ MoveFileArgs.source data +:+ " to "
               +:+ MoveFileArgs.destination data)
  end.

Definition handleRenameFile (parsed : SafeParse RenameFileArgs.t)
    (permissions : Permissions.t) (allowedDirectories : list string)
    (symlinksMap : gmap string string) (noFollowSymlinks : bool) : IO string :=
  match parsed with
  | ParseFailure error =>
      throw (Thrown ("Invalid arguments for rename_file: " +:+ error))
  | ParseSuccess data =>
      if negb (Permissions.rename permissions)
         && negb (Permissions.fullAccess permissions)
      then throw (Thrown
        "Cannot rename file: rename permission not granted (requires --allow-rename)")
      else
        validSourcePath <- validatePath (RenameFileArgs.path data)
                             allowedDirectories symlinksMap noFollowSymlinks
                             Sandbox.defaultOptions ;;
        let directory := Path.dirname validSourcePath in
        let destinationPath := Path.join directory (RenameFileArgs.newName data) in
        validDestPath <- validatePath destinationPath allowedDirectories
                           symlinksMap noFollowSymlinks Sandbox.defaultOptions ;;
        tryCatch
          (FsOps.access validDestPath ;;;
           throw (Thrown
             ("Cannot rename file: a file with name " +:+ quote
                +:+ RenameFileArgs.newName data +:+ quote
                +:+ " already exists in the directory")))
          (fun error =>
             match error with
             | SystemError ENOENT _ => ret tt
             | _ => throw error
             end) ;;;
        FsOps.rename validSourcePath validDestPath ;;;
        ret ("Successfully renamed " +:+ RenameFileArgs.path data +:+ " to "
               +:+ RenameFileArgs.newName data)
  end.

End Handlers.

(* ===================================================================== *)
(** * Lines and line endings *)
(* ===================================================================== *)

(** The line endings in use: LF, CR LF, and the lone CR of the classic
    Mac OS. *)
Inductive LineEnding := Unix | Windows | ClassicMac.

Definition terminator (e : LineEnding) : string :=
  match e with
  | Unix => String Js.LF ""
  | Windows => String Js.CR (String Js.LF "")
  | ClassicMac => String Js.CR ""
  end.

(** A line holds no line terminator. *)
Fixpoint isLine (s : string) : bool :=
  match s with
  | EmptyString => true
  | String c s' => negb (Ascii.eqb c Js.CR) && negb (Ascii.eqb c Js.LF) && isLine s'
  end.

(** The text made of [lines] under the line ending [e]. *)
Definition textOf (e : LineEnding) (lines : list string) : string :=
  Js.join (terminator e) lines.

(** The bounds of a walk: no more than [maxResults] results, and every
    directory listed sits at a depth below [maxDepth]. *)
Definition withinBounds (maxDepth maxResults : nat) (st : SearchState) : Prop :=
  List.length (results st) <= maxResults
  /\ Forall (fun call : string * nat => call.2 < maxDepth) (listed st).

(* ===================================================================== *)
(** * Sample values for the worked examples *)
(* ===================================================================== *)

(** A stand-in for [createTwoFilesPatch]: the two texts, one after the
    other. *)
Definition samplePatch (oldName newName oldText newText oldHeader newHeader : string)
  : string :=
  "--- " +:+ oldText +:+ "+++ " +:+ newText.

(** A sandbox with two directories and a file in each. *)
Definition sampleFs : Fs.filesystem :=
  <["/sandbox" := Fs.Dir]>
    (<["/sandbox/a" := Fs.Dir]>
       (<["/sandbox/b" := Fs.Dir]>
          (<["/sandbox/a/f.txt" := Fs.File "one"]>
             (<["/sandbox/b/g.txt" := Fs.File "two"]> ∅)))).

Definition noPermissions : Permissions.t :=
  {| Permissions.create := false; Permissions.edit := false;
     Permissions.move := false; Permissions.delete := false;
     Permissions.rename := false; Permissions.fullAccess := false |}.

Definition movePermission : Permissions.t :=
  {| Permissions.create := false; Permissions.edit := false;
     Permissions.move := true; Permissions.delete := false;
     Permissions.rename := false; Permissions.fullAccess := false |}.

Definition renamePermission : Permissions.t :=
  {| Permissions.create := false; Permissions.edit := false;
     Permissions.move := false; Permissions.delete := false;
     Permissions.rename := true; Permissions.fullAccess := false |}.

Definition fullPermissions : Permissions.t :=
  {| Permissions.create := false; Permissions.edit := false;
     Permissions.move := false; Permissions.delete := false;
     Permissions.rename := false; Permissions.fullAccess := true |}.

(** A directory with five files whose names hold [report], and nothing
    else on the disk. *)
Definition fiveReports : list Dirent :=
  List.map (fun n => {| name := n; isDirectory := false |})
    ["report1.txt"; "Report2.txt"; "report3.txt"; "REPORT4.txt"; "report5.txt"].

Definition sampleReaddir (p : string) : errno + list Dirent :=
  if String.eqb p "/sandbox" then inr fiveReports else inl ENOENT.

(* ===================================================================== *)
(** * Bounded search: what a walk can reach *)
(* ===================================================================== *)

Section SearchReach.

Variable readdir : string -> errno + list Dirent.
Variable minimatch : string -> string -> bool.
Variable relative : string -> string -> string.
Variables (rootPath pattern : string) (excludePatterns : list string).

(** The directories that the walk can descend into, with their depth:
    the root, and every directory entry, not excluded, of a directory
    that it can descend into. *)
Inductive Reachable : string -> nat -> Prop :=
| reach_root : Reachable rootPath 0
| reach_entry currentPath currentDepth entries entry :
    Reachable currentPath currentDepth ->
    readdir currentPath = inr entries ->
    In entry entries ->
    isDirectory entry = true ->
    shouldExclude minimatch relative rootPath excludePatterns
      (Path.join currentPath (name entry)) = false ->
    Reachable (Path.join currentPath (name entry)) (S currentDepth).

(** A result with the entry it comes from: an entry of a reachable
    directory above the depth limit, not excluded, whose name holds the
    pattern. *)
Definition FoundIn (maxDepth : nat) (fullPath : string) : Prop :=
  exists currentPath currentDepth entries entry,
    Reachable currentPath currentDepth
    /\ currentDepth < maxDepth
    /\ readdir currentPath = inr entries
    /\ In entry entries
    /\ fullPath = Path.join currentPath (name entry)
    /\ nameMatches pattern entry = true
    /\ shouldExclude minimatch relative rootPath excludePatterns fullPath = false.

(** What holds of a state all along a walk: the results come from
    entries of reachable directories, the directories listed are
    reachable, and a failure is the failure of a listing. *)
Definition SoundWalk (maxDepth : nat) (out : Outcome * SearchState) : Prop :=
  Forall (FoundIn maxDepth) (results out.2)
  /\ Forall (fun call : string * nat => Reachable call.1 call.2) (listed out.2)
  /\ (forall e, out.1 = Failed e ->
        exists currentPath currentDepth,
          Reachable currentPath currentDepth /\ currentDepth < maxDepth
          /\ readdir currentPath = inl e).

(** The results of a call only grow. *)
Definition Grows (st : SearchState) (out : Outcome * SearchState) : Prop :=
  exists more, results out.2 = results st ++ more.

(** [found] holds every match of the tree below [currentPath], down
    [levels] levels: the directory can be listed, each entry that is
    not excluded is in [found] if its name holds the pattern, and the
    same goes for the directories among them, one level less. *)
Fixpoint Exhaustive (levels : nat) (currentPath : string) (found : list string)
  : Prop :=
  match levels with
  | 0 => True
  | S levels' =>
      exists entries,
        readdir currentPath = inr entries
        /\ forall entry,
             In entry entries ->
             shouldExclude minimatch relative rootPath excludePatterns
               (Path.join currentPath (name entry)) = false ->
             (nameMatches pattern entry = true ->
                In (Path.join currentPath (name entry)) found)
             /\ (isDirectory entry = true ->
                   Exhaustive levels' (Path.join currentPath (name entry)) found)
  end.

End SearchReach.

(* ===================================================================== *)
(** * Search by extension: [findFilesByExtension] *)
(* ===================================================================== *)

(** The variable [preDotState] of [path.extname]: 0 before anything is
    seen left of the last dot, 1 when the text left of it ends in a
    dot, -1 when it ends in another character. *)
Inductive PreDotState := NothingBefore | DotBefore | NameBefore.

(** The variables of the loop of [path.extname]; [None] stands for -1. *)
Record ExtnameScan := {
  startDot : option nat;
  startPart : nat;
  endAt : option nat;
  matchedSlash : bool;
  preDotState : PreDotState
}.

(** The loop [for (let i = path.length - 1; i >= 0; --i)] of
    [path.extname], over the characters from the last to the first;
    the index of a character is the number of those before it. *)
Fixpoint extnameScan (reversed : list ascii) (s : ExtnameScan) : ExtnameScan :=
  match reversed with
  | [] => s
  | code :: before =>
      let i := List.length before in
      if Ascii.eqb code Path.slash then
        if negb (matchedSlash s) then
          {| startDot := startDot s; startPart := i + 1; endAt := endAt s;
             matchedSlash := matchedSlash s; preDotState := preDotState s |}
        else extnameScan before s
      else
        let s1 :=
          match endAt s with
          | None =>
              {| startDot := startDot s; startPart := startPart s;
                 endAt := Some (i + 1); matchedSlash := false;
                 preDotState := preDotState s |}
          | Some _ => s
          end in
        let s2 :=
          if Ascii.eqb code "." then
            match startDot s1 with
            | None =>
                {| startDot := Some i; startPart := startPart s1; endAt := endAt s1;
                   matchedSlash := matchedSlash s1; preDotState := preDotState s1 |}
            | Some _ =>
                {| startDot := startDot s1; startPart := startPart s1;
                   endAt := endAt s1; matchedSlash := matchedSlash s1;
                   preDotState := DotBefore |}
            end
          else
            match startDot s1 with
            | Some _ =>
                {| startDot := startDot s1; startPart := startPart s1;
                   endAt := endAt s1; matchedSlash := matchedSlash s1;
                   preDotState := NameBefore |}
            | None => s1
            end in
        extnameScan before s2
  end.

(** [path.extname(p)] *)
Definition extname (p : string) : string :=
  let s :=
    extnameScan (List.rev (Path.chars p))
      {| startDot := None; startPart := 0; endAt := None; matchedSlash := true;
         preDotState := NothingBefore |} in
  match startDot s, endAt s with
  | Some dot, Some e =>
      match preDotState s with
      | NothingBefore => ""
      | DotBefore =>
          if (dot =? e - 1) && (dot =? startPart s + 1) then ""
          else Js.take (e - dot) (Js.drop dot p)
      | NameBefore => Js.take (e - dot) (Js.drop dot p)
      end
  | _, _ => ""
  end.

(** A [Dirent] with what its method [isFile()] answers. *)
Record FileEntry := { dirent :> Dirent; isFile : bool }.

(** [let normalizedExtension = extension.toLowerCase()], without its
    leading dot if it has one. *)
Definition normalizeExtension (extension : string) : string :=
  let normalizedExtension := Js.toLowerCase extension in
  if Js.startsWith "." normalizedExtension then Js.drop 1 normalizedExtension
  else normalizedExtension.

(** [path.extname(entry.name).toLowerCase().substring(1)] *)
Definition fileExtension (entry : FileEntry) : string :=
  Js.drop 1 (Js.toLowerCase (extname (name entry))).

Section ExtensionSearch.

Variable readdir : string -> errno + list FileEntry.
Variable minimatch : string -> string -> bool.
Variable relative : string -> string -> string.

Variables (rootPath : string) (normalizedExtension : string).
Variables (excludePatterns : list string).
Variables (maxDepth maxResults : nat).

(** The loop [for (const entry of entries)] of [searchDirectory]. *)
Definition searchDirectoryEntries
    (recurse : string -> SearchState -> Outcome * SearchState)
    (currentPath : string)
  : list FileEntry -> SearchState -> Outcome * SearchState :=
  fix loop (entries : list FileEntry) (st : SearchState) : Outcome * SearchState :=
    match entries with
    | [] => (Returned, st)
    | entry :: rest =>
        let fullPath := Path.join currentPath (name entry) in
        if shouldExclude minimatch relative rootPath excludePatterns fullPath
        then loop rest st
        else if isFile entry then
          if String.eqb (fileExtension entry) normalizedExtension then
            let st1 :=
              if List.length (results st) <? maxResults
              then pushResult fullPath st else st in
            if maxResults <=? List.length (results st1) then (Returned, st1)
            else loop rest st1
          else loop rest st
        else if isDirectory entry then
          if List.length (results st) <? maxResults then
            match recurse fullPath st with
            | (Returned, st2) => loop rest st2
            | stopped => stopped
            end
          else loop rest st
        else loop rest st
    end.

(** The inner function [searchDirectory(currentPath, currentDepth)]. *)
Fixpoint searchDirectory (fuel : nat) (currentPath : string) (currentDepth : nat)
    (st : SearchState) : Outcome * SearchState :=
  match fuel with
  | 0 => (OutOfFuel, st)
  | S fuel' =>
      if maxDepth <=? currentDepth then (Returned, st)
      else if maxResults <=? List.length (results st) then (Returned, st)
      else
        let st' := logReaddir currentPath currentDepth st in
        match readdir currentPath with
        | inl e => (Failed e, st')
        | inr entries =>
            searchDirectoryEntries
              (fun fullPath => searchDirectory fuel' fullPath (S currentDepth))
              currentPath entries st'
        end
  end.

End ExtensionSearch.

(** [await searchDirectory(rootPath, 0)] from the empty [results]. *)
Definition runExtensionSearch (readdir : string -> errno + list FileEntry)
    (minimatch : string -> string -> bool) (relative : string -> string -> string)
    (rootPath extension : string) (excludePatterns : list string)
    (maxDepth maxResults : nat) : Outcome * SearchState :=
  searchDirectory readdir minimatch relative rootPath (normalizeExtension extension)
    excludePatterns maxDepth maxResults (S maxDepth) rootPath 0
    {| results := []; listed := [] |}.

(** [findFilesByExtension]: the results, or the error of a failed
    listing; [None] only if the walk ran out of fuel. *)
Definition findFilesByExtension (readdir : string -> errno + list FileEntry)
    (minimatch : string -> string -> bool) (relative : string -> string -> string)
    (rootPath extension : string) (excludePatterns : list string)
    (maxDepth maxResults : nat) : option (result (list string)) :=
  match runExtensionSearch readdir minimatch relative rootPath extension
          excludePatterns maxDepth maxResults with
  | (Returned, st) => Some (Ok (results st))
  | (Failed e, _) => Some (Err (SystemError e "scandir"))
  | (OutOfFuel, _) => None
  end.

(** What the extension walk keeps: the bounds, and results that are
    files of the extension, not excluded, each an entry of a directory
    that was listed. *)
Definition FileOfExtension (readdir : string -> errno + list FileEntry)
    (minimatch : string -> string -> bool) (relative : string -> string -> string)
    (rootPath normalizedExtension : string) (excludePatterns : list string)
    (fullPath : string) : Prop :=
  exists currentPath entries entry,
    readdir currentPath = inr entries
    /\ In entry entries
    /\ fullPath = Path.join currentPath (name entry)
    /\ isFile entry = true
    /\ fileExtension entry = normalizedExtension
    /\ shouldExclude minimatch relative rootPath excludePatterns fullPath = false.

(** A directory with files of several extensions and a subdirectory. *)
Definition sampleFiles (p : string) : errno + list FileEntry :=
  if String.eqb p "/sandbox" then
    inr [ {| dirent := {| name := "a.TXT"; isDirectory := false |}; isFile := true |};
          {| dirent := {| name := "b.md"; isDirectory := false |}; isFile := true |};
          {| dirent := {| name := "notes.txt"; isDirectory := true |}; isFile := false |};
          {| dirent := {| name := ".txt"; isDirectory := false |}; isFile := true |} ]
  else if String.eqb p "/sandbox/notes.txt" then
    inr [ {| dirent := {| name := "c.tar.txt"; isDirectory := false |}; isFile := true |} ]
  else inl ENOENT.

(* ===================================================================== *)
(** * More of Node's [fs] module, and the messages of its errors *)
(* ===================================================================== *)

Module FsMore.
Import Fs.

(** The size in bytes of a text written as UTF-8, for code units below
    256: one byte below 128, two from there on. *)
Fixpoint byteLength (s : string) : nat :=
  match s with
  | EmptyString => 0
  | String c s' => (if nat_of_ascii c <? 128 then 1 else 2) + byteLength s'
  end.

(** What the handlers read of a [Stats] object. *)
Record Stats := { size : nat }.

(** [await fs.stat(p)]; [dirSize] is the size that the platform reports
    for a directory. *)
Definition stat (dirSize : nat) (p : string) : IO Stats :=
  fun fs =>
    match locate fs true p with
    | inr (_, Some (File c)) => (Ok {| size := byteLength c |}, fs)
    | inr (_, Some _) => (Ok {| size := dirSize |}, fs)
    | inr (_, None) => (Err (SystemError ENOENT "stat"), fs)
    | inl e => (Err (SystemError e "stat"), fs)
    end.

(** [await fs.unlink(p)]: unlink(2). The last component is not
    followed; a directory is not removed. *)
Definition unlink (p : string) : IO unit :=
  fun fs =>
    match locate fs false p with
    | inl e => (Err (SystemError e "unlink"), fs)
    | inr (_, None) => (Err (SystemError ENOENT "unlink"), fs)
    | inr ([], _) | inr (_, Some Dir) => (Err (SystemError EISDIR "unlink"), fs)
    | inr (loc, Some _) => (Ok tt, delete (key loc) fs)
    end.

Definition errnoName (code : errno) : string :=
  match code with
  | ENOENT => "ENOENT"
  | ENOTDIR => "ENOTDIR"
  | EISDIR => "EISDIR"
  | ELOOP => "ELOOP"
  | ENOTEMPTY => "ENOTEMPTY"
  | EINVAL => "EINVAL"
  end.

Definition errnoText (code : errno) : string :=
  match code with
  | ENOENT => "no such file or directory"
  | ENOTDIR => "not a directory"
  | EISDIR => "illegal operation on a directory"
  | ELOOP => "too many symbolic links encountered"
  | ENOTEMPTY => "directory not empty"
  | EINVAL => "invalid argument"
  end.

(** The [message] of a system error of Node for a call on [path]. A
    failure of read(2) names no path: the call is made on a
    descriptor. *)
Definition systemMessage (code : errno) (syscall path : string) : string :=
  errnoName code +:+ ": " +:+ errnoText code +:+ ", " +:+ syscall
    +:+ (if String.eqb syscall "read" then "" else " '" +:+ path +:+ "'").

(** [`${n}`] for a natural number. *)
Definition decimal (n : nat) : string := NilEmpty.string_of_uint (Nat.to_uint n).

End FsMore.

(* ===================================================================== *)
(** * The other handlers *)
(* ===================================================================== *)

Module ReadFileArgs.
Record t := { path : string; maxBytes : option nat }.
End ReadFileArgs.

Module ReadMultipleFilesArgs.
Record t := { paths : list string; maxBytesPerFile : option nat }.
End ReadMultipleFilesArgs.

Module EditFileArgs.
Record t := {
  path : string;
  edits : list Edit;
  dryRun : bool;
  maxBytes : option nat
}.
End EditFileArgs.

Module DeleteFileArgs.
Record t := { path : string }.
End DeleteFileArgs.

(** [maxBytes ?? (10 * 1024)] *)
Definition effectiveLimit (maxBytes : option nat) : nat :=
  match maxBytes with
  | Some n => n
  | None => 10 * 1024
  end.

Definition sizeExceeded (size effectiveMaxBytes : nat) : string :=
  "File size (" +:+ FsMore.decimal size
    +:+ " bytes) exceeds the maximum allowed size ("
    +:+ FsMore.decimal effectiveMaxBytes +:+ " bytes)".

Section MoreHandlers.

Variable cwd : string.
(** The size that [fs.stat] reports for a directory. *)
Variable dirSize : nat.
(** The [message] of an error of [validatePath], for the path that was
    requested. *)
Variable rejectionMessage : Rejection -> string -> string.
(** [fs.mkdir(dir, { recursive: true })] *)
Variable mkdir : string -> IO unit.
(** [createTwoFilesPatch] of the package [diff]. *)
Variable createTwoFilesPatch :
  string -> string -> string -> string -> string -> string -> string.

(** [error.message], for an error raised by a call on [path]. *)
Definition messageOf (path : string) (error : JsError) : string :=
  match error with
  | Thrown message => message
  | SystemError code syscall => FsMore.systemMessage code syscall path
  | Rejected why => rejectionMessage why path
  end.

(** [handleReadFile], given the call [fs.readFile] that it makes. *)
Definition handleReadFileWith (readFile : string -> IO string)
    (parsed : SafeParse ReadFileArgs.t)
    (allowedDirectories : list string) (symlinksMap : gmap string string)
    (noFollowSymlinks : bool) : IO string :=
  match parsed with
  | ParseFailure error =>
      throw (Thrown ("Invalid arguments for read_file: " +:+ error))
  | ParseSuccess data =>
      validPath <- validatePath cwd (ReadFileArgs.path data) allowedDirectories
                     symlinksMap noFollowSymlinks Sandbox.defaultOptions ;;
      stats <- FsMore.stat dirSize validPath ;;
      let effectiveMaxBytes := effectiveLimit (ReadFileArgs.maxBytes data) in
      if effectiveMaxBytes <? FsMore.size stats then
        throw (Thrown (sizeExceeded (FsMore.size stats) effectiveMaxBytes +:+ "."))
      else readFile validPath
  end.

Definition handleReadFile : SafeParse ReadFileArgs.t -> list string
    -> gmap string string -> bool -> IO string :=
  handleReadFileWith FsOps.readFile.

(** The callback of [paths.map] in [handleReadMultipleFiles]. The
    source has one [try] block; here it is split in two, so that each
    error gets the message of the call that raised it. *)
Definition readOne (effectiveMaxBytes : nat) (allowedDirectories : list string)
    (symlinksMap : gmap string string) (noFollowSymlinks : bool)
    (filePath : string) : IO string :=
  tryCatch
    (validPath <- validatePath cwd filePath allowedDirectories symlinksMap
                    noFollowSymlinks Sandbox.defaultOptions ;;
     tryCatch
       (stats <- FsMore.stat dirSize validPath ;;
        if effectiveMaxBytes <? FsMore.size stats then
          ret (filePath +:+ ": Error - "
                 +:+ sizeExceeded (FsMore.size stats) effectiveMaxBytes +:+ ".")
        else
          content <- FsOps.readFile validPath ;;
          ret (filePath +:+ ":" +:+ Js.newline +:+ content +:+ Js.newline))
       (fun error =>
          ret (filePath +:+ ": Error - " +:+ messageOf validPath error)))
    (fun error => ret (filePath +:+ ": Error - " +:+ messageOf filePath error)).

(** [await Promise.all(paths.map(...))]: the callbacks only read, so
    they are run one after the other. *)
Fixpoint readAll (effectiveMaxBytes : nat) (allowedDirectories : list string)
    (symlinksMap : gmap string string) (noFollowSymlinks : bool)
    (paths : list string) : IO (list string) :=
  match paths with
  | [] => ret []
  | filePath :: rest =>
      text <- readOne effectiveMaxBytes allowedDirectories symlinksMap
                noFollowSymlinks filePath ;;
      texts <- readAll effectiveMaxBytes allowedDirectories symlinksMap
                 noFollowSymlinks rest ;;
      ret (text :: texts)
  end.

Definition separator : string := Js.newline +:+ "---" +:+ Js.newline.

Definition handleReadMultipleFiles (parsed : SafeParse ReadMultipleFilesArgs.t)
    (allowedDirectories : list string) (symlinksMap : gmap string string)
    (noFollowSymlinks : bool) : IO string :=
  match parsed with
  | ParseFailure error =>
      throw (Thrown ("Invalid arguments for read_multiple_files: " +:+ error))
  | ParseSuccess data =>
      let effectiveMaxBytes :=
        effectiveLimit (ReadMultipleFilesArgs.maxBytesPerFile data) in
      results <- readAll effectiveMaxBytes allowedDirectories symlinksMap
                   noFollowSymlinks (ReadMultipleFilesArgs.paths data) ;;
      ret (Js.join separator results)
  end.

Definition handleCreateFile (parsed : SafeParse WriteFileArgs.t)
    (permissions : Permissions.t) (allowedDirectories : list string)
    (symlinksMap : gmap string string) (noFollowSymlinks : bool) : IO string :=
  match parsed with
  | ParseFailure error =>
      throw (Thrown ("Invalid arguments for create_file: " +:+ error))
  | ParseSuccess data =>
      validPath <- validatePath cwd (WriteFileArgs.path data) allowedDirectories
                     symlinksMap noFollowSymlinks
                     {| Sandbox.checkParentExists := false |} ;;
      tryCatch
        (FsOps.access validPath ;;;
         throw (Thrown ("File already exists: " +:+ WriteFileArgs.path data)))
        (fun error =>
           let msg := messageOf validPath error in
           if negb (Js.includes msg "ENOENT") then throw error
           else if negb (Permissions.create permissions)
                   && negb (Permissions.fullAccess permissions)
           then throw (Thrown
             "Cannot create new file: create permission not granted (requires --allow-create)")
           else
             let parentDir := Path.dirname validPath in
             mkdir parentDir ;;;
             FsOps.writeFile validPath (WriteFileArgs.content data) ;;;
             ret ("Successfully created " +:+ WriteFileArgs.path data))
  end.

(** [handleEditFile], given the function [applyFileEdits] that it
    calls. *)
Definition handleEditFileWith
    (applyFileEdits : string -> list Edit -> bool -> IO string)
    (parsed : SafeParse EditFileArgs.t)
    (permissions : Permissions.t) (allowedDirectories : list string)
    (symlinksMap : gmap string string) (noFollowSymlinks : bool) : IO string :=
  match parsed with
  | ParseFailure error =>
      throw (Thrown ("Invalid arguments for edit_file: " +:+ error))
  | ParseSuccess data =>
      if negb (Permissions.edit permissions)
         && negb (Permissions.fullAccess permissions)
      then throw (Thrown
        "Cannot edit file: edit permission not granted (requires --allow-edit)")
      else
        validPath <- validatePath cwd (EditFileArgs.path data) allowedDirectories
                       symlinksMap noFollowSymlinks Sandbox.defaultOptions ;;
        stats <- FsMore.stat dirSize validPath ;;
        let effectiveMaxBytes := effectiveLimit (EditFileArgs.maxBytes data) in
        if effectiveMaxBytes <? FsMore.size stats then
          throw (Thrown (sizeExceeded (FsMore.size stats) effectiveMaxBytes
                           +:+ " for editing."))
        else
          applyFileEdits validPath (EditFileArgs.edits data) (EditFileArgs.dryRun data)
  end.

Definition handleEditFile : SafeParse EditFileArgs.t -> Permissions.t -> list string
    -> gmap string string -> bool -> IO string :=
  handleEditFileWith (applyFileEdits createTwoFilesPatch).

Definition handleDeleteFile (parsed : SafeParse DeleteFileArgs.t)
    (permissions : Permissions.t) (allowedDirectories : list string)
    (symlinksMap : gmap string string) (noFollowSymlinks : bool) : IO string :=
  match parsed with
  | ParseFailure error =>
      throw (Thrown ("Invalid arguments for delete_file: " +:+ error))
  | ParseSuccess data =>
      if negb (Permissions.delete permissions)
         && negb (Permissions.fullAccess permissions)
      then throw (Thrown
        "Cannot delete file: delete permission not granted (requires --allow-delete)")
      else
        validPath <- validatePath cwd (DeleteFileArgs.path data) allowedDirectories
                       symlinksMap noFollowSymlinks Sandbox.defaultOptions ;;
        tryCatch
          (FsOps.access validPath ;;;
           FsMore.unlink validPath ;;;
           ret ("Successfully deleted " +:+ DeleteFileArgs.path data))
          (fun error =>
             throw (Thrown ("Failed to delete file: " +:+ messageOf validPath error)))
  end.

End MoreHandlers.

Definition deletePermission : Permissions.t :=
  {| Permissions.create := false; Permissions.edit := false;
     Permissions.move := false; Permissions.delete := true;
     Permissions.rename := false; Permissions.fullAccess := false |}.

Definition editPermission : Permissions.t :=
  {| Permissions.create := false; Permissions.edit := true;
     Permissions.move := false; Permissions.delete := false;
     Permissions.rename := false; Permissions.fullAccess := false |}.

Definition createPermission : Permissions.t :=
  {| Permissions.create := true; Permissions.edit := false;
     Permissions.move := false; Permissions.delete := false;
     Permissions.rename := false; Permissions.fullAccess := false |}.

(** Stand-ins for the messages of [validatePath] and for [fs.mkdir] in
    the worked examples; the directory asked for exists in each. *)
Definition sampleRejection (why : Rejection) (path : string) : string :=
  "Access denied: " +:+ path.

Definition sampleMkdir (dir : string) : IO unit := ret tt.

(* ===================================================================== *)
(** * Where a path leads *)
(* ===================================================================== *)

(** A text without a slash. *)
Fixpoint noSlash (s : string) : Prop :=
  match s with
  | EmptyString => True
  | String c s' => Ascii.eqb c Path.slash = false /\ noSlash s'
  end.

(** A component of a path: not empty, and without a slash. *)
Definition component (seg : string) : Prop := Js.truthy seg = true /\ noSlash seg.

(** Every component of [rest], walked from the directory [cur], names
    a directory. *)
Fixpoint dirsFrom (fs : Fs.filesystem) (cur rest : list string) : Prop :=
  match rest with
  | [] => True
  | seg :: rest' =>
      Sandbox.plain seg /\ component seg
      /\ fs !! Fs.key (cur ++ [seg]) = Some Fs.Dir
      /\ dirsFrom fs (cur ++ [seg]) rest'
  end.

(** A location made of directories only, from the root down. *)
Definition realDir (fs : Fs.filesystem) (loc : list string) : Prop := dirsFrom fs [] loc.

(** Modelled from the spec: step 1 of section 4.1, the candidate made
    absolute: itself when it is absolute, and joined to the working
    directory otherwise. *)
Definition absolutePath (cwd candidatePath : string) : string :=
  if Path.isAbsolute candidatePath then candidatePath
  else cwd +:+ "/" +:+ candidatePath.

(** The components of a candidate path once it is absolute and
    [path.normalize] has collapsed its [.] and [..]. *)
Definition canonicalSegments (cwd candidatePath : string) : list string :=
  Path.segments (Path.normalize (absolutePath cwd candidatePath)).

(** Modelled from the spec: the canonical resolution of a path whose
    components are [segs], read off the kernel and not off the
    sandbox: the place where the path leads with every symbolic link
    followed. Either the kernel resolves the whole path, to an entry or
    to a name that is free in an existing directory; or it resolves an
    [ancestor] to an entry where the next [name] is not there, and the
    names that are missing are put back under that entry. *)
Definition realLocation (fs : Fs.filesystem) (segs loc : list string) : Prop :=
  (exists n, Fs.resolve fs true Fs.maxSymlinks [] segs = inr (loc, n))
  \/ (exists ancestor real node name tail,
        segs = ancestor ++ name :: tail
        /\ Fs.resolve fs true Fs.maxSymlinks [] ancestor = inr (real, Some node)
        /\ fs !! Fs.key (real ++ [name]) = None
        /\ loc = real ++ name :: tail).

(** Modelled from the spec: the cache maps the path of a symbolic link
    to the real path that the link resolves to (section 3). *)
Definition soundCache (fs : Fs.filesystem) (cache : gmap string string) : Prop :=
  forall link real,
    cache !! link = Some real -> Fs.realpath fs link = inr (Path.segments real).

(** Modelled from the spec: a location strictly outside every allowed
    root, no root being a prefix of it component by component. *)
Definition outsideRoots (allowedRoots : list string) (loc : list string) : Prop :=
  forall root, In root allowedRoots -> ~ (Path.segments root `prefix_of` loc).

(* ===================================================================== *)
(** * The handler of [get_file_info], and what a refusal is *)
(* ===================================================================== *)

(** [n.toString(8)], most significant digit first. *)
Fixpoint octalDigits (fuel n : nat) (acc : string) : string :=
  match fuel with
  | 0 => acc
  | S fuel' =>
      let acc' := String (ascii_of_nat (48 + n mod 8)) acc in
      if n / 8 =? 0 then acc' else octalDigits fuel' (n / 8) acc'
  end.

Definition octal (n : nat) : string := octalDigits (S n) n "".

(** [s.slice(-n)] on strings: the last [n] code units. *)
Definition lastChars (n : nat) (s : string) : string := Js.drop (Js.len s - n) s.

Module FileInfo.
Record t (Date : Type) := {
  size : nat;
  created : Date;
  modified : Date;
  accessed : Date;
  isDirectory : bool;
  isFile : bool;
  permissions : string
}.
Arguments size {Date} _.
Arguments created {Date} _.
Arguments modified {Date} _.
Arguments accessed {Date} _.
Arguments isDirectory {Date} _.
Arguments isFile {Date} _.
Arguments permissions {Date} _.
End FileInfo.

Module GetFileInfoArgs.
Record t := { path : string }.
End GetFileInfoArgs.

(** [`${value}`] for a boolean. *)
Definition booleanText (b : bool) : string := if b then "true" else "false".

Section FileInformation.

Variable cwd : string.
(** The size that [fs.stat] reports for a directory. *)
Variable dirSize : nat.
(** The dates of the platform, and their text in a template literal. *)
Variable Date : Type.
Variable dateText : Date -> string.
(** The times and the mode that [fs.stat] reports for the entry at a
    location: the file system of the model holds neither. *)
Variables birthtime mtime atime : list string -> Date.
Variable mode : list string -> nat.

Definition getFileStats (filePath : string) : IO (FileInfo.t Date) :=
  fun fs =>
    match Fs.locate fs true filePath with
    | inr (loc, Some node) =>
        (Ok {| FileInfo.size :=
                 match node with
                 | Fs.File c => FsMore.byteLength c
                 | _ => dirSize
                 end;
               FileInfo.created := birthtime loc;
               FileInfo.modified := mtime loc;
               FileInfo.accessed := atime loc;
               FileInfo.isDirectory :=
                 match node with Fs.Dir => true | _ => false end;
               FileInfo.isFile :=
                 match node with Fs.File _ => true | _ => false end;
               FileInfo.permissions := lastChars 3 (octal (mode loc)) |},
         fs)
    | inr (_, None) => (Err (SystemError ENOENT "stat"), fs)
    | inl e => (Err (SystemError e "stat"), fs)
    end.

(** [Object.entries(info)], each value as a template literal prints
    it. *)
Definition entries (info : FileInfo.t Date) : list (string * string) :=
  [("size", FsMore.decimal (FileInfo.size info));
   ("created", dateText (FileInfo.created info));
   ("modified", dateText (FileInfo.modified info));
   ("accessed", dateText (FileInfo.accessed info));
   ("isDirectory", booleanText (FileInfo.isDirectory info));
   ("isFile", booleanText (FileInfo.isFile info));
   ("permissions", FileInfo.permissions info)].

Definition handleGetFileInfo (parsed : SafeParse GetFileInfoArgs.t)
    (allowedDirectories : list string) (symlinksMap : gmap string string)
    (noFollowSymlinks : bool) : IO string :=
  match parsed with
  | ParseFailure error =>
      throw (Thrown ("Invalid arguments for get_file_info: " +:+ error))
  | ParseSuccess data =>
      validPath <- validatePath cwd (GetFileInfoArgs.path data) allowedDirectories
                     symlinksMap noFollowSymlinks Sandbox.defaultOptions ;;
      info <- getFileStats validPath ;;
      ret (Js.join Js.newline
             (List.map (fun kv : string * string => kv.1 +:+ ": " +:+ kv.2)
                (entries info)))
  end.

End FileInformation.

Section Refusal.

Variable cwd : string.
Variable dirSize : nat.
Variable rejectionMessage : Rejection -> string -> string.
Variable mkdir : string -> IO unit.
Variable createTwoFilesPatch :
  string -> string -> string -> string -> string -> string -> string.
Variable Date : Type.
Variable dateText : Date -> string.
Variables birthtime mtime atime : list string -> Date.
Variable mode : list string -> nat.
Variables (allowedDirectories : list string) (symlinksMap : gmap string string).
Variable noFollowSymlinks : bool.

(** A call that fails with a rejection of the sandbox, the file system
    left as it was. *)
Definition refused {A} (run : result A * Fs.filesystem) (fs : Fs.filesystem) : Prop :=
  exists why, run = (Err (Rejected why), fs).

(** A call that fails and leaves the file system as it was; when the
    permission is [granted], it fails with a rejection of the
    sandbox. *)
Definition stopped {A} (granted : bool) (run : result A * Fs.filesystem)
    (fs : Fs.filesystem) : Prop :=
  exists e, run = (Err e, fs) /\ (granted = true -> exists why, e = Rejected why).

(** Modelled from the spec: no operation proceeds with the path [p].
    Every handler that is given [p], as its path, its source or its
    destination, fails and leaves the file system as it was, whatever
    its other arguments; [handleReadMultipleFiles], which reports the
    failures instead of failing, answers for [p] with the message of
    the rejection and not with a content. *)
Definition noOperationProceeds (fs : Fs.filesystem) (p : string) : Prop :=
  (forall maxBytes,
     refused
       (handleReadFile cwd dirSize
          (ParseSuccess {| ReadFileArgs.path := p; ReadFileArgs.maxBytes := maxBytes |})
          allowedDirectories symlinksMap noFollowSymlinks fs) fs)
  /\ (exists why,
        forall paths maxBytesPerFile,
        exists texts,
          handleReadMultipleFiles cwd dirSize rejectionMessage
            (ParseSuccess {| ReadMultipleFilesArgs.paths := paths;
                             ReadMultipleFilesArgs.maxBytesPerFile := maxBytesPerFile |})
            allowedDirectories symlinksMap noFollowSymlinks fs
          = (Ok (Js.join separator texts), fs)
          /\ Forall2
               (fun filePath text =>
                  filePath = p ->
                  text = p +:+ ": Error - " +:+ rejectionMessage why p)
               paths texts)
  /\ (forall content permissions,
        refused
          (handleCreateFile cwd rejectionMessage mkdir
             (ParseSuccess {| WriteFileArgs.path := p; WriteFileArgs.content := content |})
             permissions allowedDirectories symlinksMap noFollowSymlinks fs) fs)
  /\ (forall content permissions,
        refused
          (handleModifyFile cwd
             (ParseSuccess {| WriteFileArgs.path := p; WriteFileArgs.content := content |})
             permissions allowedDirectories symlinksMap noFollowSymlinks fs) fs)
  /\ (forall edits dryRun maxBytes permissions,
        stopped (Permissions.edit permissions || Permissions.fullAccess permissions)
          (handleEditFile cwd dirSize createTwoFilesPatch
             (ParseSuccess {| EditFileArgs.path := p; EditFileArgs.edits := edits;
                              EditFileArgs.dryRun := dryRun;
                              EditFileArgs.maxBytes := maxBytes |})
             permissions allowedDirectories symlinksMap noFollowSymlinks fs) fs)
  /\ refused
       (handleGetFileInfo cwd dirSize Date dateText birthtime mtime atime mode
          (ParseSuccess {| GetFileInfoArgs.path := p |})
          allowedDirectories symlinksMap noFollowSymlinks fs) fs
  /\ (forall destination permissions,
        stopped (Permissions.move permissions || Permissions.fullAccess permissions)
          (handleMoveFile cwd
             (ParseSuccess {| MoveFileArgs.source := p;
                              MoveFileArgs.destination := destination |})
             permissions allowedDirectories symlinksMap noFollowSymlinks fs) fs)
  /\ (forall source permissions,
        stopped (Permissions.move permissions || Permissions.fullAccess permissions)
          (handleMoveFile cwd
             (ParseSuccess {| MoveFileArgs.source := source;
                              MoveFileArgs.destination := p |})
             permissions allowedDirectories symlinksMap noFollowSymlinks fs) fs)
  /\ (forall permissions,
        stopped (Permissions.delete permissions || Permissions.fullAccess permissions)
          (handleDeleteFile cwd rejectionMessage
             (ParseSuccess {| DeleteFileArgs.path := p |})
             permissions allowedDirectories symlinksMap noFollowSymlinks fs) fs)
  /\ (forall newName permissions,
        stopped (Permissions.rename permissions || Permissions.fullAccess permissions)
          (handleRenameFile cwd
             (ParseSuccess {| RenameFileArgs.path := p;
                              RenameFileArgs.newName := newName |})
             permissions allowedDirectories symlinksMap noFollowSymlinks fs) fs).

End Refusal.

(** A link out of the sample sandbox: [/sandbox/out] leads to the
    directory [/etc]. *)
Definition linkedFs : Fs.filesystem :=
  <["/sandbox/out" := Fs.Symlink "/etc"]> (<["/etc" := Fs.Dir]> sampleFs).

Definition sampleDate (loc : list string) : nat := 0.

(* ===================================================================== *)
(** * Bounded search: the listings that fail *)
(* ===================================================================== *)

Section SearchFailure.

Variable readdir : string -> errno + list Dirent.

(** The listing of the directory of a call succeeds. *)
Definition listingSucceeds (call : string * nat) : Prop :=
  exists entries, readdir call.1 = inr entries.

(** What the calls of [fs.readdir] tell of the outcome of a walk: a
    walk that has not failed has made no listing that fails, and a
    walk that failed with [e] made a listing that fails with [e] as
    its last one, all the earlier ones having succeeded. *)
Definition FailsAtLast (out : Outcome * SearchState) : Prop :=
  match out.1 with
  | Failed e =>
      exists currentPath currentDepth earlier,
        listed out.2 = (currentPath, currentDepth) :: earlier
        /\ readdir currentPath = inl e
        /\ Forall listingSucceeds earlier
  | _ => Forall listingSucceeds (listed out.2)
  end.

End SearchFailure.

(** A tree whose root can be listed and holds one directory, which
    cannot. *)
Definition lockedReaddir (p : string) : errno + list Dirent :=
  if String.eqb p "/sandbox"
  then inr [{| name := "notes.txt"; isDirectory := false |};
            {| name := "locked"; isDirectory := true |};
            {| name := "later.txt"; isDirectory := false |}]
  else inl ENOTDIR.

(* ===================================================================== *)
(** * Facts about the string primitives *)
(* ===================================================================== *)

Section StringFacts.

Lemma append_cons c s t : String c s +:+ t = String c (s +:+ t).
Proof. reflexivity. Qed.

Lemma append_empty_r s : s +:+ "" = s.
Proof. induction s as [|c s IH]; [reflexivity|]. rewrite append_cons, IH. reflexivity. Qed.

Lemma append_assoc s t u : (s +:+ t) +:+ u = s +:+ t +:+ u.
Proof.
  induction s as [|c s IH]; [reflexivity|].
  rewrite !append_cons, IH. reflexivity.
Qed.

Lemma len_append s t : Js.len (s +:+ t) = Js.len s + Js.len t.
Proof.
  induction s as [|c s IH]; [reflexivity|].
  rewrite append_cons. unfold Js.len in *. simpl. rewrite IH. reflexivity.
Qed.

Lemma len_repeat c n : Js.len (Js.repeat c n) = n.
Proof. induction n as [|n IH]; [reflexivity|]. unfold Js.len in *. simpl. rewrite IH. reflexivity. Qed.

Lemma startsWith_len p s : Js.startsWith p s = true -> Js.len p <= Js.len s.
Proof.
  revert s. induction p as [|a p IH]; intros [|b s] H; unfold Js.len in *; simpl in *;
    try lia; try discriminate.
  apply andb_true_iff in H as [_ H]. apply IH in H. lia.
Qed.

Lemma startsWith_append p s : Js.startsWith p (p +:+ s) = true.
Proof.
  induction p as [|a p IH]; [reflexivity|].
  rewrite append_cons. simpl. rewrite Ascii.eqb_refl. exact IH.
Qed.

Lemma indexOf_len sub s i : Js.indexOf sub s = Some i -> i + Js.len sub <= Js.len s.
Proof.
  revert i. induction s as [|c s IH]; intros i H.
  - simpl in H. destruct (Js.startsWith sub "") eqn:E; [|discriminate].
    injection H as <-. apply startsWith_len in E. lia.
  - simpl in H. destruct (Js.startsWith sub (String c s)) eqn:E.
    + injection H as <-. apply startsWith_len in E. lia.
    + destruct (Js.indexOf sub s) as [j|]; [|discriminate].
      injection H as <-. specialize (IH j eq_refl). unfold Js.len in *. simpl. lia.
Qed.

Lemma includes_len s sub : Js.includes s sub = true -> Js.len sub <= Js.len s.
Proof.
  unfold Js.includes. destruct (Js.indexOf sub s) as [i|] eqn:E; [|discriminate].
  intros _. apply indexOf_len in E. lia.
Qed.

(** A text includes every text that it is built around. *)
Lemma includes_middle a sub b : Js.includes (a +:+ sub +:+ b) sub = true.
Proof.
  unfold Js.includes. induction a as [|c a IH].
  - change ("" +:+ sub +:+ b) with (sub +:+ b).
    destruct (sub +:+ b) eqn:E; simpl; rewrite <- ?E, startsWith_append; reflexivity.
  - rewrite append_cons. simpl.
    destruct (Js.startsWith sub (String c (a +:+ sub +:+ b))); [reflexivity|].
    destruct (Js.indexOf sub (a +:+ sub +:+ b)); [reflexivity|discriminate].
Qed.

(** The fence of backticks is longer than every run of backticks in
    the diff: the loop that computes it has fuel to spare. *)
Lemma fenceLength_spec diff fuel n :
  Js.len diff < fuel + n ->
  Js.includes diff (Js.repeat "`" (fenceLength fuel n diff)) = false.
Proof.
  revert n. induction fuel as [|fuel IH]; intros n H; simpl.
  - destruct (Js.includes diff (Js.repeat "`" n)) eqn:E; [|reflexivity].
    apply includes_len in E. rewrite len_repeat in E. lia.
  - destruct (Js.includes diff (Js.repeat "`" n)) eqn:E; [|exact E].
    apply IH. lia.
Qed.

Lemma fenceLength_exceeds diff :
  Js.includes diff (Js.repeat "`" (fenceLength (Js.len diff) 3 diff)) = false.
Proof. apply fenceLength_spec. lia. Qed.

End StringFacts.

Section LineFacts.

Lemma normalize_cons c s :
  Ascii.eqb c Js.CR = false ->
  normalizeLineEndings (String c s) = String c (normalizeLineEndings s).
Proof.
  intros H. simpl. rewrite H. simpl. destruct s; reflexivity.
Qed.

Lemma normalize_crlf s :
  normalizeLineEndings (String Js.CR (String Js.LF s))
  = String Js.LF (normalizeLineEndings s).
Proof. reflexivity. Qed.

Lemma normalize_line l s :
  isLine l = true ->
  normalizeLineEndings (l +:+ s) = l +:+ normalizeLineEndings s.
Proof.
  induction l as [|c l IH]; intros H; [reflexivity|].
  simpl in H. apply andb_true_iff in H as [H Hl]. apply andb_true_iff in H as [Hc _].
  apply negb_true_iff in Hc.
  rewrite !append_cons, normalize_cons by exact Hc. rewrite IH by exact Hl. reflexivity.
Qed.

Lemma normalize_terminator e s :
  e <> ClassicMac ->
  normalizeLineEndings (terminator e +:+ s) = String Js.LF (normalizeLineEndings s).
Proof.
  destruct e; intros H; try congruence.
  - change (terminator Unix +:+ s) with (String Js.LF s).
    apply normalize_cons. reflexivity.
  - reflexivity.
Qed.

(** Lines joined by LF or by CR LF normalize to the lines joined by LF. *)
Lemma normalize_textOf e lines :
  e <> ClassicMac ->
  Forall (fun l => isLine l = true) lines ->
  normalizeLineEndings (textOf e lines) = textOf Unix lines.
Proof.
  intros He. unfold textOf. induction 1 as [|l ls Hl Hls IH]; [reflexivity|].
  destruct ls as [|l' ls].
  - simpl. rewrite <- (append_empty_r l) at 1.
    rewrite normalize_line by exact Hl. apply append_empty_r.
  - change (Js.join (terminator e) (l :: l' :: ls))
      with (l +:+ terminator e +:+ Js.join (terminator e) (l' :: ls)).
    rewrite normalize_line by exact Hl.
    rewrite normalize_terminator by exact He. rewrite IH. reflexivity.
Qed.

Lemma join_app sep (xs ys : list string) :
  xs <> [] -> ys <> [] ->
  Js.join sep (xs ++ ys) = Js.join sep xs +:+ sep +:+ Js.join sep ys.
Proof.
  intros Hx Hy. induction xs as [|x xs IH]; [congruence|].
  destruct xs as [|x' xs].
  - destruct ys; [congruence|]. reflexivity.
  - change (Js.join sep ((x :: x' :: xs) ++ ys))
      with (x +:+ sep +:+ Js.join sep ((x' :: xs) ++ ys)).
    rewrite IH by congruence.
    change (Js.join sep (x :: x' :: xs)) with (x +:+ sep +:+ Js.join sep (x' :: xs)).
    rewrite !append_assoc. reflexivity.
Qed.

(** A block of consecutive lines is a substring of the text. *)
Lemma textOf_block e (before block after : list string) :
  exists a b,
    textOf e (before ++ block ++ after) = a +:+ textOf e block +:+ b.
Proof.
  unfold textOf. destruct block as [|l block].
  - exists (Js.join (terminator e) (before ++ after)), "".
    simpl. rewrite append_empty_r. reflexivity.
  - set (blk := l :: block). assert (Hb : blk <> []) by (subst blk; congruence).
    clearbody blk. destruct before as [|x before], after as [|y after].
    + exists "", "". rewrite app_nil_r. simpl. rewrite append_empty_r. reflexivity.
    + exists "", (terminator e +:+ Js.join (terminator e) (y :: after)).
      simpl app. rewrite join_app by congruence. reflexivity.
    + exists (Js.join (terminator e) (x :: before) +:+ terminator e), "".
      rewrite app_nil_r, join_app by congruence.
      rewrite append_empty_r, append_assoc. reflexivity.
    + exists (Js.join (terminator e) (x :: before) +:+ terminator e),
        (terminator e +:+ Js.join (terminator e) (y :: after)).
      rewrite join_app by (try congruence; destruct blk; simpl; congruence).
      rewrite join_app by congruence. rewrite !append_assoc. reflexivity.
Qed.

End LineFacts.

(* ===================================================================== *)
(** * Facts about the file system model *)
(* ===================================================================== *)

Section FsFacts.
Import Fs.

Variable fs : filesystem.

Lemma snoc_not_nil {A} (l : list A) x : l ++ [x] <> [].
Proof. destruct l; discriminate. Qed.

Lemma rootIsDir_snoc (cur : list string) seg n : rootIsDir (inr (cur ++ [seg], n)).
Proof. unfold rootIsDir. destruct cur; exact I. Qed.

Lemma walkWith_rootIsDir followLast onLink :
  (forall base rest, rootIsDir (onLink base rest)) ->
  forall rest cur, rootIsDir (walkWith fs followLast onLink cur rest).
Proof.
  intros Hlink. induction rest as [|seg rest IH]; intros cur.
  - simpl. destruct cur; simpl; [reflexivity|exact I].
  - simpl. destruct (String.eqb seg "."); [apply IH|].
    destruct (String.eqb seg ".."); [apply IH|].
    destruct (fs !! key (cur ++ [seg])) as [[c| |target]|].
    + destruct rest; [apply rootIsDir_snoc|exact I].
    + apply IH.
    + destruct rest, followLast; try apply Hlink. apply rootIsDir_snoc.
    + destruct rest; [apply rootIsDir_snoc|exact I].
Qed.

Lemma resolve_rootIsDir followLast hops :
  forall cur rest, rootIsDir (resolve fs followLast hops cur rest).
Proof.
  induction hops as [|h IH]; intros cur rest.
  - apply walkWith_rootIsDir. intros; exact I.
  - apply walkWith_rootIsDir. exact IH.
Qed.

Lemma locate_file_not_root followLast p loc c :
  locate fs followLast p = inr (loc, Some (File c)) -> loc <> [].
Proof.
  intros H ->. pose proof (resolve_rootIsDir followLast maxSymlinks [] (Path.segments p)) as R.
  unfold locate in H. rewrite H in R. discriminate R.
Qed.

Lemma readFile_inv p r fs' :
  FsOps.readFile p fs = (r, fs') ->
  fs' = fs /\
  (forall raw, r = Ok raw ->
     exists loc, loc <> [] /\ locate fs true p = inr (loc, Some (File raw))).
Proof.
  unfold FsOps.readFile. intros H.
  destruct (locate fs true p) as [e|[loc [[c| |t]|]]] eqn:E;
    injection H as <- <-; (split; [reflexivity|]); intros raw Hr; try discriminate.
  injection Hr as <-. exists loc. split; [|reflexivity].
  eapply locate_file_not_root; exact E.
Qed.

Lemma writeFile_over_file p loc old content :
  loc <> [] ->
  locate fs true p = inr (loc, Some (File old)) ->
  FsOps.writeFile p content fs = (Ok tt, <[key loc := File content]> fs).
Proof.
  intros Hne H. unfold FsOps.writeFile. rewrite H.
  destruct loc; [congruence|reflexivity].
Qed.

End FsFacts.

(* ===================================================================== *)
(** * The edit engine: matching *)
(* ===================================================================== *)

Section MatchingFacts.

Local Arguments Ascii.eqb : simpl never.

Lemma kindOf_matchFailure edit : kindOf (matchFailure edit) = MatchFailure.
Proof. reflexivity. Qed.

(** The loop over the edits fails only with the failure of one of them. *)
Lemma applyEdits_failure edits :
  forall content e,
    applyEdits content edits = Err e ->
    exists edit, In edit edits /\ e = matchFailure edit.
Proof.
  induction edits as [|edit edits IH]; intros content e H; simpl in H; [discriminate|].
  destruct (applyEdit content edit) as [content'|e'] eqn:E.
  - destruct (IH _ _ H) as [x [Hx ->]]. exists x. split; [right; exact Hx|reflexivity].
  - injection H as <-. exists edit. split; [left; reflexivity|].
    unfold applyEdit in E.
    destruct (locateEdit content (normalizeLineEndings (oldText edit))) as [[|i]|];
      try discriminate.
    injection E as <-. reflexivity.
Qed.

(** Without a dollar sign the replacement is taken as it is. *)
Lemma includes_dollar_cons c t :
  Js.includes (String c t) "$" = false ->
  Ascii.eqb c "$" = false /\ Js.includes t "$" = false.
Proof.
  unfold Js.includes. simpl. rewrite andb_true_r, (Ascii.eqb_sym "$" c).
  destruct (Ascii.eqb c "$"); [discriminate|].
  destruct (Js.indexOf "$" t); [discriminate|]. intros _. split; reflexivity.
Qed.

Lemma getSubstitution_plain matched before after template :
  Js.includes template "$" = false ->
  Js.getSubstitution matched before after template = template.
Proof.
  induction template as [|c t IH]; intros H; [reflexivity|].
  apply includes_dollar_cons in H as [Hc Ht].
  simpl. rewrite Hc. f_equal. apply IH. exact Ht.
Qed.

(** [indexOf] finds the first occurrence. *)
Lemma indexOf_first sub s i :
  Js.indexOf sub s = Some i ->
  s = Js.take i s +:+ sub +:+ Js.drop (i + Js.len sub) s
  /\ forall j, j < i -> Js.startsWith sub (Js.drop j s) = false.
Proof.
  revert i. induction s as [|c s IH]; intros i H.
  - simpl in H. destruct sub; [|discriminate]. injection H as <-.
    split; [reflexivity|]. intros j Hj. lia.
  - simpl in H. destruct (Js.startsWith sub (String c s)) eqn:E.
    + injection H as <-. split; [|intros j Hj; lia].
      simpl Js.take. change ("" +:+ ?x) with x. clear IH.
      revert E. generalize (String c s). induction sub as [|a sub IHs]; intros t E.
      * reflexivity.
      * destruct t as [|b t]; [discriminate|]. simpl in E.
        apply andb_true_iff in E as [Hab E]. apply Ascii.eqb_eq in Hab. subst b.
        rewrite append_cons. unfold Js.len. simpl. f_equal. apply IHs. exact E.
    + destruct (Js.indexOf sub s) as [k|] eqn:Ek; [|discriminate].
      injection H as <-. destruct (IH k eq_refl) as [Hs Hfirst].
      split.
      * simpl. rewrite append_cons. f_equal. exact Hs.
      * intros [|j] Hj; [exact E|]. simpl. apply Hfirst. lia.
Qed.

End MatchingFacts.

(* ===================================================================== *)
(** * The edit engine: persistence *)
(* ===================================================================== *)

Section Persistence.

Variable createTwoFilesPatch :
  string -> string -> string -> string -> string -> string -> string.

(** What a call of [applyFileEdits] does, case by case. *)
Lemma applyFileEdits_cases filePath edits dryRun fs :
  (exists e, FsOps.readFile filePath fs = (Err e, fs)
             /\ applyFileEdits createTwoFilesPatch filePath edits dryRun fs = (Err e, fs))
  \/ (exists raw e, FsOps.readFile filePath fs = (Ok raw, fs)
             /\ applyEdits (normalizeLineEndings raw) edits = Err e
             /\ applyFileEdits createTwoFilesPatch filePath edits dryRun fs = (Err e, fs))
  \/ (exists raw final loc, FsOps.readFile filePath fs = (Ok raw, fs)
             /\ Fs.locate fs true filePath = inr (loc, Some (Fs.File raw))
             /\ applyEdits (normalizeLineEndings raw) edits = Ok final
             /\ applyFileEdits createTwoFilesPatch filePath edits dryRun fs
                = (Ok (formatDiff
                         (createUnifiedDiff createTwoFilesPatch
                            (normalizeLineEndings raw) final filePath)),
                   if dryRun then fs else <[Fs.key loc := Fs.File final]> fs)).
Proof.
  unfold applyFileEdits, bind.
  destruct (FsOps.readFile filePath fs) as [[raw|e] fs1] eqn:Hr;
    destruct (readFile_inv _ _ _ _ Hr) as [-> Hloc].
  - destruct (applyEdits (normalizeLineEndings raw) edits) as [final|e] eqn:He.
    + right; right. destruct (Hloc raw eq_refl) as [loc [Hne Hl]].
      exists raw, final, loc. repeat split; try assumption.
      destruct dryRun; simpl; [reflexivity|].
      rewrite (writeFile_over_file fs filePath loc raw final Hne Hl). reflexivity.
    + right; left. exists raw, e. repeat split; assumption.
  - left. exists e. split; reflexivity.
Qed.

(** C5. The stored file is written only when [dryRun] is false and
    every edit of the request found its match. With [dryRun] set
    nothing is written, and a second dry run returns the same diff
    and leaves the file as it is. When an edit fails, the call fails
    with that edit's match failure and nothing is written. *)
Theorem applyFileEdits_writes_only_after_all_edits
    filePath edits dryRun fs r fs' :
  applyFileEdits createTwoFilesPatch filePath edits dryRun fs = (r, fs') ->
  (fs' <> fs ->
     dryRun = false
     /\ exists raw final,
          FsOps.readFile filePath fs = (Ok raw, fs)
          /\ applyEdits (normalizeLineEndings raw) edits = Ok final)
  /\ (dryRun = true ->
        fs' = fs
        /\ applyFileEdits createTwoFilesPatch filePath edits true fs' = (r, fs'))
  /\ (forall raw e,
        FsOps.readFile filePath fs = (Ok raw, fs) ->
        applyEdits (normalizeLineEndings raw) edits = Err e ->
        kindOf e = MatchFailure /\ r = Err e /\ fs' = fs).
Proof.
  intros Hrun.
  destruct (applyFileEdits_cases filePath edits dryRun fs)
    as [[e [Hr H]]|[[raw [e [Hr [He H]]]]|[raw [final [loc [Hr [Hl [He H]]]]]]]];
    rewrite H in Hrun; injection Hrun as <- <-.
  - split; [congruence|]. split.
    + intros ->. split; [reflexivity|exact H].
    + intros raw e' Hr'. congruence.
  - split; [congruence|]. split.
    + intros ->. split; [reflexivity|exact H].
    + intros raw' e' Hr' He'. assert (raw' = raw) as -> by congruence.
      assert (e' = e) as -> by congruence.
      destruct (applyEdits_failure _ _ _ He) as [edit [_ ->]].
      split; [apply kindOf_matchFailure|]. split; reflexivity.
  - split; [|split].
    + intros Hne. destruct dryRun; [congruence|].
      split; [reflexivity|]. exists raw, final. split; assumption.
    + intros ->. split; [reflexivity|exact H].
    + intros raw' e' Hr' He'. assert (raw' = raw) as -> by congruence. congruence.
Qed.

(** C10. A call that is not a dry run and succeeds rewrites the file
    with the final content, computed from the content with CR LF
    turned into LF, also when no edit changes anything: with no edits
    at all the file is rewritten with its own content normalized. *)
Theorem applyFileEdits_rewrites_normalized_content
    filePath edits fs formattedDiff fs' :
  applyFileEdits createTwoFilesPatch filePath edits false fs = (Ok formattedDiff, fs') ->
  exists raw final loc,
    Fs.locate fs true filePath = inr (loc, Some (Fs.File raw))
    /\ applyEdits (normalizeLineEndings raw) edits = Ok final
    /\ fs' = <[Fs.key loc := Fs.File final]> fs
    /\ (edits = [] -> final = normalizeLineEndings raw)
    /\ (edits = [] ->
        forall lines,
          Forall (fun l => isLine l = true) lines ->
          raw = textOf Windows lines -> final = textOf Unix lines).
Proof.
  intros Hrun.
  destruct (applyFileEdits_cases filePath edits false fs)
    as [[e [Hr H]]|[[raw [e [Hr [He H]]]]|[raw [final [loc [Hr [Hl [He H]]]]]]]];
    rewrite H in Hrun; try discriminate.
  injection Hrun as _ <-. exists raw, final, loc.
  repeat split; try assumption.
  - intros ->. simpl in He. congruence.
  - intros -> lines Hlines ->. simpl in He. injection He as <-.
    apply normalize_textOf; [discriminate|exact Hlines].
Qed.

End Persistence.

(** A dry run over the sample file system. *)
Lemma applyFileEdits_writes_only_after_all_edits_witness :
  let edits := [{| oldText := "one"; newText := "uno" |}] in
  let run := applyFileEdits samplePatch "/sandbox/a/f.txt" edits true sampleFs in
  run.2 = sampleFs
  /\ applyFileEdits samplePatch "/sandbox/a/f.txt" edits true run.2 = run.
Proof.
  intros edits run.
  destruct (applyFileEdits_writes_only_after_all_edits samplePatch
              "/sandbox/a/f.txt" edits true sampleFs run.1 run.2)
    as [_ [Hdry _]].
  - vm_compute. reflexivity.
  - destruct (Hdry eq_refl) as [Hfs Hagain]. split; [exact Hfs|].
    rewrite Hagain. vm_compute. reflexivity.
Defined.

(** A file with CR LF line endings and a request with no edits: the
    file is rewritten with LF line endings. *)
Lemma applyFileEdits_rewrites_normalized_content_witness :
  let crlf := textOf Windows ["a"; "b"; ""] in
  let fs := <["/sandbox/a/f.txt" := Fs.File crlf]> sampleFs in
  let run := applyFileEdits samplePatch "/sandbox/a/f.txt" [] false fs in
  (exists formattedDiff, run = (Ok formattedDiff, run.2))
  /\ run.2 = <["/sandbox/a/f.txt" := Fs.File (textOf Unix ["a"; "b"; ""])]> fs
  /\ run.2 <> fs.
Proof.
  intros crlf fs run.
  assert (Hrun : run = (Ok (formatDiff (createUnifiedDiff samplePatch
                   (normalizeLineEndings crlf) (normalizeLineEndings crlf)
                   "/sandbox/a/f.txt")), run.2)) by (vm_compute; reflexivity).
  split; [eexists; exact Hrun|].
  destruct (applyFileEdits_rewrites_normalized_content samplePatch
              "/sandbox/a/f.txt" [] fs _ _ Hrun)
    as [raw [final [loc [Hl [_ [Hfs [Hfinal _]]]]]]].
  assert (Hloc : Fs.locate fs true "/sandbox/a/f.txt"
                 = inr (["sandbox"; "a"; "f.txt"], Some (Fs.File crlf)))
    by (vm_compute; reflexivity).
  rewrite Hloc in Hl. injection Hl as <- <-.
  rewrite (Hfinal eq_refl) in Hfs.
  split; [exact Hfs|].
  rewrite Hfs. intros Heq.
  assert (H : (<[Fs.key ["sandbox"; "a"; "f.txt"] := Fs.File (normalizeLineEndings crlf)]> fs)
                !! "/sandbox/a/f.txt" = fs !! "/sandbox/a/f.txt") by (rewrite Heq; reflexivity).
  vm_compute in H. discriminate H.
Defined.

(* ===================================================================== *)
(** * The edit engine: exact and fuzzy matching *)
(* ===================================================================== *)

(** An edit whose old text occurs in the content, and whose new text
    holds no dollar sign, replaces the first occurrence by the new
    text. *)
Lemma applyEdit_exact_plain content edit :
  Js.includes content (normalizeLineEndings (oldText edit)) = true ->
  Js.includes (normalizeLineEndings (newText edit)) "$" = false ->
  exists i,
    Js.indexOf (normalizeLineEndings (oldText edit)) content = Some i
    /\ (forall j, j < i ->
          Js.startsWith (normalizeLineEndings (oldText edit)) (Js.drop j content) = false)
    /\ locateEdit content (normalizeLineEndings (oldText edit)) = Some ExactMatch
    /\ applyEdit content edit
       = Ok (Js.take i content +:+ normalizeLineEndings (newText edit)
               +:+ Js.drop (i + Js.len (normalizeLineEndings (oldText edit))) content).
Proof.
  intros Hin Hplain. unfold applyEdit, locateEdit. rewrite Hin.
  unfold Js.includes in Hin. unfold Js.replace.
  destruct (Js.indexOf (normalizeLineEndings (oldText edit)) content) as [i|] eqn:E;
    [|discriminate].
  exists i. destruct (indexOf_first _ _ _ E) as [_ Hfirst].
  repeat split; try assumption; try reflexivity.
  rewrite getSubstitution_plain by exact Hplain. reflexivity.
Qed.

(** The fuzzy step at work: the old text has trailing spaces that the
    content has not, so it is no substring; the window at line 0
    matches, the indentation of the content is kept and the new text
    goes in as it is written, dollar signs included. *)
Lemma fuzzy_replacement_is_literal :
  let content := "  pid=0" +:+ Js.newline in
  let edit := {| oldText := "pid=0  "; newText := "pid=$$" |} in
  locateEdit content (normalizeLineEndings (oldText edit)) = Some (FuzzyMatch 0)
  /\ applyEdit content edit = Ok ("  pid=$$" +:+ Js.newline).
Proof. split; reflexivity. Qed.

(** C6, at the input where it fails. The old text ["0"] occurs in the
    content ["pid=0"], the exact step is taken, and the new text ["$$"]
    is not what replaces it: [String.prototype.replace] reads [$$] as a
    replacement pattern and writes a single dollar sign. *)
Theorem exact_replacement_expands_dollar_patterns :
  let content := "pid=0" in
  let edit := {| oldText := "0"; newText := "$$" |} in
  Js.includes content (normalizeLineEndings (oldText edit)) = true
  /\ locateEdit content (normalizeLineEndings (oldText edit)) = Some ExactMatch
  /\ applyEdit content edit = Ok "pid=$"
  /\ applyEdit content edit
     <> Ok (Js.take 4 content +:+ normalizeLineEndings (newText edit)
              +:+ Js.drop 5 content)
  /\ applyEdit "abc" {| oldText := "b"; newText := "[$&$&]" |} = Ok "a[bb]c".
Proof.
  repeat split; try reflexivity. vm_compute. discriminate.
Qed.

(** C7, as stated, fails for the lone CR: a file whose lines end in CR
    and an edit with the same lines ending in LF do not match. *)
Lemma lone_cr_is_not_normalized :
  ~ (forall (fileEnding editEnding : LineEnding) (lines : list string) (new : string),
       Forall (fun l => isLine l = true) lines ->
       exists modifiedContent,
         applyEdit (normalizeLineEndings (textOf fileEnding lines))
           {| oldText := textOf editEnding lines; newText := new |}
         = Ok modifiedContent).
Proof.
  intros H.
  destruct (H ClassicMac Unix ["a"; "b"] "x") as [c Hc].
  - repeat constructor.
  - vm_compute in Hc. discriminate Hc.
Qed.

(** C7, amended. CR LF is turned into LF in the content of the file and
    in the old and new text of every edit before they are compared; a
    lone CR stays. So when the file and the old text of an edit hold the
    same lines, each under LF or CR LF, the exact step finds the edit
    and there is no match failure; the result is built from the LF
    forms, and it is what the diff shows and what is written. *)
Theorem crlf_and_lf_edits_match
    (fileEnding editEnding : LineEnding) (before block after : list string)
    (new : string) :
  fileEnding <> ClassicMac ->
  editEnding <> ClassicMac ->
  Forall (fun l => isLine l = true) (before ++ block ++ after) ->
  let raw := textOf fileEnding (before ++ block ++ after) in
  let edit := {| oldText := textOf editEnding block; newText := new |} in
  let final := Js.replace (textOf Unix (before ++ block ++ after))
                 (textOf Unix block) (normalizeLineEndings new) in
  normalizeLineEndings raw = textOf Unix (before ++ block ++ after)
  /\ normalizeLineEndings (oldText edit) = textOf Unix block
  /\ locateEdit (normalizeLineEndings raw) (normalizeLineEndings (oldText edit))
     = Some ExactMatch
  /\ applyEdits (normalizeLineEndings raw) [edit] = Ok final
  /\ forall createTwoFilesPatch filePath fs,
       FsOps.readFile filePath fs = (Ok raw, fs) ->
       exists loc,
         applyFileEdits createTwoFilesPatch filePath [edit] false fs
         = (Ok (formatDiff
                  (createTwoFilesPatch filePath filePath
                     (textOf Unix (before ++ block ++ after))
                     (normalizeLineEndings final) "original" "modified")),
            <[Fs.key loc := Fs.File final]> fs).
Proof.
  intros Hf He Hlines raw edit final.
  assert (Hraw : normalizeLineEndings raw = textOf Unix (before ++ block ++ after))
    by (apply normalize_textOf; assumption).
  assert (Hblock : Forall (fun l => isLine l = true) block).
  { apply Forall_app in Hlines as [_ H]. apply Forall_app in H as [H _]. exact H. }
  assert (Hold : normalizeLineEndings (oldText edit) = textOf Unix block)
    by (apply normalize_textOf; assumption).
  assert (Hloc : locateEdit (normalizeLineEndings raw)
                   (normalizeLineEndings (oldText edit)) = Some ExactMatch).
  { rewrite Hraw, Hold. unfold locateEdit.
    destruct (textOf_block Unix before block after) as [a [b ->]].
    rewrite includes_middle. reflexivity. }
  assert (Hfinal : applyEdits (normalizeLineEndings raw) [edit] = Ok final).
  { simpl. unfold applyEdit. rewrite Hloc. rewrite Hraw, Hold. reflexivity. }
  repeat split; try assumption.
  intros createTwoFilesPatch filePath fs Hread.
  destruct (applyFileEdits_cases createTwoFilesPatch filePath [edit] false fs)
    as [[e [Hr H]]|[[raw' [e [Hr [He' H]]]]|[raw' [final' [loc [Hr [Hl [He' H]]]]]]]].
  - congruence.
  - assert (raw' = raw) as -> by congruence. congruence.
  - assert (raw' = raw) as -> by congruence.
    assert (final' = final) as -> by congruence.
    exists loc. rewrite H. unfold createUnifiedDiff.
    rewrite Hraw. rewrite (normalize_textOf Unix) by (try discriminate; assumption).
    reflexivity.
Qed.

(** A file with CR LF line endings, an edit typed with LF. *)
Lemma crlf_and_lf_edits_match_witness :
  applyEdits (normalizeLineEndings (textOf Windows ["foo"; "bar"; ""]))
    [{| oldText := textOf Unix ["bar"; ""]; newText := textOf Windows ["baz"; ""] |}]
  = Ok (textOf Unix ["foo"; "baz"; ""]).
Proof.
  destruct (crlf_and_lf_edits_match Windows Unix ["foo"] ["bar"; ""] []
              (textOf Windows ["baz"; ""])) as [_ [_ [_ [H _]]]].
  - discriminate.
  - discriminate.
  - repeat constructor.
  - exact H.
Defined.

(** C8, as stated, fails: the fuzzy step does not locate the edit. *)
Lemma indented_edit_is_not_fuzzy :
  ~ (exists i,
       locateEdit ("  indented" +:+ Js.newline) (normalizeLineEndings "indented")
       = Some (FuzzyMatch i)).
Proof. intros [i H]. vm_compute in H. discriminate H. Qed.

(** C8, amended. With the content ["  indented\n"] and the single edit
    of ["indented"] into ["changed"], the old text occurs in the content
    as it is, so the exact step locates it and the fuzzy step is not
    reached; the result is ["  changed\n"], with the two spaces kept,
    and that is what a call that is not a dry run writes. *)
Theorem indented_edit_matches_exactly :
  let content := "  indented" +:+ Js.newline in
  let edit := {| oldText := "indented"; newText := "changed" |} in
  Js.includes content (normalizeLineEndings (oldText edit)) = true
  /\ locateEdit content (normalizeLineEndings (oldText edit)) = Some ExactMatch
  /\ applyEdits (normalizeLineEndings content) [edit] = Ok ("  changed" +:+ Js.newline)
  /\ forall createTwoFilesPatch,
       (applyFileEdits createTwoFilesPatch "/sandbox/a/f.txt" [edit] false
          (<["/sandbox/a/f.txt" := Fs.File content]> sampleFs)).2
       = <["/sandbox/a/f.txt" := Fs.File ("  changed" +:+ Js.newline)]> sampleFs.
Proof.
  split; [reflexivity|]. split; [reflexivity|]. split; [reflexivity|].
  intros createTwoFilesPatch. vm_compute. reflexivity.
Qed.

(* ===================================================================== *)
(** * Bounded search *)
(* ===================================================================== *)

Section SearchFacts.

Variable readdir : string -> errno + list Dirent.
Variable minimatch : string -> string -> bool.
Variable relative : string -> string -> string.
Variables (rootPath pattern : string) (excludePatterns : list string).
Variables (maxDepth maxResults : nat).

Local Abbreviation excluded :=
  (shouldExclude minimatch relative rootPath excludePatterns).
Local Abbreviation loop :=
  (searchEntries minimatch relative rootPath pattern excludePatterns maxResults).
Local Abbreviation walk :=
  (search readdir minimatch relative rootPath pattern excludePatterns
     maxDepth maxResults).
Local Abbreviation bounded := (withinBounds maxDepth maxResults).

(** Once [results] is full, the loop over the entries adds nothing
    and does not recurse. *)
Lemma searchEntries_saturated recurse currentPath entries st :
  maxResults <= List.length (results st) ->
  loop recurse currentPath entries st = (Returned, st).
Proof.
  intros Hfull. induction entries as [|entry rest IH]; [reflexivity|].
  simpl. destruct (excluded _); [exact IH|].
  assert (Hlt : (List.length (results st) <? maxResults) = false)
    by (apply Nat.ltb_ge; exact Hfull).
  assert (Hle : (maxResults <=? List.length (results st)) = true)
    by (apply Nat.leb_le; exact Hfull).
  rewrite Hlt, !andb_false_r, Hle.
  destruct (nameMatches pattern entry); simpl; [reflexivity|].
  rewrite Hlt, andb_false_r. exact IH.
Qed.

(** Once [results] is full, a call of [search] returns at once. *)
Lemma search_saturated fuel currentPath currentDepth st :
  maxResults <= List.length (results st) ->
  walk (S fuel) currentPath currentDepth st = (Returned, st).
Proof.
  intros Hfull. simpl. destruct (maxDepth <=? currentDepth); [reflexivity|].
  apply Nat.leb_le in Hfull. rewrite Hfull. reflexivity.
Qed.

Lemma bounded_push fullPath st :
  bounded st -> List.length (results st) < maxResults ->
  bounded (pushResult fullPath st).
Proof.
  intros [Hr Hl] Hlt. split; [|exact Hl].
  simpl. rewrite length_app. simpl. lia.
Qed.

Lemma bounded_log currentPath currentDepth st :
  bounded st -> currentDepth < maxDepth ->
  bounded (logReaddir currentPath currentDepth st).
Proof.
  intros [Hr Hl] Hlt. split; [exact Hr|]. simpl. constructor; [exact Hlt|exact Hl].
Qed.

(** The loop keeps the bounds if the recursive calls do. *)
Lemma searchEntries_bounded recurse currentPath entries :
  (forall p st, bounded st -> bounded (recurse p st).2) ->
  forall st, bounded st -> bounded (loop recurse currentPath entries st).2.
Proof.
  intros Hrec. induction entries as [|entry rest IH]; intros st Hst; [exact Hst|].
  simpl. destruct (excluded _); [apply IH; exact Hst|].
  set (st1 := if nameMatches pattern entry && (List.length (results st) <? maxResults)
              then pushResult _ st else st).
  assert (Hst1 : bounded st1).
  { subst st1. destruct (nameMatches pattern entry); simpl; [|exact Hst].
    destruct (List.length (results st) <? maxResults) eqn:E; [|exact Hst].
    apply bounded_push; [exact Hst|]. apply Nat.ltb_lt. exact E. }
  clearbody st1.
  destruct (nameMatches pattern entry && (maxResults <=? List.length (results st1)));
    [exact Hst1|].
  destruct (isDirectory entry && (List.length (results st1) <? maxResults));
    [|apply IH; exact Hst1].
  specialize (Hrec (Path.join currentPath (name entry)) st1 Hst1).
  destruct (recurse _ st1) as [[| |] st2]; simpl in *;
    [apply IH; exact Hrec|exact Hrec|exact Hrec].
Qed.

(** Every call of [search] keeps the bounds. *)
Lemma search_bounded fuel :
  forall currentPath currentDepth st,
    bounded st -> bounded (walk fuel currentPath currentDepth st).2.
Proof.
  induction fuel as [|fuel IH]; intros currentPath currentDepth st Hst; [exact Hst|].
  simpl. destruct (maxDepth <=? currentDepth) eqn:Ed; [exact Hst|].
  destruct (maxResults <=? List.length (results st)); [exact Hst|].
  apply Nat.leb_gt in Ed.
  pose proof (bounded_log currentPath currentDepth st Hst Ed) as Hlog.
  destruct (readdir currentPath) as [e|entries]; [exact Hlog|].
  apply searchEntries_bounded; [|exact Hlog].
  intros p st0 Hst0. apply IH. exact Hst0.
Qed.

(** The loop does not run out of fuel if the recursive calls do not. *)
Lemma searchEntries_fuel recurse currentPath entries :
  (forall p st, (recurse p st).1 <> OutOfFuel) ->
  forall st, (loop recurse currentPath entries st).1 <> OutOfFuel.
Proof.
  intros Hrec. induction entries as [|entry rest IH]; intros st; [discriminate|].
  simpl. destruct (excluded _); [apply IH|].
  match goal with |- context [if ?b then (Returned, ?s) else _] =>
    destruct b; [discriminate|] end.
  match goal with |- context [if ?b then _ else _] => destruct b; [|apply IH] end.
  specialize (Hrec (Path.join currentPath (name entry))).
  match goal with |- context [recurse ?p ?s] =>
    specialize (Hrec s); destruct (recurse p s) as [[| |] st2] end;
    simpl in *; [apply IH|discriminate|congruence].
Qed.

(** A call at depth [currentDepth] needs no more fuel than the depths
    left below [maxDepth], and one. *)
Lemma search_fuel fuel :
  forall currentPath currentDepth st,
    currentDepth <= maxDepth ->
    maxDepth < fuel + currentDepth ->
    (walk fuel currentPath currentDepth st).1 <> OutOfFuel.
Proof.
  induction fuel as [|fuel IH]; intros currentPath currentDepth st Hd Hfuel; [lia|].
  simpl. destruct (maxDepth <=? currentDepth) eqn:Ed; [discriminate|].
  destruct (maxResults <=? List.length (results st)); [discriminate|].
  destruct (readdir currentPath) as [e|entries]; [discriminate|].
  apply Nat.leb_gt in Ed.
  apply searchEntries_fuel. intros p st0. apply IH; lia.
Qed.

End SearchFacts.

(** C9. [searchFiles] always returns, with at most [maxResults]
    entries; it lists no directory at a depth of [maxDepth] or more;
    once [results] holds [maxResults] entries, a call of [search] and
    the rest of any loop over entries add nothing, list nothing and do
    not recurse. With [maxDepth = 2] and [maxResults = 1], over a root
    that holds five matching files, exactly one result is returned and
    the root is the only directory listed. *)
Theorem searchFiles_is_bounded
    (readdir : string -> errno + list Dirent)
    (minimatch : string -> string -> bool)
    (relative : string -> string -> string)
    (rootPath pattern : string) (excludePatterns : list string)
    (maxDepth maxResults : nat) :
  let run := runSearch readdir minimatch relative rootPath pattern
               excludePatterns maxDepth maxResults in
  let found := searchFiles readdir minimatch relative rootPath pattern
                 excludePatterns maxDepth maxResults in
  (exists r, found = Some r /\ forall rs, r = Ok rs -> rs = results run.2)
  /\ List.length (results run.2) <= maxResults
  /\ Forall (fun call : string * nat => call.2 < maxDepth) (listed run.2)
  /\ (forall recurse fuel currentPath currentDepth entries st,
        maxResults <= List.length (results st) ->
        search readdir minimatch relative rootPath pattern excludePatterns
          maxDepth maxResults (S fuel) currentPath currentDepth st = (Returned, st)
        /\ searchEntries minimatch relative rootPath pattern excludePatterns
             maxResults recurse currentPath entries st = (Returned, st))
  /\ (forall entries,
        maxDepth = 2 -> maxResults = 1 ->
        readdir rootPath = inr entries ->
        List.length entries = 5 ->
        Forall (fun entry =>
                  nameMatches pattern entry = true
                  /\ isDirectory entry = false
                  /\ shouldExclude minimatch relative rootPath excludePatterns
                       (Path.join rootPath (name entry)) = false)
               entries ->
        exists fullPath,
          found = Some (Ok [fullPath]) /\ listed run.2 = [(rootPath, 0)]).
Proof.
  intros run found.
  assert (Hb : withinBounds maxDepth maxResults run.2).
  { apply search_bounded. split; [simpl; lia|constructor]. }
  assert (Hf : run.1 <> OutOfFuel) by (apply search_fuel; lia).
  destruct Hb as [Hres Hlisted].
  split; [|split; [exact Hres|split; [exact Hlisted|split]]].
  - subst found. unfold searchFiles. change (runSearch _ _ _ _ _ _ _ _) with run.
    clearbody run. destruct run as [[|e|] st].
    + eexists; split; [reflexivity|]. intros rs [= <-]. reflexivity.
    + eexists; split; [reflexivity|]. intros rs [=].
    + exfalso. apply Hf. reflexivity.
  - intros recurse fuel currentPath currentDepth entries st Hfull. split.
    + apply search_saturated. exact Hfull.
    + apply searchEntries_saturated. exact Hfull.
  - intros entries -> -> Hroot Hlen Hall.
    destruct entries as [|entry rest]; [discriminate|].
    apply Forall_cons in Hall as [[Hname [_ Hexcl]] _].
    exists (Path.join rootPath (name entry)).
    subst found run. unfold searchFiles, runSearch. simpl.
    rewrite Hroot. simpl. rewrite Hexcl, Hname. simpl. split; reflexivity.
Qed.

(** The five reports of the sample directory: one result, one listing. *)
Lemma searchFiles_is_bounded_witness :
  let always := fun _ _ : string => false in
  let rel := fun _ p : string => p in
  searchFiles sampleReaddir always rel "/sandbox" "report" [] 2 1
  = Some (Ok ["/sandbox/report1.txt"])
  /\ listed (runSearch sampleReaddir always rel "/sandbox" "report" [] 2 1).2
     = [("/sandbox", 0)].
Proof.
  intros always rel.
  destruct (searchFiles_is_bounded sampleReaddir always rel "/sandbox" "report" [] 2 1)
    as [_ [_ [_ [_ Hfive]]]].
  destruct (Hfive fiveReports eq_refl eq_refl eq_refl eq_refl) as [fullPath [Hfound Hlisted]].
  - repeat constructor.
  - split; [|exact Hlisted].
    rewrite Hfound. vm_compute in Hfound. injection Hfound as <-. reflexivity.
Defined.

(* ===================================================================== *)
(** * The path sandbox *)
(* ===================================================================== *)

Section SandboxFacts.
Import Fs Sandbox.

Variable fs : filesystem.

Lemma pushSegment_plain acc seg :
  Forall plain acc -> Forall plain (Path.pushSegment false acc seg).
Proof.
  intros Hacc. unfold Path.pushSegment.
  destruct (String.eqb seg ".") eqn:E1; [exact Hacc|].
  destruct (String.eqb seg "..") eqn:E2.
  - destruct acc as [|top below]; [constructor|].
    apply Forall_cons in Hacc as [[_ Htop] Hbelow]. rewrite Htop. exact Hbelow.
  - constructor; [split; assumption|exact Hacc].
Qed.

(** A canonical path holds no [.] and no [..]. *)
Lemma canonicalize_plain cwd candidatePath :
  Forall plain (canonicalize cwd candidatePath).
Proof.
  unfold canonicalize, Path.normalizeSegments.
  generalize (Path.segments
                (if Path.isAbsolute candidatePath then candidatePath
                 else cwd +:+ "/" +:+ candidatePath)).
  intros segs. apply Forall_rev.
  assert (H : Forall plain (@nil string)) by constructor.
  revert H. generalize (@nil string).
  induction segs as [|seg segs IH]; intros acc Hacc; [exact Hacc|].
  simpl. apply IH. apply pushSegment_plain. exact Hacc.
Qed.

Lemma noLinksFrom_app cur a b :
  noLinksFrom fs cur (a ++ b) <-> noLinksFrom fs cur a /\ noLinksFrom fs (cur ++ a) b.
Proof.
  revert cur. induction a as [|x a IH]; intros cur; simpl.
  - rewrite app_nil_r. tauto.
  - rewrite IH, <- app_assoc. simpl. tauto.
Qed.

Lemma parent_lastOf (segs : list string) : segs = parent segs ++ lastOf segs.
Proof.
  unfold parent, lastOf. destruct segs as [|x segs] using rev_ind; [reflexivity|].
  rewrite removelast_last, rev_unit. reflexivity.
Qed.

(** Without links on the way, the kernel resolves a canonical path to
    itself. *)
Lemma walkWith_plain followLast onLink rest :
  forall cur,
    Forall plain rest -> noLinksFrom fs cur rest ->
    match walkWith fs followLast onLink cur rest with
    | inl _ => True
    | inr (loc, _) => loc = cur ++ rest
    end.
Proof.
  induction rest as [|seg rest IH]; intros cur Hplain Hlinks.
  - simpl. rewrite app_nil_r. reflexivity.
  - apply Forall_cons in Hplain as [[Hdot Hdots] Hplain].
    destruct Hlinks as [Hseg Hlinks]. simpl. rewrite Hdot, Hdots.
    destruct (fs !! key (cur ++ [seg])) as [[c| |target]|] eqn:E.
    + destruct rest; [reflexivity|exact I].
    + specialize (IH (cur ++ [seg]) Hplain Hlinks).
      rewrite <- app_assoc in IH. exact IH.
    + exfalso. exact (Hseg target eq_refl).
    + destruct rest; [reflexivity|exact I].
Qed.

Lemma resolveCached_plain cache rest :
  forall cur,
    noLinksFrom fs cur rest ->
    match resolveCached fs cache cur rest with
    | inl why => why = Missing
    | inr (loc, _) => loc = cur ++ rest
    end.
Proof.
  induction rest as [|seg rest IH]; intros cur Hlinks.
  - simpl. rewrite app_nil_r. reflexivity.
  - destruct Hlinks as [Hseg Hlinks]. simpl.
    destruct (fs !! key (cur ++ [seg])) as [[c| |target]|] eqn:E.
    + destruct rest; reflexivity.
    + specialize (IH (cur ++ [seg]) Hlinks).
      rewrite <- app_assoc in IH. exact IH.
    + exfalso. exact (Hseg target eq_refl).
    + destruct rest; reflexivity.
Qed.

Lemma resolveWith_plain cache followSymlinks segs :
  Forall plain segs -> noLinksFrom fs [] segs ->
  match resolveWith fs cache followSymlinks segs with
  | inl why => why = Missing
  | inr (loc, _) => loc = segs
  end.
Proof.
  intros Hplain Hlinks. unfold resolveWith. destruct followSymlinks.
  - unfold resolveFollowing, maxSymlinks.
    change (resolve fs true 40) with (walkWith fs true (resolve fs true 39)).
    pose proof (walkWith_plain true (resolve fs true 39) segs [] Hplain Hlinks) as H.
    destruct (walkWith fs true (resolve fs true 39) [] segs) as [e|[loc [n|]]];
      [reflexivity|exact H|exact H].
  - apply (resolveCached_plain cache segs [] Hlinks).
Qed.

Lemma parent_plain segs : Forall plain segs -> Forall plain (parent segs).
Proof.
  intros H. rewrite (parent_lastOf segs) in H. apply Forall_app in H as [H _]. exact H.
Qed.

Lemma parent_noLinks segs : noLinksFrom fs [] segs -> noLinksFrom fs [] (parent segs).
Proof.
  intros H. rewrite (parent_lastOf segs) in H.
  apply noLinksFrom_app in H as [H _]. exact H.
Qed.

Lemma climb_plain cache followSymlinks n :
  forall segs tail ancestor p,
    Forall plain segs -> noLinksFrom fs [] segs ->
    climb (resolveWith fs cache followSymlinks) n segs tail = inr (ancestor, p) ->
    p = segs ++ tail.
Proof.
  induction n as [|n IH]; intros segs tail ancestor p Hplain Hlinks H; simpl in H;
    pose proof (resolveWith_plain cache followSymlinks segs Hplain Hlinks) as Hr;
    destruct (resolveWith fs cache followSymlinks segs) as [[|]|[loc [|]]];
    try discriminate; try (injection H as <- <-; subst loc; reflexivity).
  all: rewrite (IH _ _ _ _ (parent_plain _ Hplain) (parent_noLinks _ Hlinks) H).
  all: rewrite app_assoc, <- parent_lastOf; reflexivity.
Qed.

(** Without links on the way, the canonical resolution of a path is
    its canonical form: collapsing [..] decides where it leads. *)
Lemma canonicalResolution_plain cwd candidatePath cache followSymlinks options ancestor p :
  noLinksFrom fs [] (canonicalize cwd candidatePath) ->
  canonicalResolution fs cwd candidatePath cache followSymlinks options
    = inr (ancestor, p) ->
  p = canonicalize cwd candidatePath.
Proof.
  intros Hlinks H. unfold canonicalResolution in H.
  pose proof (canonicalize_plain cwd candidatePath) as Hplain.
  pose proof (resolveWith_plain cache followSymlinks _ Hplain Hlinks) as Hr.
  destruct (resolveWith fs cache followSymlinks (canonicalize cwd candidatePath))
    as [[|]|[loc [|]]]; try discriminate.
  - destruct (checkParentExists options); [discriminate|].
    rewrite (climb_plain _ _ _ _ _ _ _ (parent_plain _ Hplain)
               (parent_noLinks _ Hlinks) H).
    symmetry. apply parent_lastOf.
  - injection H as <- <-. exact Hr.
  - injection H as <- <-. exact Hr.
Qed.

End SandboxFacts.

(** A path that leaves the roots through [..] is rejected, whether or
    not anything exists where it leads, as long as no symbolic link
    brings it back. *)
Lemma lexical_escape_rejected fs cwd candidatePath allowedRoots cache
    followSymlinks options :
  Sandbox.noLinksFrom fs [] (Sandbox.canonicalize cwd candidatePath) ->
  Sandbox.insideRoots allowedRoots (Sandbox.canonicalize cwd candidatePath) = false ->
  exists why,
    Sandbox.validate fs cwd candidatePath allowedRoots cache followSymlinks options
    = inl why.
Proof.
  intros Hlinks Hout. unfold Sandbox.validate.
  destruct (Sandbox.canonicalResolution fs cwd candidatePath cache followSymlinks options)
    as [why|[ancestor p]] eqn:E; [exists why; reflexivity|].
  apply canonicalResolution_plain in E; [|exact Hlinks]. subst p.
  rewrite Hout, andb_false_r. exists OutsideSandbox. reflexivity.
Qed.

(* ===================================================================== *)
(** * The operation handlers *)
(* ===================================================================== *)

Section HandlerFacts.

Variable cwd : string.
Variables (allowedDirectories : list string) (symlinksMap : gmap string string).
Variable noFollowSymlinks : bool.

Lemma validatePath_frame requestedPath options fs :
  (validatePath cwd requestedPath allowedDirectories symlinksMap noFollowSymlinks
     options fs).2 = fs.
Proof.
  unfold validatePath. destruct (Sandbox.validate _ _ _ _ _ _ _); reflexivity.
Qed.

Lemma validatePath_rejected requestedPath options fs why :
  Sandbox.validate fs cwd requestedPath allowedDirectories symlinksMap
    (negb noFollowSymlinks) options = inl why ->
  validatePath cwd requestedPath allowedDirectories symlinksMap noFollowSymlinks
    options fs = (Err (Rejected why), fs).
Proof. intros H. unfold validatePath. rewrite H. reflexivity. Qed.

(** The permission error of [handleModifyFile] is thrown inside the
    [try] whose [catch] replaces every error by "file does not
    exist". *)
Lemma handleModifyFile_without_permission data permissions fs validPath :
  validatePath cwd (WriteFileArgs.path data) allowedDirectories symlinksMap
    noFollowSymlinks Sandbox.defaultOptions fs = (Ok validPath, fs) ->
  FsOps.access validPath fs = (Ok tt, fs) ->
  Permissions.edit permissions = false ->
  Permissions.fullAccess permissions = false ->
  handleModifyFile cwd (ParseSuccess data) permissions allowedDirectories
    symlinksMap noFollowSymlinks fs
  = (Err (Thrown "Cannot modify file: file does not exist"), fs).
Proof.
  intros Hv Ha He Hf. unfold handleModifyFile, bind, tryCatch.
  rewrite Hv, Ha, He, Hf. reflexivity.
Qed.

End HandlerFacts.

(** C2, at the input where it fails. The destination [/sandbox/b/g.txt]
    names an existing file; [handleMoveFile] does not look, and
    [fs.rename] replaces it: the move succeeds, the destination holds
    the content of the source, and its own content is lost. The
    sibling [handleRenameFile] does look, and fails when the name is
    taken. *)
Theorem handleMoveFile_replaces_existing_destination :
  let data := {| MoveFileArgs.source := "/sandbox/a/f.txt";
                 MoveFileArgs.destination := "/sandbox/b/g.txt" |} in
  let run := handleMoveFile "/" (ParseSuccess data) movePermission ["/sandbox"] ∅
               false sampleFs in
  sampleFs !! "/sandbox/b/g.txt" = Some (Fs.File "two")
  /\ run.1 = Ok "Successfully moved /sandbox/a/f.txt to /sandbox/b/g.txt"
  /\ run.2 !! "/sandbox/b/g.txt" = Some (Fs.File "one")
  /\ run.2 !! "/sandbox/a/f.txt" = None
  /\ handleRenameFile "/"
       (ParseSuccess {| RenameFileArgs.path := "/sandbox/b/g.txt";
                        RenameFileArgs.newName := "g.txt" |})
       renamePermission ["/sandbox"] ∅ false sampleFs
     = (Err (Thrown ("Cannot rename file: a file with name " +:+ quote +:+ "g.txt"
                       +:+ quote +:+ " already exists in the directory")),
        sampleFs).
Proof. vm_compute. repeat split; reflexivity. Qed.

(** C3, at the input where it fails. The new name [../b/h.txt] holds
    separators; [path.join] resolves it against the directory of the
    source, and the file ends up in another directory. *)
Theorem handleRenameFile_leaves_the_directory :
  let data := {| RenameFileArgs.path := "/sandbox/a/f.txt";
                 RenameFileArgs.newName := "../b/h.txt" |} in
  let run := handleRenameFile "/" (ParseSuccess data) renamePermission ["/sandbox"] ∅
               false sampleFs in
  run.1 = Ok "Successfully renamed /sandbox/a/f.txt to ../b/h.txt"
  /\ run.2 !! "/sandbox/b/h.txt" = Some (Fs.File "one")
  /\ run.2 !! "/sandbox/a/f.txt" = None
  /\ Path.dirname "/sandbox/b/h.txt" <> Path.dirname "/sandbox/a/f.txt".
Proof. vm_compute. repeat split; try reflexivity. discriminate. Qed.

(** C4, at the input where it fails. The file [/sandbox/a/f.txt] exists
    and neither [edit] nor [fullAccess] is granted: the handler fails
    with "file does not exist", of the kind [NotFound], not with the
    permission error; the file is left as it is. *)
Theorem handleModifyFile_hides_the_permission_error :
  forall content,
    let data := {| WriteFileArgs.path := "/sandbox/a/f.txt";
                   WriteFileArgs.content := content |} in
    let run := handleModifyFile "/" (ParseSuccess data) noPermissions ["/sandbox"] ∅
                 false sampleFs in
    FsOps.access "/sandbox/a/f.txt" sampleFs = (Ok tt, sampleFs)
    /\ run = (Err (Thrown "Cannot modify file: file does not exist"), sampleFs)
    /\ kindOf (Thrown "Cannot modify file: file does not exist") = NotFound
    /\ kindOf (Thrown
         "Cannot modify file: edit permission not granted (requires --allow-edit)")
       = PermissionDenied.
Proof.
  intros content data run.
  assert (Ha : FsOps.access "/sandbox/a/f.txt" sampleFs = (Ok tt, sampleFs))
    by (vm_compute; reflexivity).
  split; [exact Ha|]. split; [|split; reflexivity].
  apply (handleModifyFile_without_permission "/" ["/sandbox"] ∅ false data
           noPermissions sampleFs "/sandbox/a/f.txt");
    try reflexivity; exact Ha.
Qed.

(* ===================================================================== *)
(** * Bounded search: what is found *)
(* ===================================================================== *)

Section SearchReachFacts.

Variable readdir : string -> errno + list Dirent.
Variable minimatch : string -> string -> bool.
Variable relative : string -> string -> string.
Variables (rootPath pattern : string) (excludePatterns : list string).
Variables (maxDepth maxResults : nat).

Local Abbreviation excluded :=
  (shouldExclude minimatch relative rootPath excludePatterns).
Local Abbreviation loop :=
  (searchEntries minimatch relative rootPath pattern excludePatterns maxResults).
Local Abbreviation walk :=
  (search readdir minimatch relative rootPath pattern excludePatterns
     maxDepth maxResults).
Local Abbreviation reachable :=
  (Reachable readdir minimatch relative rootPath excludePatterns).
Local Abbreviation found :=
  (FoundIn readdir minimatch relative rootPath pattern excludePatterns maxDepth).
Local Abbreviation exhaustive :=
  (Exhaustive readdir minimatch relative rootPath pattern excludePatterns).

Local Abbreviation sound :=
  (SoundWalk readdir minimatch relative rootPath pattern excludePatterns maxDepth).
Local Abbreviation grows := Grows.

Lemma searchEntries_sound recurse currentPath currentDepth all :
  reachable currentPath currentDepth ->
  currentDepth < maxDepth ->
  readdir currentPath = inr all ->
  (forall p st, reachable p (S currentDepth) ->
                sound (Returned, st) -> sound (recurse p st)) ->
  forall rest st,
    (forall entry, In entry rest -> In entry all) ->
    sound (Returned, st) -> sound (loop recurse currentPath rest st).
Proof.
  intros Hreach Hdepth Hall Hrec.
  induction rest as [|entry rest IH]; intros st Hin Hst; [exact Hst|].
  assert (Hrest : forall e, In e rest -> In e all) by (intros e He; apply Hin; right; exact He).
  simpl. destruct (excluded _) eqn:Hex; [apply IH; assumption|].
  set (fullPath := Path.join currentPath (name entry)) in *.
  set (st1 := if nameMatches pattern entry && (List.length (results st) <? maxResults)
              then pushResult fullPath st else st).
  assert (Hst1 : sound (Returned, st1)).
  { subst st1. destruct (nameMatches pattern entry) eqn:Hname; simpl; [|exact Hst].
    destruct (List.length (results st) <? maxResults); [|exact Hst].
    destruct Hst as [Hres [Hlisted Hfail]]. split; [|split; assumption].
    simpl. apply Forall_app. split; [exact Hres|]. constructor; [|constructor].
    exists currentPath, currentDepth, all, entry.
    repeat split; try assumption; try reflexivity. apply Hin. left. reflexivity. }
  clearbody st1.
  destruct (nameMatches pattern entry && (maxResults <=? List.length (results st1)));
    [exact Hst1|].
  destruct (isDirectory entry) eqn:Hdir; simpl; [|apply IH; assumption].
  destruct (List.length (results st1) <? maxResults); [|apply IH; assumption].
  assert (Hchild : reachable fullPath (S currentDepth)).
  { eapply reach_entry; eauto. apply Hin. left. reflexivity. }
  specialize (Hrec fullPath st1 Hchild Hst1).
  destruct (recurse fullPath st1) as [[|e|] st2]; [|exact Hrec|exact Hrec].
  apply IH; [exact Hrest|]. destruct Hrec as [H1 [H2 _]].
  split; [exact H1|split; [exact H2|]]. intros e He. discriminate He.
Qed.

Lemma search_sound fuel :
  forall currentPath currentDepth st,
    reachable currentPath currentDepth ->
    sound (Returned, st) -> sound (walk fuel currentPath currentDepth st).
Proof.
  induction fuel as [|fuel IH]; intros currentPath currentDepth st Hreach Hst.
  - destruct Hst as [H1 [H2 _]]. split; [exact H1|split; [exact H2|]].
    intros e He. discriminate He.
  - simpl. destruct (maxDepth <=? currentDepth) eqn:Ed; [exact Hst|].
    destruct (maxResults <=? List.length (results st)); [exact Hst|].
    apply Nat.leb_gt in Ed.
    assert (Hlog : sound (Returned, logReaddir currentPath currentDepth st)).
    { destruct Hst as [H1 [H2 _]]. split; [exact H1|split].
      - simpl. constructor; [exact Hreach|exact H2].
      - intros e He. discriminate He. }
    destruct (readdir currentPath) as [e|entries] eqn:Hread.
    + destruct Hlog as [H1 [H2 _]]. split; [exact H1|split; [exact H2|]].
      intros e' [= <-]. exists currentPath, currentDepth. auto.
    + eapply searchEntries_sound; eauto.
Qed.

Lemma searchEntries_grows recurse currentPath :
  (forall p st, grows st (recurse p st)) ->
  forall rest st, grows st (loop recurse currentPath rest st).
Proof.
  intros Hrec. induction rest as [|entry rest IH]; intros st.
  - exists []. simpl. rewrite app_nil_r. reflexivity.
  - simpl. destruct (excluded _); [apply IH|].
    set (fullPath := Path.join currentPath (name entry)).
    set (st1 := if nameMatches pattern entry && (List.length (results st) <? maxResults)
                then pushResult fullPath st else st).
    assert (H1 : grows st (Returned, st1)).
    { subst st1. destruct (nameMatches pattern entry && _).
      - exists [fullPath]. reflexivity.
      - exists []. simpl. rewrite app_nil_r. reflexivity. }
    clearbody st1. destruct H1 as [m1 H1]. simpl in H1.
    assert (Hthen : forall out, grows st1 out -> grows st out).
    { intros out [m Hm]. exists (m1 ++ m). rewrite Hm, H1, app_assoc. reflexivity. }
    destruct (nameMatches pattern entry && (maxResults <=? List.length (results st1))).
    { exists m1. exact H1. }
    destruct (isDirectory entry && (List.length (results st1) <? maxResults));
      [|apply Hthen, IH].
    specialize (Hrec fullPath st1).
    destruct (recurse fullPath st1) as [[|e|] st2]; try (apply Hthen; exact Hrec).
    destruct Hrec as [m2 H2]. simpl in H2.
    destruct (IH st2) as [m3 H3]. apply Hthen. exists (m2 ++ m3).
    rewrite H3, H2, app_assoc. reflexivity.
Qed.

Lemma search_grows fuel :
  forall currentPath currentDepth st, grows st (walk fuel currentPath currentDepth st).
Proof.
  assert (Hsame : forall o st, grows st (o, st)).
  { intros o st. exists []. simpl. rewrite app_nil_r. reflexivity. }
  induction fuel as [|fuel IH]; intros currentPath currentDepth st; [apply Hsame|].
  simpl. destruct (maxDepth <=? currentDepth); [apply Hsame|].
  destruct (maxResults <=? List.length (results st)); [apply Hsame|].
  destruct (readdir currentPath) as [e|entries].
  { exists []. simpl. rewrite app_nil_r. reflexivity. }
  destruct (searchEntries_grows
              (fun fullPath => walk fuel fullPath (S currentDepth)) currentPath
              (fun p s => IH p (S currentDepth) s) entries
              (logReaddir currentPath currentDepth st)) as [m Hm].
  exists m. exact Hm.
Qed.

Lemma grows_length st out :
  grows st out -> List.length (results st) <= List.length (results out.2).
Proof. intros [m Hm]. rewrite Hm, length_app. lia. Qed.

Lemma grows_incl st out x : grows st out -> In x (results st) -> In x (results out.2).
Proof. intros [m Hm] Hx. rewrite Hm. apply in_or_app. left. exact Hx. Qed.

Lemma exhaustive_mono levels :
  forall currentPath found1 found2,
    (forall x, In x found1 -> In x found2) ->
    exhaustive levels currentPath found1 -> exhaustive levels currentPath found2.
Proof.
  induction levels as [|levels IH]; intros currentPath found1 found2 Hincl H; [exact I|].
  destruct H as [entries [Hread H]]. exists entries. split; [exact Hread|].
  intros entry Hin Hex. destruct (H entry Hin Hex) as [Hname Hdir]. split.
  - intros Hn. apply Hincl, Hname, Hn.
  - intros Hd. eapply IH; [exact Hincl|]. apply Hdir, Hd.
Qed.

Lemma searchEntries_exhaustive recurse currentPath levels :
  (forall p st, grows st (recurse p st)) ->
  (forall p st st', recurse p st = (Returned, st') ->
                    List.length (results st') < maxResults ->
                    exhaustive levels p (results st')) ->
  forall rest st st',
    loop recurse currentPath rest st = (Returned, st') ->
    List.length (results st') < maxResults ->
    forall entry,
      In entry rest ->
      excluded (Path.join currentPath (name entry)) = false ->
      (nameMatches pattern entry = true ->
         In (Path.join currentPath (name entry)) (results st'))
      /\ (isDirectory entry = true ->
            exhaustive levels (Path.join currentPath (name entry)) (results st')).
Proof.
  intros Hgrow Hrec. induction rest as [|entry rest IH];
    intros st st' Hrun Hroom x Hx Hnot; [destruct Hx|].
  simpl in Hrun.
  pose proof (searchEntries_grows recurse currentPath Hgrow) as Hloop.
  destruct (excluded (Path.join currentPath (name entry))) eqn:Hex.
  { destruct Hx as [<-|Hx]; [congruence|]. eapply IH; eauto. }
  set (fullPath := Path.join currentPath (name entry)) in *.
  set (st1 := if nameMatches pattern entry && (List.length (results st) <? maxResults)
              then pushResult fullPath st else st) in *.
  destruct (nameMatches pattern entry && (maxResults <=? List.length (results st1)))
    eqn:Hfull.
  { injection Hrun as <-. apply andb_true_iff in Hfull as [_ Hfull].
    apply Nat.leb_le in Hfull. lia. }
  (* the rest of the loop runs from [st2], after the recursive call if any *)
  assert (Hrest : exists st2,
             loop recurse currentPath rest st2 = (Returned, st')
             /\ grows st1 (Returned, st2)
             /\ (isDirectory entry = true -> exhaustive levels fullPath (results st2))).
  { destruct (isDirectory entry) eqn:Hdir; simpl in Hrun.
    - destruct (List.length (results st1) <? maxResults) eqn:Hlt.
      + pose proof (Hgrow fullPath st1) as Hg.
        destruct (recurse fullPath st1) as [[|e|] st2] eqn:Hcall; try discriminate.
        exists st2. split; [exact Hrun|]. split; [exact Hg|]. intros _.
        apply (Hrec fullPath st1 st2 Hcall).
        pose proof (grows_length _ _ (Hloop rest st2)) as Hl. rewrite Hrun in Hl.
        simpl in Hl. lia.
      + exfalso. apply Nat.ltb_ge in Hlt.
        pose proof (grows_length _ _ (Hloop rest st1)) as Hl. rewrite Hrun in Hl.
        simpl in Hl. lia.
    - exists st1. split; [exact Hrun|]. split; [|discriminate].
      exists []. simpl. rewrite app_nil_r. reflexivity. }
  destruct Hrest as [st2 [Hrun2 [Hg12 Hdir2]]].
  pose proof (Hloop rest st2) as Hg2. rewrite Hrun2 in Hg2.
  destruct Hx as [<-|Hx]; [|eapply IH; eauto].
  split.
  - intros Hname. apply (grows_incl _ _ _ Hg2). apply (grows_incl _ _ _ Hg12).
    subst st1. rewrite Hname in *. simpl in *.
    destruct (List.length (results st) <? maxResults) eqn:Hlt.
    + simpl. apply in_or_app. right. left. reflexivity.
    + exfalso. apply Nat.leb_gt in Hfull. apply Nat.ltb_ge in Hlt. lia.
  - intros Hd. eapply exhaustive_mono; [|apply Hdir2; exact Hd].
    intros y Hy. apply (grows_incl _ _ _ Hg2). exact Hy.
Qed.

Lemma search_exhaustive fuel :
  forall currentPath currentDepth st st',
    walk fuel currentPath currentDepth st = (Returned, st') ->
    List.length (results st') < maxResults ->
    exhaustive (maxDepth - currentDepth) currentPath (results st').
Proof.
  induction fuel as [|fuel IH]; intros currentPath currentDepth st st' Hrun Hroom;
    [discriminate|].
  simpl in Hrun. destruct (maxDepth <=? currentDepth) eqn:Ed.
  { apply Nat.leb_le in Ed. replace (maxDepth - currentDepth) with 0 by lia. exact I. }
  apply Nat.leb_gt in Ed.
  destruct (maxResults <=? List.length (results st)) eqn:Er.
  { injection Hrun as <-. apply Nat.leb_le in Er. lia. }
  destruct (readdir currentPath) as [e|entries] eqn:Hread; [discriminate|].
  replace (maxDepth - currentDepth) with (S (maxDepth - S currentDepth)) by lia.
  exists entries. split; [exact Hread|]. intros entry Hin Hex.
  eapply (searchEntries_exhaustive
            (fun fullPath => walk fuel fullPath (S currentDepth)) currentPath
            (maxDepth - S currentDepth)); eauto.
  intros p s. apply search_grows.
Qed.

End SearchReachFacts.

Section SearchTheorems.

Variable readdir : string -> errno + list Dirent.
Variable minimatch : string -> string -> bool.
Variable relative : string -> string -> string.
Variables (rootPath pattern : string) (excludePatterns : list string).
Variables (maxDepth maxResults : nat).

Lemma runSearch_sound :
  SoundWalk readdir minimatch relative rootPath pattern excludePatterns maxDepth
    (runSearch readdir minimatch relative rootPath pattern excludePatterns
       maxDepth maxResults).
Proof.
  apply search_sound; [constructor|].
  split; [constructor|split; [constructor|]]. intros e He. discriminate He.
Qed.

(** X1. Every path that [searchFiles] returns is [path.join] of a
    directory and the name of one of its entries, where the directory
    is the root or is reached from it through directory entries that
    are not excluded, sits at a depth below [maxDepth], and the entry
    is not excluded and holds the pattern in its name, whatever the
    case of the letters. *)
Theorem searchFiles_returns_matching_entries rs fullPath :
  searchFiles readdir minimatch relative rootPath pattern excludePatterns
    maxDepth maxResults = Some (Ok rs) ->
  In fullPath rs ->
  FoundIn readdir minimatch relative rootPath pattern excludePatterns maxDepth fullPath.
Proof.
  unfold searchFiles. intros Hrun Hin. pose proof runSearch_sound as [Hres _].
  destruct (runSearch _ _ _ _ _ _ _ _) as [[|e|] st]; try discriminate.
  injection Hrun as <-. rewrite Forall_forall in Hres. apply Hres.
  apply list_elem_of_In. exact Hin.
Qed.

(** X2. When [searchFiles] returns fewer than [maxResults] paths, it
    has missed nothing: every directory down to the depth limit was
    listed, and every entry found there that is not excluded and holds
    the pattern is among the results. *)
Theorem searchFiles_is_exhaustive_below_the_cap rs :
  searchFiles readdir minimatch relative rootPath pattern excludePatterns
    maxDepth maxResults = Some (Ok rs) ->
  List.length rs < maxResults ->
  Exhaustive readdir minimatch relative rootPath pattern excludePatterns
    maxDepth rootPath rs.
Proof.
  unfold searchFiles, runSearch. intros Hrun Hroom.
  destruct (search _ _ _ _ _ _ _ _ _ _ _ _) as [[|e|] st] eqn:E; try discriminate.
  injection Hrun as <-.
  pose proof (search_exhaustive _ _ _ _ _ _ _ _ _ _ _ _ _ E Hroom) as H.
  rewrite Nat.sub_0_r in H. exact H.
Qed.

End SearchTheorems.

Section SearchFailureFacts.

Variable readdir : string -> errno + list Dirent.
Variable minimatch : string -> string -> bool.
Variable relative : string -> string -> string.
Variables (rootPath pattern : string) (excludePatterns : list string).
Variables (maxDepth maxResults : nat).

Local Abbreviation loop :=
  (searchEntries minimatch relative rootPath pattern excludePatterns maxResults).
Local Abbreviation walk :=
  (search readdir minimatch relative rootPath pattern excludePatterns
     maxDepth maxResults).
Local Abbreviation failsAtLast := (FailsAtLast readdir).

Lemma searchEntries_failsAtLast recurse currentPath :
  (forall p st, failsAtLast (Returned, st) -> failsAtLast (recurse p st)) ->
  forall rest st,
    failsAtLast (Returned, st) -> failsAtLast (loop recurse currentPath rest st).
Proof.
  intros Hrec. induction rest as [|entry rest IH]; intros st Hst; [exact Hst|].
  simpl. destruct (shouldExclude _ _ _ _ _); [apply IH; exact Hst|].
  set (fullPath := Path.join currentPath (name entry)).
  set (st1 := if nameMatches pattern entry && (List.length (results st) <? maxResults)
              then pushResult fullPath st else st).
  assert (Hst1 : failsAtLast (Returned, st1)).
  { subst st1. destruct (nameMatches pattern entry && _); [|exact Hst]. exact Hst. }
  clearbody st1.
  destruct (nameMatches pattern entry && (maxResults <=? List.length (results st1)));
    [exact Hst1|].
  destruct (isDirectory entry && (List.length (results st1) <? maxResults));
    [|apply IH; exact Hst1].
  specialize (Hrec fullPath st1 Hst1).
  destruct (recurse fullPath st1) as [[|e|] st2]; [|exact Hrec|exact Hrec].
  apply IH. exact Hrec.
Qed.

Lemma search_failsAtLast fuel :
  forall currentPath currentDepth st,
    failsAtLast (Returned, st) -> failsAtLast (walk fuel currentPath currentDepth st).
Proof.
  induction fuel as [|fuel IH]; intros currentPath currentDepth st Hst; [exact Hst|].
  simpl. destruct (maxDepth <=? currentDepth); [exact Hst|].
  destruct (maxResults <=? List.length (results st)); [exact Hst|].
  destruct (readdir currentPath) as [e|entries] eqn:Hread.
  - exists currentPath, currentDepth, (listed st). auto.
  - apply searchEntries_failsAtLast.
    + intros p s. apply IH.
    + unfold FailsAtLast. simpl. constructor; [|exact Hst].
      exists entries. exact Hread.
Qed.

Lemma runSearch_failsAtLast :
  failsAtLast (runSearch readdir minimatch relative rootPath pattern excludePatterns
                 maxDepth maxResults).
Proof. apply search_failsAtLast. unfold FailsAtLast. simpl. constructor. Qed.

(** X3. [searchFiles] fails exactly when a call of [fs.readdir] of the
    walk fails. If it fails, the error is that of a listing, of a
    directory that the walk reaches above the depth limit. And one
    listing that fails makes the whole search fail, with the error of
    that listing, at the root or at any depth: no result found before
    is returned, and nothing is listed afterwards. *)
Theorem searchFiles_fails_with_a_listing_error :
  let run := runSearch readdir minimatch relative rootPath pattern excludePatterns
               maxDepth maxResults in
  let answer := searchFiles readdir minimatch relative rootPath pattern excludePatterns
                  maxDepth maxResults in
  (forall err,
     answer = Some (Err err) ->
     exists e currentPath currentDepth,
       err = SystemError e "scandir"
       /\ Reachable readdir minimatch relative rootPath excludePatterns
            currentPath currentDepth
       /\ currentDepth < maxDepth
       /\ readdir currentPath = inl e)
  /\ (forall currentPath currentDepth e,
        In (currentPath, currentDepth) (listed run.2) ->
        readdir currentPath = inl e ->
        answer = Some (Err (SystemError e "scandir"))
        /\ exists earlier, listed run.2 = (currentPath, currentDepth) :: earlier)
  /\ (forall rs,
        answer = Some (Ok rs) ->
        Forall (listingSucceeds readdir) (listed run.2)).
Proof.
  intros run answer. split; [|split].
  - subst answer. unfold searchFiles. intros err Hrun.
    pose proof (runSearch_sound readdir minimatch relative rootPath pattern
                  excludePatterns maxDepth maxResults) as [_ [_ Hfail]].
    destruct (runSearch _ _ _ _ _ _ _ _) as [[|e|] st]; try discriminate.
    injection Hrun as <-. destruct (Hfail e eq_refl) as [p [d [H1 [H2 H3]]]].
    exists e, p, d. auto.
  - intros currentPath currentDepth e Hin Hread.
    pose proof runSearch_failsAtLast as Hlast. fold run in Hlast.
    assert (Hnot : ~ Forall (listingSucceeds readdir) (listed run.2)).
    { intros Hall. rewrite Forall_forall in Hall.
      apply list_elem_of_In, Hall in Hin. destruct Hin as [entries Hin].
      simpl in Hin. congruence. }
    subst answer. unfold searchFiles. fold run. unfold FailsAtLast in Hlast.
    destruct run as [[|e0|] st]; simpl in *; try (exfalso; exact (Hnot Hlast)).
    destruct Hlast as [p [d [earlier [Hl [He Hearlier]]]]].
    rewrite Hl in Hin. destruct Hin as [[= <- <-]|Hin].
    + split; [congruence|]. exists earlier. exact Hl.
    + exfalso. rewrite Forall_forall in Hearlier.
      apply list_elem_of_In, Hearlier in Hin. destruct Hin as [entries Hin].
      simpl in Hin. congruence.
  - intros rs Hrun. pose proof runSearch_failsAtLast as Hlast. fold run in Hlast.
    subst answer. unfold searchFiles in Hrun. fold run in Hrun.
    unfold FailsAtLast in Hlast.
    destruct run as [[|e0|] st]; simpl in *; try discriminate. exact Hlast.
Qed.

End SearchFailureFacts.

Lemma lowerChar_idempotent c : Js.lowerChar (Js.lowerChar c) = Js.lowerChar c.
Proof. destruct c as [[] [] [] [] [] [] [] []]; reflexivity. Qed.

Lemma toLowerCase_idempotent s : Js.toLowerCase (Js.toLowerCase s) = Js.toLowerCase s.
Proof.
  induction s as [|c s IH]; [reflexivity|]. simpl. rewrite lowerChar_idempotent, IH.
  reflexivity.
Qed.

Lemma search_pattern_ext readdir minimatch relative rootPath pattern1 pattern2
    excludePatterns maxDepth maxResults :
  Js.toLowerCase pattern1 = Js.toLowerCase pattern2 ->
  forall fuel currentPath currentDepth st,
    search readdir minimatch relative rootPath pattern1 excludePatterns maxDepth
      maxResults fuel currentPath currentDepth st
    = search readdir minimatch relative rootPath pattern2 excludePatterns maxDepth
        maxResults fuel currentPath currentDepth st.
Proof.
  intros Hlow.
  assert (Hname : forall entry, nameMatches pattern1 entry = nameMatches pattern2 entry)
    by (intros entry; unfold nameMatches; rewrite Hlow; reflexivity).
  induction fuel as [|fuel IH]; intros currentPath currentDepth st; [reflexivity|].
  simpl. destruct (maxDepth <=? currentDepth); [reflexivity|].
  destruct (maxResults <=? List.length (results st)); [reflexivity|].
  destruct (readdir currentPath) as [e|entries]; [reflexivity|].
  generalize (logReaddir currentPath currentDepth st).
  induction entries as [|entry rest IHrest]; intros st0; [reflexivity|].
  simpl. rewrite Hname.
  destruct (shouldExclude _ _ _ _ _); [apply IHrest|].
  destruct (nameMatches pattern2 entry && (maxResults <=? _)); [reflexivity|].
  destruct (isDirectory entry && _); [|apply IHrest].
  rewrite IH. destruct (search _ _ _ _ pattern2 _ _ _ _ _ _ _) as [[|e|] st2];
    [apply IHrest|reflexivity|reflexivity].
Qed.

(** X4. The case of the letters of the pattern does not matter: a
    pattern and its lower-case form give the same search, result by
    result and listing by listing. *)
Theorem searchFiles_ignores_the_case_of_the_pattern
    readdir minimatch relative rootPath pattern excludePatterns maxDepth maxResults :
  searchFiles readdir minimatch relative rootPath (Js.toLowerCase pattern)
    excludePatterns maxDepth maxResults
  = searchFiles readdir minimatch relative rootPath pattern excludePatterns
      maxDepth maxResults
  /\ runSearch readdir minimatch relative rootPath (Js.toLowerCase pattern)
       excludePatterns maxDepth maxResults
     = runSearch readdir minimatch relative rootPath pattern excludePatterns
         maxDepth maxResults.
Proof.
  assert (H : runSearch readdir minimatch relative rootPath (Js.toLowerCase pattern)
                excludePatterns maxDepth maxResults
              = runSearch readdir minimatch relative rootPath pattern excludePatterns
                  maxDepth maxResults).
  { unfold runSearch. apply search_pattern_ext. apply toLowerCase_idempotent. }
  split; [|exact H]. unfold searchFiles. rewrite H. reflexivity.
Qed.

(** The five reports of the sample directory, found with room to
    spare: each comes from an entry of the root, and none is missed. *)
Lemma searchFiles_returns_matching_entries_witness :
  FoundIn sampleReaddir (fun _ _ => false) (fun _ p => p) "/sandbox" "REPORT" [] 2
    "/sandbox/Report2.txt".
Proof.
  apply (searchFiles_returns_matching_entries sampleReaddir (fun _ _ => false)
           (fun _ p => p) "/sandbox" "REPORT" [] 2 10
           ["/sandbox/report1.txt"; "/sandbox/Report2.txt"; "/sandbox/report3.txt";
            "/sandbox/REPORT4.txt"; "/sandbox/report5.txt"]).
  - vm_compute. reflexivity.
  - right. left. reflexivity.
Defined.

Lemma searchFiles_is_exhaustive_below_the_cap_witness :
  Exhaustive sampleReaddir (fun _ _ => false) (fun _ p => p) "/sandbox" "REPORT" [] 2
    "/sandbox"
    ["/sandbox/report1.txt"; "/sandbox/Report2.txt"; "/sandbox/report3.txt";
     "/sandbox/REPORT4.txt"; "/sandbox/report5.txt"].
Proof.
  apply (searchFiles_is_exhaustive_below_the_cap sampleReaddir (fun _ _ => false)
           (fun _ p => p) "/sandbox" "REPORT" [] 2 10).
  - vm_compute. reflexivity.
  - simpl. lia.
Defined.

(** The root of the sample can be listed and its directory [locked]
    cannot: the search fails with the error of that listing, and the
    match found before it is not returned. *)
Lemma searchFiles_fails_with_a_listing_error_witness :
  searchFiles lockedReaddir (fun _ _ => false) (fun _ p => p) "/sandbox" "txt" [] 2 10
  = Some (Err (SystemError ENOTDIR "scandir"))
  /\ exists earlier,
       listed (runSearch lockedReaddir (fun _ _ => false) (fun _ p => p) "/sandbox"
                 "txt" [] 2 10).2
       = ("/sandbox/locked", 1) :: earlier.
Proof.
  destruct (searchFiles_fails_with_a_listing_error lockedReaddir (fun _ _ => false)
              (fun _ p => p) "/sandbox" "txt" [] 2 10) as [_ [Hfails _]].
  apply (Hfails "/sandbox/locked" 1 ENOTDIR).
  - vm_compute. left. reflexivity.
  - reflexivity.
Defined.

(* ===================================================================== *)
(** * Search by extension *)
(* ===================================================================== *)

Section ExtensionSearchFacts.

Variable readdir : string -> errno + list FileEntry.
Variable minimatch : string -> string -> bool.
Variable relative : string -> string -> string.
Variables (rootPath normalizedExtension : string) (excludePatterns : list string).
Variables (maxDepth maxResults : nat).

Local Abbreviation excluded :=
  (shouldExclude minimatch relative rootPath excludePatterns).
Local Abbreviation loop :=
  (searchDirectoryEntries minimatch relative rootPath normalizedExtension
     excludePatterns maxResults).
Local Abbreviation walk :=
  (searchDirectory readdir minimatch relative rootPath normalizedExtension
     excludePatterns maxDepth maxResults).
Local Abbreviation bounded := (withinBounds maxDepth maxResults).
Local Abbreviation wanted :=
  (FileOfExtension readdir minimatch relative rootPath normalizedExtension
     excludePatterns).

Lemma extension_push_bounded fullPath st :
  bounded st ->
  bounded (if List.length (results st) <? maxResults
           then pushResult fullPath st else st).
Proof.
  intros [Hr Hl]. destruct (List.length (results st) <? maxResults) eqn:E;
    [|split; assumption].
  apply Nat.ltb_lt in E. split; [|exact Hl]. simpl. rewrite length_app. simpl. lia.
Qed.

Lemma searchDirectoryEntries_bounded recurse currentPath entries :
  (forall p st, bounded st -> bounded (recurse p st).2) ->
  forall st, bounded st -> bounded (loop recurse currentPath entries st).2.
Proof.
  intros Hrec. induction entries as [|entry rest IH]; intros st Hst; [exact Hst|].
  simpl. destruct (excluded _); [apply IH; exact Hst|].
  destruct (isFile entry).
  - destruct (String.eqb (fileExtension entry) normalizedExtension);
      [|apply IH; exact Hst].
    pose proof (extension_push_bounded (Path.join currentPath (name entry)) st Hst) as H1.
    destruct (maxResults <=? _); [exact H1|apply IH; exact H1].
  - destruct (isDirectory entry); [|apply IH; exact Hst].
    destruct (List.length (results st) <? maxResults); [|apply IH; exact Hst].
    specialize (Hrec (Path.join currentPath (name entry)) st Hst).
    destruct (recurse _ st) as [[| |] st2]; simpl in *;
      [apply IH; exact Hrec|exact Hrec|exact Hrec].
Qed.

Lemma searchDirectory_bounded fuel :
  forall currentPath currentDepth st,
    bounded st -> bounded (walk fuel currentPath currentDepth st).2.
Proof.
  induction fuel as [|fuel IH]; intros currentPath currentDepth st Hst; [exact Hst|].
  simpl. destruct (maxDepth <=? currentDepth) eqn:Ed; [exact Hst|].
  destruct (maxResults <=? List.length (results st)); [exact Hst|].
  apply Nat.leb_gt in Ed.
  assert (Hlog : bounded (logReaddir currentPath currentDepth st)).
  { destruct Hst as [Hr Hl]. split; [exact Hr|]. simpl. constructor; assumption. }
  destruct (readdir currentPath) as [e|entries]; [exact Hlog|].
  apply searchDirectoryEntries_bounded; [|exact Hlog].
  intros p st0 Hst0. apply IH. exact Hst0.
Qed.

Lemma searchDirectoryEntries_fuel recurse currentPath entries :
  (forall p st, (recurse p st).1 <> OutOfFuel) ->
  forall st, (loop recurse currentPath entries st).1 <> OutOfFuel.
Proof.
  intros Hrec. induction entries as [|entry rest IH]; intros st; [discriminate|].
  simpl. destruct (excluded _); [apply IH|].
  destruct (isFile entry).
  - destruct (String.eqb _ _); [|apply IH].
    destruct (maxResults <=? _); [discriminate|apply IH].
  - destruct (isDirectory entry); [|apply IH].
    destruct (List.length (results st) <? maxResults); [|apply IH].
    specialize (Hrec (Path.join currentPath (name entry)) st).
    destruct (recurse _ st) as [[| |] st2]; simpl in *;
      [apply IH|discriminate|congruence].
Qed.

Lemma searchDirectory_fuel fuel :
  forall currentPath currentDepth st,
    currentDepth <= maxDepth ->
    maxDepth < fuel + currentDepth ->
    (walk fuel currentPath currentDepth st).1 <> OutOfFuel.
Proof.
  induction fuel as [|fuel IH]; intros currentPath currentDepth st Hd Hfuel; [lia|].
  simpl. destruct (maxDepth <=? currentDepth) eqn:Ed; [discriminate|].
  destruct (maxResults <=? List.length (results st)); [discriminate|].
  destruct (readdir currentPath) as [e|entries]; [discriminate|].
  apply Nat.leb_gt in Ed.
  apply searchDirectoryEntries_fuel. intros p st0. apply IH; lia.
Qed.

Lemma searchDirectoryEntries_wanted recurse currentPath all :
  readdir currentPath = inr all ->
  (forall p st, Forall wanted (results st) -> Forall wanted (results (recurse p st).2)) ->
  forall rest st,
    (forall entry, In entry rest -> In entry all) ->
    Forall wanted (results st) ->
    Forall wanted (results (loop recurse currentPath rest st).2).
Proof.
  intros Hall Hrec. induction rest as [|entry rest IH]; intros st Hin Hst; [exact Hst|].
  assert (Hrest : forall e, In e rest -> In e all) by (intros e He; apply Hin; right; exact He).
  simpl. destruct (excluded _) eqn:Hex; [apply IH; assumption|].
  destruct (isFile entry) eqn:Hfile.
  - destruct (String.eqb (fileExtension entry) normalizedExtension) eqn:Hext;
      [|apply IH; assumption].
    apply String.eqb_eq in Hext.
    assert (H1 : Forall wanted
                   (results (if List.length (results st) <? maxResults
                             then pushResult (Path.join currentPath (name entry)) st
                             else st))).
    { destruct (List.length (results st) <? maxResults); [|exact Hst].
      simpl. apply Forall_app. split; [exact Hst|]. constructor; [|constructor].
      exists currentPath, all, entry. repeat split; try assumption.
      apply Hin. left. reflexivity. }
    destruct (maxResults <=? _); [exact H1|apply IH; assumption].
  - destruct (isDirectory entry); [|apply IH; assumption].
    destruct (List.length (results st) <? maxResults); [|apply IH; assumption].
    specialize (Hrec (Path.join currentPath (name entry)) st Hst).
    destruct (recurse _ st) as [[| |] st2]; simpl in *;
      [apply IH; assumption|exact Hrec|exact Hrec].
Qed.

Lemma searchDirectory_wanted fuel :
  forall currentPath currentDepth st,
    Forall wanted (results st) ->
    Forall wanted (results (walk fuel currentPath currentDepth st).2).
Proof.
  induction fuel as [|fuel IH]; intros currentPath currentDepth st Hst; [exact Hst|].
  simpl. destruct (maxDepth <=? currentDepth); [exact Hst|].
  destruct (maxResults <=? List.length (results st)); [exact Hst|].
  destruct (readdir currentPath) as [e|entries] eqn:Hread; [exact Hst|].
  eapply searchDirectoryEntries_wanted; eauto.
Qed.

End ExtensionSearchFacts.

(** X5. [findFilesByExtension] always returns; it returns at most
    [maxResults] paths and lists no directory at a depth of [maxDepth]
    or more. *)
Theorem findFilesByExtension_is_bounded
    (readdir : string -> errno + list FileEntry)
    (minimatch : string -> string -> bool) (relative : string -> string -> string)
    (rootPath extension : string) (excludePatterns : list string)
    (maxDepth maxResults : nat) :
  let run := runExtensionSearch readdir minimatch relative rootPath extension
               excludePatterns maxDepth maxResults in
  (exists r,
     findFilesByExtension readdir minimatch relative rootPath extension
       excludePatterns maxDepth maxResults = Some r
     /\ forall rs, r = Ok rs -> rs = results run.2 /\ List.length rs <= maxResults)
  /\ Forall (fun call : string * nat => call.2 < maxDepth) (listed run.2).
Proof.
  intros run.
  assert (Hb : withinBounds maxDepth maxResults run.2).
  { apply searchDirectory_bounded. split; [simpl; lia|constructor]. }
  assert (Hf : run.1 <> OutOfFuel) by (apply searchDirectory_fuel; lia).
  destruct Hb as [Hres Hlisted]. split; [|exact Hlisted].
  unfold findFilesByExtension. change (runExtensionSearch _ _ _ _ _ _ _ _) with run.
  clearbody run. destruct run as [[|e|] st].
  - eexists; split; [reflexivity|]. intros rs [= <-]. split; [reflexivity|exact Hres].
  - eexists; split; [reflexivity|]. intros rs [=].
  - exfalso. apply Hf. reflexivity.
Qed.

(** X6. Every path that [findFilesByExtension] returns is [path.join]
    of a listed directory and the name of one of its entries, and that
    entry is a file, is not excluded, and has the extension asked for:
    what [path.extname] gives for its name, in lower case and without
    the dot, is the extension asked for, in lower case and without its
    leading dot. A directory is never returned, whatever its name. *)
Theorem findFilesByExtension_returns_files_of_the_extension
    (readdir : string -> errno + list FileEntry)
    (minimatch : string -> string -> bool) (relative : string -> string -> string)
    (rootPath extension : string) (excludePatterns : list string)
    (maxDepth maxResults : nat) rs fullPath :
  findFilesByExtension readdir minimatch relative rootPath extension
    excludePatterns maxDepth maxResults = Some (Ok rs) ->
  In fullPath rs ->
  FileOfExtension readdir minimatch relative rootPath (normalizeExtension extension)
    excludePatterns fullPath.
Proof.
  unfold findFilesByExtension, runExtensionSearch. intros Hrun Hin.
  pose proof (searchDirectory_wanted readdir minimatch relative rootPath
                (normalizeExtension extension) excludePatterns maxDepth maxResults
                (S maxDepth) rootPath 0 {| results := []; listed := [] |}
                ltac:(constructor)) as H.
  destruct (searchDirectory _ _ _ _ _ _ _ _ _ _ _ _) as [[|e|] st]; try discriminate.
  injection Hrun as <-. rewrite Forall_forall in H. apply H.
  apply list_elem_of_In. exact Hin.
Qed.

Lemma lowerChar_dot c : Ascii.eqb "." (Js.lowerChar c) = Ascii.eqb "." c.
Proof. destruct c as [[] [] [] [] [] [] [] []]; reflexivity. Qed.

Lemma startsWith_dot c s : Js.startsWith "." (String c s) = Ascii.eqb "." c.
Proof. cbn [Js.startsWith]. apply andb_true_r. Qed.

Lemma startsWith_dot_lower extension :
  Js.startsWith "." (Js.toLowerCase extension) = Js.startsWith "." extension.
Proof.
  destruct extension as [|c rest]; [reflexivity|].
  cbn [Js.toLowerCase]. rewrite !startsWith_dot. apply lowerChar_dot.
Qed.

Lemma normalizeExtension_lower extension :
  normalizeExtension (Js.toLowerCase extension) = normalizeExtension extension.
Proof. unfold normalizeExtension. rewrite toLowerCase_idempotent. reflexivity. Qed.

Lemma normalizeExtension_dot extension :
  Js.startsWith "." extension = false ->
  normalizeExtension ("." +:+ extension) = normalizeExtension extension.
Proof.
  intros H. unfold normalizeExtension.
  change (Js.toLowerCase ("." +:+ extension)) with (String "." (Js.toLowerCase extension)).
  change (Js.startsWith "." (String "." (Js.toLowerCase extension))) with true.
  change (Js.drop 1 (String "." (Js.toLowerCase extension)))
    with (Js.toLowerCase extension).
  rewrite startsWith_dot_lower, H. reflexivity.
Qed.

(** X7. The extension asked for may come with or without its leading
    dot and in either case of the letters: [.TXT], [TXT], [.txt] and
    [txt] give the same search. *)
Theorem findFilesByExtension_ignores_dot_and_case
    (readdir : string -> errno + list FileEntry)
    (minimatch : string -> string -> bool) (relative : string -> string -> string)
    (rootPath extension : string) (excludePatterns : list string)
    (maxDepth maxResults : nat) :
  Js.startsWith "." extension = false ->
  findFilesByExtension readdir minimatch relative rootPath ("." +:+ extension)
    excludePatterns maxDepth maxResults
  = findFilesByExtension readdir minimatch relative rootPath extension
      excludePatterns maxDepth maxResults
  /\ findFilesByExtension readdir minimatch relative rootPath
       (Js.toLowerCase extension) excludePatterns maxDepth maxResults
     = findFilesByExtension readdir minimatch relative rootPath extension
         excludePatterns maxDepth maxResults
  /\ findFilesByExtension readdir minimatch relative rootPath
       ("." +:+ Js.toLowerCase extension) excludePatterns maxDepth maxResults
     = findFilesByExtension readdir minimatch relative rootPath extension
         excludePatterns maxDepth maxResults.
Proof.
  intros H. unfold findFilesByExtension, runExtensionSearch.
  assert (Hlow : Js.startsWith "." (Js.toLowerCase extension) = false)
    by (rewrite startsWith_dot_lower; exact H).
  rewrite (normalizeExtension_dot _ H), (normalizeExtension_dot _ Hlow),
    normalizeExtension_lower.
  repeat split; reflexivity.
Qed.

(** The sample directory searched for [.txt]: the file [a.TXT] and the
    file in the directory [notes.txt], not the directory itself, and
    not the file whose whole name is [.txt]. *)
Lemma findFilesByExtension_returns_files_of_the_extension_witness :
  findFilesByExtension sampleFiles (fun _ _ => false) (fun _ p => p) "/sandbox" ".txt"
    [] 2 10 = Some (Ok ["/sandbox/a.TXT"; "/sandbox/notes.txt/c.tar.txt"])
  /\ FileOfExtension sampleFiles (fun _ _ => false) (fun _ p => p) "/sandbox" "txt" []
       "/sandbox/a.TXT".
Proof.
  assert (H : findFilesByExtension sampleFiles (fun _ _ => false) (fun _ p => p)
                "/sandbox" ".txt" [] 2 10
              = Some (Ok ["/sandbox/a.TXT"; "/sandbox/notes.txt/c.tar.txt"]))
    by (vm_compute; reflexivity).
  split; [exact H|].
  apply (findFilesByExtension_returns_files_of_the_extension sampleFiles
           (fun _ _ => false) (fun _ p => p) "/sandbox" ".txt" [] 2 10 _ _ H).
  left. reflexivity.
Defined.

Lemma findFilesByExtension_ignores_dot_and_case_witness :
  findFilesByExtension sampleFiles (fun _ _ => false) (fun _ p => p) "/sandbox" ".TXT"
    [] 2 10
  = findFilesByExtension sampleFiles (fun _ _ => false) (fun _ p => p) "/sandbox" "TXT"
      [] 2 10.
Proof.
  apply (findFilesByExtension_ignores_dot_and_case sampleFiles (fun _ _ => false)
           (fun _ p => p) "/sandbox" "TXT" [] 2 10).
  reflexivity.
Defined.

(* ===================================================================== *)
(** * Line endings *)
(* ===================================================================== *)

Section NormalizeFacts.

Local Arguments Ascii.eqb : simpl never.

Lemma split_not_nil sep s : Js.split sep s <> [].
Proof.
  destruct s as [|c s]; simpl; [discriminate|].
  destruct (Ascii.eqb c sep); [discriminate|]. destruct (Js.split sep s); discriminate.
Qed.

Lemma split_length_cons sep c s :
  List.length (Js.split sep (String c s))
  = (if Ascii.eqb c sep then 1 else 0) + List.length (Js.split sep s).
Proof.
  simpl. destruct (Ascii.eqb c sep); [reflexivity|].
  pose proof (split_not_nil sep s). destruct (Js.split sep s); [congruence|reflexivity].
Qed.

Lemma normalize_unfold c d s :
  normalizeLineEndings (String c (String d s))
  = if Ascii.eqb c Js.CR && Ascii.eqb d Js.LF
    then String Js.LF (normalizeLineEndings s)
    else String c (normalizeLineEndings (String d s)).
Proof. reflexivity. Qed.

Lemma normalize_bounds n :
  forall s,
    Js.len s <= n ->
    Js.len (normalizeLineEndings s) <= Js.len s
    /\ List.length (Js.split Js.LF (normalizeLineEndings s))
       = List.length (Js.split Js.LF s).
Proof.
  induction n as [|n IH]; intros s Hn.
  - destruct s; [split; reflexivity|]. unfold Js.len in Hn. simpl in Hn. lia.
  - destruct s as [|c [|d s]]; [split; reflexivity|split; reflexivity|].
    unfold Js.len in *. simpl in Hn. rewrite normalize_unfold.
    destruct (Ascii.eqb c Js.CR && Ascii.eqb d Js.LF) eqn:E.
    + apply andb_true_iff in E as [Ec Ed].
      apply Ascii.eqb_eq in Ec, Ed. subst c d.
      destruct (IH s ltac:(lia)) as [Hlen Hlines]. split.
      * simpl. simpl in Hlen. lia.
      * rewrite !split_length_cons, Hlines. reflexivity.
    + destruct (IH (String d s) ltac:(simpl; lia)) as [Hlen Hlines]. split.
      * simpl. simpl in Hlen. lia.
      * rewrite (split_length_cons Js.LF c (normalizeLineEndings (String d s))).
        rewrite (split_length_cons Js.LF c (String d s)), Hlines. reflexivity.
Qed.

(** X8. [normalizeLineEndings] never makes a text longer, and it keeps
    the number of lines, counted as [split('\n')] counts them: it
    merges no two lines and cuts none. *)
Theorem normalizeLineEndings_keeps_the_lines text :
  Js.len (normalizeLineEndings text) <= Js.len text
  /\ List.length (Js.split Js.LF (normalizeLineEndings text))
     = List.length (Js.split Js.LF text).
Proof. apply (normalize_bounds (Js.len text)). lia. Qed.

Lemma includes_cons_false sub c s :
  Js.includes (String c s) sub = false ->
  Js.startsWith sub (String c s) = false /\ Js.includes s sub = false.
Proof.
  unfold Js.includes. simpl.
  destruct (Js.startsWith sub (String c s)); [discriminate|].
  destruct (Js.indexOf sub s); [discriminate|]. split; reflexivity.
Qed.

(** X9. A text that holds no CR LF comes out of [normalizeLineEndings]
    as it went in: a lone CR and a lone LF are left where they are. *)
Theorem normalizeLineEndings_fixes_text_without_crlf text :
  Js.includes text (String Js.CR (String Js.LF "")) = false ->
  normalizeLineEndings text = text.
Proof.
  induction text as [|c s IH]; intros H; [reflexivity|].
  apply includes_cons_false in H as [Hhead Htail].
  destruct s as [|d s]; [reflexivity|].
  rewrite normalize_unfold.
  simpl in Hhead. rewrite andb_true_r in Hhead.
  rewrite (Ascii.eqb_sym c), (Ascii.eqb_sym d), Hhead.
  rewrite IH by exact Htail. reflexivity.
Qed.

End NormalizeFacts.

(** A text with a lone CR and LF line endings. *)
Lemma normalizeLineEndings_fixes_text_without_crlf_witness :
  normalizeLineEndings (textOf ClassicMac ["a"; "b"] +:+ textOf Unix ["c"; "d"; ""])
  = textOf ClassicMac ["a"; "b"] +:+ textOf Unix ["c"; "d"; ""].
Proof.
  apply normalizeLineEndings_fixes_text_without_crlf. vm_compute. reflexivity.
Defined.

(* ===================================================================== *)
(** * The edit engine: the fuzzy step *)
(* ===================================================================== *)

Section FuzzyFacts.

Lemma find_seq_first (f : nat -> bool) n :
  forall a i,
    List.find f (List.seq a n) = Some i ->
    a <= i < a + n /\ f i = true /\ forall j, a <= j < i -> f j = false.
Proof.
  induction n as [|n IH]; intros a i H; [discriminate|].
  simpl in H. destruct (f a) eqn:Ea.
  - injection H as <-. split; [lia|]. split; [exact Ea|]. intros j Hj. lia.
  - destruct (IH (S a) i H) as [Hr [Hi Hfirst]]. split; [lia|]. split; [exact Hi|].
    intros j Hj. destruct (Nat.eq_dec j a) as [->|Hne]; [exact Ea|]. apply Hfirst. lia.
Qed.

Lemma find_seq_none (f : nat -> bool) n :
  forall a,
    List.find f (List.seq a n) = None <-> forall j, a <= j < a + n -> f j = false.
Proof.
  induction n as [|n IH]; intros a; simpl.
  - split; [intros _ j Hj; lia|reflexivity].
  - destruct (f a) eqn:Ea.
    + split; [discriminate|]. intros H. rewrite H in Ea by lia. discriminate.
    + rewrite IH. split; intros H j Hj.
      * destruct (Nat.eq_dec j a) as [->|Hne]; [exact Ea|]. apply H. lia.
      * apply H. lia.
Qed.

Lemma isMatch_from (potentialMatch : list string) oldLines :
  forall j,
    forallb id
      (Js.mapi_from j
         (fun oldLine k =>
            match potentialMatch !! k with
            | Some contentLine => String.eqb (Js.trim oldLine) (Js.trim contentLine)
            | None => false
            end)
         oldLines) = true
    <-> forall k a, oldLines !! k = Some a ->
          exists b, potentialMatch !! (j + k) = Some b /\ Js.trim a = Js.trim b.
Proof.
  induction oldLines as [|x xs IH]; intros j; simpl.
  - split; [intros _ k a H; discriminate|reflexivity].
  - rewrite andb_true_iff, IH. split.
    + intros [Hx Hxs] [|k] a Ha; simpl in Ha.
      * injection Ha as <-. rewrite Nat.add_0_r.
        destruct (potentialMatch !! j) as [b|]; [|discriminate].
        exists b. split; [reflexivity|]. apply String.eqb_eq. exact Hx.
      * destruct (Hxs k a Ha) as [b Hb]. exists b.
        replace (j + S k) with (S j + k) by lia. exact Hb.
    + intros H. split.
      * destruct (H 0 x eq_refl) as [b [Hb Hab]]. rewrite Nat.add_0_r in Hb.
        unfold id. rewrite Hb. apply String.eqb_eq. exact Hab.
      * intros k a Ha. destruct (H (S k) a Ha) as [b Hb]. exists b.
        replace (S j + k) with (j + S k) by lia. exact Hb.
Qed.

(** A window as long as the old text matches when each of its lines is
    the line of the old text at the same place, up to [trim]. *)
Lemma isMatch_window (oldLines window : list string) :
  List.length window = List.length oldLines ->
  isMatch oldLines window = true
  <-> Forall2 (fun a b => Js.trim a = Js.trim b) oldLines window.
Proof.
  intros Hlen. unfold isMatch, Js.mapi. rewrite isMatch_from.
  rewrite Forall2_same_length_lookup. split.
  - intros H. split; [symmetry; exact Hlen|]. intros i x y Hx Hy.
    destruct (H i x Hx) as [b [Hb Hxb]]. simpl in Hb. congruence.
  - intros [_ H] k a Ha.
    destruct (window !! k) as [b|] eqn:Hb.
    + exists b. split; [exact Hb|]. eapply H; eauto.
    + apply lookup_ge_None in Hb. apply lookup_lt_Some in Ha. lia.
Qed.

Lemma slice_length (content : list string) i n :
  i + n <= List.length content ->
  List.length (Js.slice i (i + n) content) = n.
Proof.
  intros H. unfold Js.slice. rewrite List.length_firstn, List.length_skipn. lia.
Qed.

(** X10. The fuzzy step takes the first window of the content that
    matches: the window lies within the content, each of its lines is
    the line of the old text at the same place up to leading and
    trailing white space, and no window that starts earlier is so. *)
Theorem fuzzyIndex_is_the_first_matching_window (oldLines contentLines : list string) i :
  fuzzyIndex oldLines contentLines = Some i ->
  i + List.length oldLines <= List.length contentLines
  /\ Forall2 (fun a b => Js.trim a = Js.trim b) oldLines
       (Js.slice i (i + List.length oldLines) contentLines)
  /\ forall j, j < i ->
       ~ Forall2 (fun a b => Js.trim a = Js.trim b) oldLines
           (Js.slice j (j + List.length oldLines) contentLines).
Proof.
  unfold fuzzyIndex. intros H. apply find_seq_first in H as [Hi [Hm Hfirst]].
  assert (Hin : i + List.length oldLines <= List.length contentLines) by lia.
  split; [exact Hin|]. split.
  - apply isMatch_window; [apply slice_length; exact Hin|exact Hm].
  - intros j Hj Hw. apply isMatch_window in Hw; [|apply slice_length; lia].
    rewrite Hfirst in Hw by lia. discriminate.
Qed.

(** X11. An edit fails, and then with the match failure that quotes
    its old text as the caller wrote it, exactly when the normalized
    old text is no substring of the content and no window of the lines
    of the content equals the lines of the old text up to leading and
    trailing white space. *)
Theorem applyEdit_fails_only_when_nothing_matches content edit e :
  let normalizedOld := normalizeLineEndings (oldText edit) in
  let oldLines := Js.split Js.LF normalizedOld in
  let contentLines := Js.split Js.LF content in
  applyEdit content edit = Err e
  <-> e = matchFailure edit
      /\ Js.includes content normalizedOld = false
      /\ forall j,
           j + List.length oldLines <= List.length contentLines ->
           ~ Forall2 (fun a b => Js.trim a = Js.trim b) oldLines
               (Js.slice j (j + List.length oldLines) contentLines).
Proof.
  intros normalizedOld oldLines contentLines. unfold applyEdit, locateEdit.
  fold normalizedOld. fold oldLines. fold contentLines.
  destruct (Js.includes content normalizedOld) eqn:Hinc.
  { split; [discriminate|]. intros [_ [H _]]. discriminate. }
  destruct (fuzzyIndex oldLines contentLines) as [i|] eqn:Hfuzzy.
  - split; [discriminate|]. intros [_ [_ Hnone]].
    apply fuzzyIndex_is_the_first_matching_window in Hfuzzy as [Hin [Hw _]].
    exfalso. exact (Hnone i Hin Hw).
  - split.
    + intros [= <-]. split; [reflexivity|]. split; [reflexivity|].
      intros j Hj Hw. unfold fuzzyIndex in Hfuzzy.
      rewrite find_seq_none in Hfuzzy.
      apply isMatch_window in Hw; [|apply slice_length; exact Hj].
      rewrite Hfuzzy in Hw by lia. discriminate.
    + intros [-> _]. reflexivity.
Qed.

End FuzzyFacts.

(** X12. The edits of a request apply in order, each to what the ones
    before it left: applying one list after another is applying the
    second to the result of the first, and a failure in the first
    stops everything. *)
Theorem applyEdits_composes content edits1 edits2 :
  applyEdits content (edits1 ++ edits2)
  = match applyEdits content edits1 with
    | Ok modifiedContent => applyEdits modifiedContent edits2
    | Err e => Err e
    end.
Proof.
  revert content. induction edits1 as [|edit edits1 IH]; intros content; [reflexivity|].
  simpl. destruct (applyEdit content edit) as [content'|e]; [apply IH|reflexivity].
Qed.

(** X13. An edit with an empty old text never fails: the empty text
    is found at the start of any content, and the new text, expanded
    as a replacement pattern, goes in front of the content. *)
Theorem applyEdit_with_empty_old_text_prepends content new :
  applyEdit content {| oldText := ""; newText := new |}
  = Ok (Js.getSubstitution "" "" content (normalizeLineEndings new) +:+ content)
  /\ (Js.includes (normalizeLineEndings new) "$" = false ->
      applyEdit content {| oldText := ""; newText := new |}
      = Ok (normalizeLineEndings new +:+ content)).
Proof.
  assert (H : applyEdit content {| oldText := ""; newText := new |}
              = Ok (Js.getSubstitution "" "" content (normalizeLineEndings new)
                      +:+ content)).
  { unfold applyEdit, locateEdit, Js.includes, Js.replace. simpl.
    destruct content; reflexivity. }
  split; [exact H|]. intros Hplain. rewrite H, getSubstitution_plain by exact Hplain.
  reflexivity.
Qed.

(** X14. An edit that replaces a text by itself changes nothing, when
    the text occurs in the content and holds no dollar sign. *)
Theorem applyEdit_of_a_text_by_itself content text :
  Js.includes content (normalizeLineEndings text) = true ->
  Js.includes (normalizeLineEndings text) "$" = false ->
  applyEdit content {| oldText := text; newText := text |} = Ok content.
Proof.
  intros Hin Hplain.
  destruct (applyEdit_exact_plain content {| oldText := text; newText := text |}
              Hin Hplain) as [i [Hi [_ [_ Happly]]]].
  rewrite Happly. simpl in *. f_equal. symmetry.
  apply (indexOf_first _ _ _ Hi).
Qed.

Lemma applyEdit_of_a_text_by_itself_witness :
  applyEdit "let x = 1;" {| oldText := "x = 1"; newText := "x = 1" |}
  = Ok "let x = 1;".
Proof. apply applyEdit_of_a_text_by_itself; reflexivity. Defined.

Lemma fuzzyIndex_is_the_first_matching_window_witness :
  2 + 1 <= 4
  /\ Forall2 (fun a b => Js.trim a = Js.trim b) ["x  "]
       (Js.slice 2 (2 + 1) ["a"; "b"; "  x"; " x "]).
Proof.
  destruct (fuzzyIndex_is_the_first_matching_window ["x  "] ["a"; "b"; "  x"; " x "] 2)
    as [H1 [H2 _]]; [reflexivity|]. split; [exact H1|exact H2].
Defined.

Lemma applyEdit_fails_only_when_nothing_matches_witness :
  Js.includes "alpha" "beta" = false.
Proof.
  destruct (applyEdit_fails_only_when_nothing_matches "alpha"
              {| oldText := "beta"; newText := "gamma" |}
              (matchFailure {| oldText := "beta"; newText := "gamma" |}))
    as [H _].
  destruct (H eq_refl) as [_ [Hinc _]]. exact Hinc.
Defined.

(* ===================================================================== *)
(** * The edit engine: the diff that is returned *)
(* ===================================================================== *)

Lemma fenceLength_least diff fuel :
  forall n,
    n <= fenceLength fuel n diff
    /\ forall m, n <= m < fenceLength fuel n diff ->
         Js.includes diff (Js.repeat "`" m) = true.
Proof.
  induction fuel as [|fuel IH]; intros n; simpl.
  - split; [lia|]. intros m Hm. lia.
  - destruct (Js.includes diff (Js.repeat "`" n)) eqn:E.
    + destruct (IH (S n)) as [Hle Hall]. split; [lia|].
      intros m Hm. destruct (Nat.eq_dec m n) as [->|Hne]; [exact E|]. apply Hall. lia.
    + split; [lia|]. intros m Hm. lia.
Qed.

(** X15. The diff comes back between two fences of backticks of the
    same length, at least three: the shortest such run of backticks
    that does not occur in the diff itself. *)
Theorem formatDiff_fence_is_not_in_the_diff diff :
  exists numBackticks,
    3 <= numBackticks
    /\ formatDiff diff
       = Js.repeat "`" numBackticks +:+ "diff" +:+ Js.newline +:+ diff
           +:+ Js.repeat "`" numBackticks +:+ Js.newline +:+ Js.newline
    /\ Js.includes diff (Js.repeat "`" numBackticks) = false
    /\ forall m, 3 <= m < numBackticks -> Js.includes diff (Js.repeat "`" m) = true.
Proof.
  exists (fenceLength (Js.len diff) 3 diff).
  destruct (fenceLength_least diff (Js.len diff) 3) as [Hle Hall].
  split; [exact Hle|]. split; [reflexivity|]. split; [|exact Hall].
  apply fenceLength_spec. lia.
Qed.

(** X16. A dry run is a faithful preview of the run, up to the write.
    It writes nothing. Whenever the real run succeeds, the dry run
    returns the same text; whenever the dry run fails, because the file
    cannot be read or an edit finds no match, the real run fails with
    the same error and writes nothing either. And after a dry run that
    succeeds, the real run is the call of [fs.writeFile] with the
    content that the edits give: the same text if the write succeeds,
    the error of the write if it does not. *)
Theorem applyFileEdits_dry_run_predicts_the_run
    (createTwoFilesPatch : string -> string -> string -> string -> string -> string
                           -> string)
    filePath edits fs :
  let dry := applyFileEdits createTwoFilesPatch filePath edits true fs in
  let run := applyFileEdits createTwoFilesPatch filePath edits false fs in
  dry.2 = fs
  /\ (forall formattedDiff, run.1 = Ok formattedDiff -> dry.1 = Ok formattedDiff)
  /\ (forall e, dry.1 = Err e -> run = (Err e, fs))
  /\ (forall formattedDiff,
        dry.1 = Ok formattedDiff ->
        exists raw modifiedContent,
          FsOps.readFile filePath fs = (Ok raw, fs)
          /\ applyEdits (normalizeLineEndings raw) edits = Ok modifiedContent
          /\ run = (match (FsOps.writeFile filePath modifiedContent fs).1 with
                    | Ok _ => Ok formattedDiff
                    | Err e => Err e
                    end,
                    (FsOps.writeFile filePath modifiedContent fs).2)).
Proof.
  intros dry run. subst dry run. unfold applyFileEdits, bind.
  destruct (FsOps.readFile filePath fs) as [[raw|e] fs1] eqn:Hr;
    destruct (readFile_inv _ _ _ _ Hr) as [-> _].
  - destruct (applyEdits (normalizeLineEndings raw) edits) as [final|e] eqn:He.
    + change (negb true) with false. change (negb false) with true.
      cbv beta iota. unfold ret.
      destruct (FsOps.writeFile filePath final fs) as [[[]|ew] fs2] eqn:Hw; simpl.
      * split; [reflexivity|]. split; [intros d H; exact H|].
        split; [intros e H; discriminate H|].
        intros d [= <-]. exists raw, final.
        split; [reflexivity|]. split; [exact He|rewrite Hw; reflexivity].
      * split; [reflexivity|]. split; [intros d H; discriminate H|].
        split; [intros e H; discriminate H|].
        intros d [= <-]. exists raw, final.
        split; [reflexivity|]. split; [exact He|rewrite Hw; reflexivity].
    + simpl. split; [reflexivity|]. split; [intros d H; discriminate H|].
      split; [intros e' [= <-]; reflexivity|]. intros d H. discriminate H.
  - simpl. split; [reflexivity|]. split; [intros d H; discriminate H|].
    split; [intros e' [= <-]; reflexivity|]. intros d H. discriminate H.
Qed.

(* ===================================================================== *)
(** * The handlers and the file system *)
(* ===================================================================== *)

Section FsCallFacts.
Import Fs.

Variable fs : filesystem.

Lemma access_frame p : exists r, FsOps.access p fs = (r, fs).
Proof. unfold FsOps.access. destruct (realpath fs p); eexists; reflexivity. Qed.

Lemma stat_frame dirSize p : exists r, FsMore.stat dirSize p fs = (r, fs).
Proof.
  unfold FsMore.stat. destruct (locate fs true p) as [e|[loc [[c| |t]|]]];
    eexists; reflexivity.
Qed.

Lemma readFile_frame p : exists r, FsOps.readFile p fs = (r, fs).
Proof.
  unfold FsOps.readFile. destruct (locate fs true p) as [e|[loc [[c| |t]|]]];
    eexists; reflexivity.
Qed.

Lemma rename_failure src dst e fs' :
  FsOps.rename src dst fs = (Err e, fs') -> fs' = fs.
Proof.
  unfold FsOps.rename.
  repeat match goal with
         | |- context [match ?x with _ => _ end] => destruct x
         end; intros [= ]; subst; reflexivity.
Qed.

Lemma unlink_failure p e fs' : FsMore.unlink p fs = (Err e, fs') -> fs' = fs.
Proof.
  unfold FsMore.unlink.
  repeat match goal with
         | |- context [match ?x with _ => _ end] => destruct x
         end; intros [= ]; subst; reflexivity.
Qed.

Lemma walkWith_node followLast onLink :
  (forall base rest loc n, onLink base rest = inr (loc, n) -> nodeAt fs loc = n) ->
  forall rest cur loc n,
    walkWith fs followLast onLink cur rest = inr (loc, n) -> nodeAt fs loc = n.
Proof.
  intros Hlink. induction rest as [|seg rest IH]; intros cur loc n H.
  - simpl in H. injection H as <- <-. reflexivity.
  - simpl in H. destruct (String.eqb seg "."); [eapply IH; exact H|].
    destruct (String.eqb seg ".."); [eapply IH; exact H|].
    assert (Hhere : forall m, fs !! key (cur ++ [seg]) = m ->
                              nodeAt fs (cur ++ [seg]) = m).
    { intros m Hm. destruct cur; exact Hm. }
    destruct (fs !! key (cur ++ [seg])) as [[c| |target]|] eqn:E.
    + destruct rest; [|discriminate]. injection H as <- <-. apply Hhere. reflexivity.
    + eapply IH; exact H.
    + destruct rest, followLast; try (eapply Hlink; exact H).
      injection H as <- <-. apply Hhere. reflexivity.
    + destruct rest; [|discriminate]. injection H as <- <-. apply Hhere. reflexivity.
Qed.

(** A walk ends at a location with the node that the file system has
    there. *)
Lemma locate_node followLast p loc n :
  locate fs followLast p = inr (loc, n) -> nodeAt fs loc = n.
Proof.
  unfold locate. generalize (@nil string) (Path.segments p). revert loc n.
  induction maxSymlinks as [|h IH]; intros loc n cur rest H.
  - eapply walkWith_node; [|exact H]. intros; discriminate.
  - eapply walkWith_node; [|exact H]. intros base rest' loc' n' H'. eapply IH; exact H'.
Qed.

End FsCallFacts.

Section Atomicity.

Variable cwd : string.
Variable dirSize : nat.
Variable rejectionMessage : Rejection -> string -> string.
Variables (allowedDirectories : list string) (symlinksMap : gmap string string).
Variable noFollowSymlinks : bool.

Local Abbreviation validated p o fs :=
  (validatePath cwd p allowedDirectories symlinksMap noFollowSymlinks o fs).

Lemma validatePath_cases p o fs :
  (exists validPath, validated p o fs = (Ok validPath, fs))
  \/ (exists why, validated p o fs = (Err (Rejected why), fs)).
Proof.
  unfold validatePath. destruct (Sandbox.validate _ _ _ _ _ _ _);
    [right|left]; eexists; reflexivity.
Qed.

Lemma handleMoveFile_failure parsed permissions fs e fs' :
  handleMoveFile cwd parsed permissions allowedDirectories symlinksMap
    noFollowSymlinks fs = (Err e, fs') ->
  fs' = fs.
Proof.
  destruct parsed as [data|error]; [|intros [= _ <-]; reflexivity].
  unfold handleMoveFile, bind, tryCatch.
  destruct (negb (Permissions.move permissions) && negb (Permissions.fullAccess permissions));
    [intros [= _ <-]; reflexivity|].
  destruct (validatePath_cases (MoveFileArgs.source data) Sandbox.defaultOptions fs)
    as [[src ->]|[why ->]]; [|intros [= _ <-]; reflexivity].
  destruct (validatePath_cases (MoveFileArgs.destination data)
              {| Sandbox.checkParentExists := false |} fs)
    as [[dst ->]|[why ->]]; [|intros [= _ <-]; reflexivity].
  destruct (access_frame fs (Path.dirname dst)) as [[[]|ea] ->];
    [|intros [= _ <-]; reflexivity].
  destruct (FsOps.rename src dst fs) as [[[]|er] fs1] eqn:Hr; [discriminate|].
  apply rename_failure in Hr. subst fs1. intros [= _ <-]. reflexivity.
Qed.

Lemma handleRenameFile_failure parsed permissions fs e fs' :
  handleRenameFile cwd parsed permissions allowedDirectories symlinksMap
    noFollowSymlinks fs = (Err e, fs') ->
  fs' = fs.
Proof.
  destruct parsed as [data|error]; [|intros [= _ <-]; reflexivity].
  unfold handleRenameFile, bind, tryCatch.
  destruct (negb (Permissions.rename permissions)
            && negb (Permissions.fullAccess permissions));
    [intros [= _ <-]; reflexivity|].
  destruct (validatePath_cases (RenameFileArgs.path data) Sandbox.defaultOptions fs)
    as [[src ->]|[why ->]]; [|intros [= _ <-]; reflexivity].
  destruct (validatePath_cases
              (Path.join (Path.dirname src) (RenameFileArgs.newName data))
              Sandbox.defaultOptions fs)
    as [[dst ->]|[why ->]]; [|intros [= _ <-]; reflexivity].
  destruct (access_frame fs dst) as [[[]|ea] ->]; [intros [= _ <-]; reflexivity|].
  destruct ea as [m|code sc|why]; try (intros [= _ <-]; reflexivity).
  destruct code; try (intros [= _ <-]; reflexivity).
  unfold ret.
  destruct (FsOps.rename src dst fs) as [[[]|er] fs1] eqn:Hr; [discriminate|].
  apply rename_failure in Hr. subst fs1. intros [= _ <-]. reflexivity.
Qed.

Lemma handleDeleteFile_failure parsed permissions fs e fs' :
  handleDeleteFile cwd rejectionMessage parsed permissions allowedDirectories
    symlinksMap noFollowSymlinks fs = (Err e, fs') ->
  fs' = fs.
Proof.
  destruct parsed as [data|error]; [|intros [= _ <-]; reflexivity].
  unfold handleDeleteFile, bind, tryCatch.
  destruct (negb (Permissions.delete permissions)
            && negb (Permissions.fullAccess permissions));
    [intros [= _ <-]; reflexivity|].
  destruct (validatePath_cases (DeleteFileArgs.path data) Sandbox.defaultOptions fs)
    as [[v ->]|[why ->]]; [|intros [= _ <-]; reflexivity].
  destruct (access_frame fs v) as [[[]|ea] ->]; [|intros [= _ <-]; reflexivity].
  destruct (FsMore.unlink v fs) as [[[]|eu] fs1] eqn:Hu; [discriminate|].
  apply unlink_failure in Hu. subst fs1. intros [= _ <-]. reflexivity.
Qed.

Lemma handleEditFileWith_failure applyFileEdits parsed permissions fs e fs' :
  handleEditFileWith cwd dirSize applyFileEdits parsed permissions allowedDirectories
    symlinksMap noFollowSymlinks fs = (Err e, fs') ->
  fs' = fs
  \/ exists validPath edits dryRun,
       applyFileEdits validPath edits dryRun fs = (Err e, fs').
Proof.
  destruct parsed as [data|error]; [|intros [= _ <-]; left; reflexivity].
  unfold handleEditFileWith, bind.
  destruct (negb (Permissions.edit permissions) && negb (Permissions.fullAccess permissions));
    [intros [= _ <-]; left; reflexivity|].
  destruct (validatePath_cases (EditFileArgs.path data) Sandbox.defaultOptions fs)
    as [[v ->]|[why ->]]; [|intros [= _ <-]; left; reflexivity].
  destruct (stat_frame fs dirSize v) as [[stats|es] ->];
    [|intros [= _ <-]; left; reflexivity].
  destruct (effectiveLimit (EditFileArgs.maxBytes data) <? FsMore.size stats);
    [intros [= _ <-]; left; reflexivity|].
  intros H. right. eauto.
Qed.

(** X17. A call of [handleMoveFile], [handleRenameFile] or
    [handleDeleteFile] that fails leaves the file system as it was.
    Each of them changes the disk by one system call, rename(2) or
    unlink(2), which takes effect at once or not at all: whatever the
    failure, nothing was moved or removed before it. A call of
    [handleEditFile] that fails has changed nothing either, unless the
    failure is that of [applyFileEdits], whatever that function does:
    the handler itself writes nothing. *)
Theorem failed_handlers_change_nothing permissions fs e fs' :
  (forall parsed,
     handleMoveFile cwd parsed permissions allowedDirectories symlinksMap
       noFollowSymlinks fs = (Err e, fs') -> fs' = fs)
  /\ (forall parsed,
        handleRenameFile cwd parsed permissions allowedDirectories symlinksMap
          noFollowSymlinks fs = (Err e, fs') -> fs' = fs)
  /\ (forall parsed,
        handleDeleteFile cwd rejectionMessage parsed permissions allowedDirectories
          symlinksMap noFollowSymlinks fs = (Err e, fs') -> fs' = fs)
  /\ (forall applyFileEdits parsed,
        handleEditFileWith cwd dirSize applyFileEdits parsed permissions
          allowedDirectories symlinksMap noFollowSymlinks fs = (Err e, fs') ->
        fs' = fs
        \/ exists validPath edits dryRun,
             applyFileEdits validPath edits dryRun fs = (Err e, fs')).
Proof.
  split; [|split; [|split]].
  - intros parsed H. eapply handleMoveFile_failure; exact H.
  - intros parsed H. eapply handleRenameFile_failure; exact H.
  - intros parsed H. eapply handleDeleteFile_failure; exact H.
  - intros applyFileEdits parsed H. eapply handleEditFileWith_failure; exact H.
Qed.

End Atomicity.

(** The deletion of a directory fails, and the directory stays. *)
Lemma failed_handlers_change_nothing_witness :
  let run := handleDeleteFile "/" sampleRejection
               (ParseSuccess {| DeleteFileArgs.path := "/sandbox/a" |})
               deletePermission ["/sandbox"] ∅ false sampleFs in
  run.1 = Err (Thrown ("Failed to delete file: "
                         +:+ FsMore.systemMessage EISDIR "unlink" "/sandbox/a"))
  /\ run.2 = sampleFs.
Proof.
  intros run.
  assert (Hrun : run = (Err (Thrown ("Failed to delete file: "
                           +:+ FsMore.systemMessage EISDIR "unlink" "/sandbox/a")),
                        run.2)) by (vm_compute; reflexivity).
  split; [rewrite Hrun; reflexivity|].
  destruct (failed_handlers_change_nothing "/" 4096 sampleRejection
              ["/sandbox"] ∅ false deletePermission sampleFs
              (Thrown ("Failed to delete file: "
                         +:+ FsMore.systemMessage EISDIR "unlink" "/sandbox/a"))
              run.2)
    as [_ [_ [Hdelete _]]].
  eapply Hdelete. exact Hrun.
Defined.

Section PermissionFacts.

Variable cwd : string.
Variable dirSize : nat.
Variable rejectionMessage : Rejection -> string -> string.
Variable mkdir : string -> IO unit.
Variable createTwoFilesPatch :
  string -> string -> string -> string -> string -> string -> string.
Variables (allowedDirectories : list string) (symlinksMap : gmap string string).
Variable noFollowSymlinks : bool.

(** X18. The permissions count only through "the flag of the
    operation, or [fullAccess]": two sets of permissions that agree on
    that for an operation make its handler behave the same, so
    [fullAccess] alone opens every handler and a flag opens its own. *)
Theorem handlers_read_permissions_through_fullAccess (p1 p2 : Permissions.t) :
  (Permissions.edit p1 || Permissions.fullAccess p1
   = Permissions.edit p2 || Permissions.fullAccess p2 ->
   (forall parsed,
      handleModifyFile cwd parsed p1 allowedDirectories symlinksMap noFollowSymlinks
      = handleModifyFile cwd parsed p2 allowedDirectories symlinksMap noFollowSymlinks)
   /\ (forall parsed,
         handleEditFile cwd dirSize createTwoFilesPatch parsed p1 allowedDirectories
           symlinksMap noFollowSymlinks
         = handleEditFile cwd dirSize createTwoFilesPatch parsed p2 allowedDirectories
             symlinksMap noFollowSymlinks))
  /\ (Permissions.move p1 || Permissions.fullAccess p1
      = Permissions.move p2 || Permissions.fullAccess p2 ->
      forall parsed,
        handleMoveFile cwd parsed p1 allowedDirectories symlinksMap noFollowSymlinks
        = handleMoveFile cwd parsed p2 allowedDirectories symlinksMap noFollowSymlinks)
  /\ (Permissions.rename p1 || Permissions.fullAccess p1
      = Permissions.rename p2 || Permissions.fullAccess p2 ->
      forall parsed,
        handleRenameFile cwd parsed p1 allowedDirectories symlinksMap noFollowSymlinks
        = handleRenameFile cwd parsed p2 allowedDirectories symlinksMap noFollowSymlinks)
  /\ (Permissions.delete p1 || Permissions.fullAccess p1
      = Permissions.delete p2 || Permissions.fullAccess p2 ->
      forall parsed,
        handleDeleteFile cwd rejectionMessage parsed p1 allowedDirectories symlinksMap
          noFollowSymlinks
        = handleDeleteFile cwd rejectionMessage parsed p2 allowedDirectories
            symlinksMap noFollowSymlinks)
  /\ (Permissions.create p1 || Permissions.fullAccess p1
      = Permissions.create p2 || Permissions.fullAccess p2 ->
      forall parsed,
        handleCreateFile cwd rejectionMessage mkdir parsed p1 allowedDirectories
          symlinksMap noFollowSymlinks
        = handleCreateFile cwd rejectionMessage mkdir parsed p2 allowedDirectories
            symlinksMap noFollowSymlinks).
Proof.
  destruct p1 as [c1 e1 m1 d1 r1 f1], p2 as [c2 e2 m2 d2 r2 f2]. simpl.
  split; [|split; [|split; [|split]]].
  - intros H; split; intros parsed;
      unfold handleModifyFile, handleEditFile, handleEditFileWith; simpl;
      destruct e1, f1, e2, f2; simpl in *; try discriminate; reflexivity.
  - intros H parsed. unfold handleMoveFile. simpl.
    destruct m1, f1, m2, f2; simpl in *; try discriminate; reflexivity.
  - intros H parsed. unfold handleRenameFile. simpl.
    destruct r1, f1, r2, f2; simpl in *; try discriminate; reflexivity.
  - intros H parsed. unfold handleDeleteFile. simpl.
    destruct d1, f1, d2, f2; simpl in *; try discriminate; reflexivity.
  - intros H parsed. unfold handleCreateFile. simpl.
    destruct c1, f1, c2, f2; simpl in *; try discriminate; reflexivity.
Qed.

End PermissionFacts.

(** With [fullAccess] and nothing else, [handleMoveFile] does what it
    does with the permission to move. *)
Lemma handlers_read_permissions_through_fullAccess_witness :
  let parsed := ParseSuccess {| MoveFileArgs.source := "/sandbox/a/f.txt";
                                MoveFileArgs.destination := "/sandbox/b/h.txt" |} in
  handleMoveFile "/" parsed fullPermissions ["/sandbox"] ∅ false
  = handleMoveFile "/" parsed movePermission ["/sandbox"] ∅ false.
Proof.
  intros parsed.
  destruct (handlers_read_permissions_through_fullAccess "/" 4096 sampleRejection
              sampleMkdir samplePatch ["/sandbox"] ∅ false fullPermissions
              movePermission) as [_ [Hmove _]].
  apply Hmove. reflexivity.
Defined.

Section HandlerBehaviour.

Variable cwd : string.
Variable dirSize : nat.
Variable rejectionMessage : Rejection -> string -> string.
Variable mkdir : string -> IO unit.
Variable createTwoFilesPatch :
  string -> string -> string -> string -> string -> string -> string.
Variables (allowedDirectories : list string) (symlinksMap : gmap string string).
Variable noFollowSymlinks : bool.

Local Abbreviation validated p o fs :=
  (validatePath cwd p allowedDirectories symlinksMap noFollowSymlinks o fs).

Lemma permitted_gate (flag fullAccess : bool) :
  flag || fullAccess = true -> negb flag && negb fullAccess = false.
Proof. destruct flag, fullAccess; simpl; congruence. Qed.

Lemma access_of_locate fs p loc n :
  Fs.locate fs true p = inr (loc, Some n) -> FsOps.access p fs = (Ok tt, fs).
Proof. intros H. unfold FsOps.access, Fs.realpath. rewrite H. reflexivity. Qed.

(** X19. With the permission and both paths accepted,
    [handleRenameFile] renames only onto a free name: if the
    destination can be accessed it fails with "already exists" and
    changes nothing; if the access fails for [ENOENT] the outcome is
    that of [fs.rename]; any other failure of the access is passed on. *)
Theorem handleRenameFile_renames_only_onto_a_free_name
    data permissions fs src dst :
  Permissions.rename permissions || Permissions.fullAccess permissions = true ->
  validated (RenameFileArgs.path data) Sandbox.defaultOptions fs = (Ok src, fs) ->
  validated (Path.join (Path.dirname src) (RenameFileArgs.newName data))
    Sandbox.defaultOptions fs = (Ok dst, fs) ->
  let run := handleRenameFile cwd (ParseSuccess data) permissions allowedDirectories
               symlinksMap noFollowSymlinks fs in
  let taken := Thrown ("Cannot rename file: a file with name " +:+ quote
                         +:+ RenameFileArgs.newName data +:+ quote
                         +:+ " already exists in the directory") in
  (FsOps.access dst fs = (Ok tt, fs) ->
     run = (Err taken, fs) /\ kindOf taken = AlreadyExists)
  /\ (forall syscall,
        FsOps.access dst fs = (Err (SystemError ENOENT syscall), fs) ->
        run = (FsOps.rename src dst ;;;
               ret ("Successfully renamed " +:+ RenameFileArgs.path data +:+ " to "
                      +:+ RenameFileArgs.newName data)) fs)
  /\ (forall e,
        FsOps.access dst fs = (Err e, fs) ->
        (forall syscall, e <> SystemError ENOENT syscall) ->
        run = (Err e, fs)).
Proof.
  intros Hperm Hsrc Hdst run taken.
  assert (Hrun : forall r, FsOps.access dst fs = (r, fs) ->
            run = match r with
                  | Ok _ => (Err taken, fs)
                  | Err (SystemError ENOENT _) =>
                      (FsOps.rename src dst ;;;
                       ret ("Successfully renamed " +:+ RenameFileArgs.path data
                              +:+ " to " +:+ RenameFileArgs.newName data)) fs
                  | Err e => (Err e, fs)
                  end).
  { intros r Ha. subst run. unfold handleRenameFile.
    rewrite (permitted_gate _ _ Hperm).
    unfold bind at 1. rewrite Hsrc. unfold bind at 1. rewrite Hdst.
    unfold bind, tryCatch. rewrite Ha.
    destruct r as [[]|[m|[] sc|why]]; reflexivity. }
  split; [|split].
  - intros Ha. split; [exact (Hrun _ Ha)|reflexivity].
  - intros syscall Ha. exact (Hrun _ Ha).
  - intros e Ha Hne. rewrite (Hrun _ Ha).
    destruct e as [m|[] sc|why]; try reflexivity. exfalso. exact (Hne sc eq_refl).
Qed.

(** X20. With the permission and the path accepted, [handleModifyFile]
    only overwrites. When the path cannot be accessed it fails with
    "file does not exist" and creates nothing. When it succeeds, the
    path led to a file that was there, the content of that file is the
    new content, and no other entry has changed. And whatever goes
    wrong after the validation, the failure is "file does not
    exist". *)
Theorem handleModifyFile_only_overwrites data permissions fs validPath :
  Permissions.edit permissions || Permissions.fullAccess permissions = true ->
  validated (WriteFileArgs.path data) Sandbox.defaultOptions fs = (Ok validPath, fs) ->
  let run := handleModifyFile cwd (ParseSuccess data) permissions allowedDirectories
               symlinksMap noFollowSymlinks fs in
  (forall e,
     FsOps.access validPath fs = (Err e, fs) ->
     run = (Err (Thrown "Cannot modify file: file does not exist"), fs))
  /\ (forall message,
        run.1 = Ok message ->
        message = "Successfully modified " +:+ WriteFileArgs.path data
        /\ exists loc old,
             Fs.locate fs true validPath = inr (loc, Some (Fs.File old))
             /\ run.2 = <[Fs.key loc := Fs.File (WriteFileArgs.content data)]> fs
             /\ forall other, other <> Fs.key loc -> run.2 !! other = fs !! other)
  /\ (forall e,
        run.1 = Err e -> e = Thrown "Cannot modify file: file does not exist").
Proof.
  intros Hperm Hv run.
  set (missing := Thrown "Cannot modify file: file does not exist").
  assert (Hrun : run = match FsOps.access validPath fs with
                       | (Ok _, fs1) =>
                           match FsOps.writeFile validPath (WriteFileArgs.content data)
                                   fs1 with
                           | (Ok _, fs2) =>
                               (Ok ("Successfully modified "
                                      +:+ WriteFileArgs.path data), fs2)
                           | (Err _, fs2) => (Err missing, fs2)
                           end
                       | (Err _, fs1) => (Err missing, fs1)
                       end).
  { subst run. unfold handleModifyFile. unfold bind at 1. rewrite Hv.
    unfold bind, tryCatch. rewrite (permitted_gate _ _ Hperm).
    destruct (FsOps.access validPath fs) as [[[]|ea] fs1]; [|reflexivity].
    destruct (FsOps.writeFile validPath (WriteFileArgs.content data) fs1)
      as [[[]|ew] fs2]; reflexivity. }
  clearbody run. subst run. split; [|split].
  - intros e Ha. rewrite Ha. reflexivity.
  - unfold FsOps.access, Fs.realpath, FsOps.writeFile.
    destruct (Fs.locate fs true validPath) as [e|[[|x loc] [[c| |t]|]]] eqn:Hloc;
      try rewrite Hloc; simpl; intros message H; try discriminate H.
    injection H as <-. split; [reflexivity|].
    exists (x :: loc), c. split; [reflexivity|]. split; [reflexivity|].
    intros other Hne. apply lookup_insert_ne. congruence.
  - destruct (FsOps.access validPath fs) as [[[]|ea] fs1]; simpl.
    + destruct (FsOps.writeFile validPath (WriteFileArgs.content data) fs1)
        as [[[]|ew] fs2]; simpl; intros e H; [discriminate H|].
      injection H as <-. reflexivity.
    + intros e [= <-]. reflexivity.
Qed.

(** X21. With the permission and both paths accepted, [handleMoveFile]
    fails with "Destination parent directory does not exist" and
    changes nothing when the directory of the destination cannot be
    accessed; otherwise the outcome is that of [fs.rename]. *)
Theorem handleMoveFile_needs_the_destination_directory
    data permissions fs src dst :
  Permissions.move permissions || Permissions.fullAccess permissions = true ->
  validated (MoveFileArgs.source data) Sandbox.defaultOptions fs = (Ok src, fs) ->
  validated (MoveFileArgs.destination data) {| Sandbox.checkParentExists := false |} fs
    = (Ok dst, fs) ->
  let run := handleMoveFile cwd (ParseSuccess data) permissions allowedDirectories
               symlinksMap noFollowSymlinks fs in
  let missing := Thrown ("Destination parent directory does not exist: "
                           +:+ Path.dirname (MoveFileArgs.destination data)) in
  (forall e,
     FsOps.access (Path.dirname dst) fs = (Err e, fs) ->
     run = (Err missing, fs) /\ kindOf missing = NotFound)
  /\ (FsOps.access (Path.dirname dst) fs = (Ok tt, fs) ->
      run = (FsOps.rename src dst ;;;
             ret ("Successfully moved " +:+ MoveFileArgs.source data +:+ " to "
                    +:+ MoveFileArgs.destination data)) fs).
Proof.
  intros Hperm Hsrc Hdst run missing.
  assert (Hrun : forall r, FsOps.access (Path.dirname dst) fs = (r, fs) ->
            run = match r with
                  | Ok _ =>
                      (FsOps.rename src dst ;;;
                       ret ("Successfully moved " +:+ MoveFileArgs.source data
                              +:+ " to " +:+ MoveFileArgs.destination data)) fs
                  | Err _ => (Err missing, fs)
                  end).
  { intros r Ha. subst run. unfold handleMoveFile.
    rewrite (permitted_gate _ _ Hperm).
    unfold bind at 1. rewrite Hsrc. unfold bind at 1. rewrite Hdst.
    unfold bind, tryCatch. rewrite Ha. destruct r as [[]|e]; reflexivity. }
  split.
  - intros e Ha. split; [exact (Hrun _ Ha)|reflexivity].
  - intros Ha. exact (Hrun _ Ha).
Qed.

(** X22. [handleReadFile] looks at the size that [fs.stat] reports
    before it reads. Whatever the call of [fs.readFile] would do, it is
    not made when the call of [fs.stat] fails, the handler failing with
    that error, nor when the size is above the limit, which is
    [maxBytes] or 10 KiB when none is given, the handler failing with
    the size error; only otherwise is the outcome that of
    [fs.readFile]. So a directory larger than the limit, which a read
    refuses with [EISDIR], is refused by its size; and a file comes
    back as it is when it has no more bytes than the limit. The file
    system is not changed. *)
Theorem handleReadFile_checks_the_size_first data fs validPath :
  validated (ReadFileArgs.path data) Sandbox.defaultOptions fs = (Ok validPath, fs) ->
  let limit := match ReadFileArgs.maxBytes data with
               | Some n => n
               | None => 10 * 1024
               end in
  let run readFile :=
    handleReadFileWith cwd dirSize readFile (ParseSuccess data) allowedDirectories
      symlinksMap noFollowSymlinks fs in
  let tooLarge size :=
    Thrown ("File size (" +:+ FsMore.decimal size
              +:+ " bytes) exceeds the maximum allowed size ("
              +:+ FsMore.decimal limit +:+ " bytes).") in
  (forall readFile e,
     FsMore.stat dirSize validPath fs = (Err e, fs) -> run readFile = (Err e, fs))
  /\ (forall readFile stats,
        FsMore.stat dirSize validPath fs = (Ok stats, fs) ->
        run readFile = if limit <? FsMore.size stats
                       then (Err (tooLarge (FsMore.size stats)), fs)
                       else readFile validPath fs)
  /\ (forall loc,
        Fs.locate fs true validPath = inr (loc, Some Fs.Dir) ->
        limit < dirSize ->
        handleReadFile cwd dirSize (ParseSuccess data) allowedDirectories symlinksMap
          noFollowSymlinks fs = (Err (tooLarge dirSize), fs)
        /\ FsOps.readFile validPath fs = (Err (SystemError EISDIR "read"), fs))
  /\ (forall loc content,
        Fs.locate fs true validPath = inr (loc, Some (Fs.File content)) ->
        handleReadFile cwd dirSize (ParseSuccess data) allowedDirectories symlinksMap
          noFollowSymlinks fs
        = (if limit <? FsMore.byteLength content
           then Err (tooLarge (FsMore.byteLength content))
           else Ok content,
           fs)).
Proof.
  intros Hv limit run tooLarge.
  assert (Hstat : forall readFile stats,
            FsMore.stat dirSize validPath fs = (Ok stats, fs) ->
            run readFile = if limit <? FsMore.size stats
                           then (Err (tooLarge (FsMore.size stats)), fs)
                           else readFile validPath fs).
  { intros readFile stats Hs. subst run. unfold handleReadFileWith.
    unfold bind at 1. rewrite Hv. unfold bind. rewrite Hs.
    change (effectiveLimit (ReadFileArgs.maxBytes data)) with limit.
    destruct (limit <? FsMore.size stats); [|reflexivity].
    subst tooLarge. unfold throw, sizeExceeded. rewrite !append_assoc. reflexivity. }
  split; [|split; [exact Hstat|split]].
  - intros readFile e Hs. subst run. unfold handleReadFileWith.
    unfold bind at 1. rewrite Hv. unfold bind. rewrite Hs. reflexivity.
  - intros loc Hloc Hlt. change (handleReadFile cwd dirSize (ParseSuccess data)
      allowedDirectories symlinksMap noFollowSymlinks fs) with (run FsOps.readFile).
    rewrite (Hstat FsOps.readFile {| FsMore.size := dirSize |})
      by (unfold FsMore.stat; rewrite Hloc; reflexivity).
    simpl. apply Nat.ltb_lt in Hlt. rewrite Hlt. split; [reflexivity|].
    unfold FsOps.readFile. rewrite Hloc. reflexivity.
  - intros loc content Hloc. change (handleReadFile cwd dirSize (ParseSuccess data)
      allowedDirectories symlinksMap noFollowSymlinks fs) with (run FsOps.readFile).
    rewrite (Hstat FsOps.readFile {| FsMore.size := FsMore.byteLength content |})
      by (unfold FsMore.stat; rewrite Hloc; reflexivity).
    simpl. destruct (limit <? FsMore.byteLength content); [reflexivity|].
    unfold FsOps.readFile. rewrite Hloc. reflexivity.
Qed.

Lemma readOne_always_answers effectiveMaxBytes filePath fs :
  exists text,
    readOne cwd dirSize rejectionMessage effectiveMaxBytes allowedDirectories
      symlinksMap noFollowSymlinks filePath fs = (Ok text, fs)
    /\ Js.startsWith (filePath +:+ ":") text = true.
Proof.
  assert (Hstart : forall rest, Js.startsWith (filePath +:+ ":") (filePath +:+ ":" +:+ rest)
                                = true).
  { intros rest. rewrite <- append_assoc. apply startsWith_append. }
  unfold readOne, tryCatch. unfold bind at 1.
  destruct (validatePath_cases cwd allowedDirectories symlinksMap noFollowSymlinks
              filePath Sandbox.defaultOptions fs) as [[v ->]|[why ->]].
  - unfold bind.
    destruct (stat_frame fs dirSize v) as [[stats|e] ->].
    + destruct (effectiveMaxBytes <? FsMore.size stats).
      * eexists. split; [reflexivity|]. apply (Hstart (String " " _)).
      * destruct (readFile_frame fs v) as [[content|e] ->].
        -- eexists. split; [reflexivity|]. apply Hstart.
        -- eexists. split; [reflexivity|]. apply (Hstart (String " " _)).
    + eexists. split; [reflexivity|]. apply (Hstart (String " " _)).
  - eexists. split; [reflexivity|]. apply (Hstart (String " " _)).
Qed.

(** X23. [handleReadMultipleFiles] never fails on parsed arguments and
    never changes the file system: it returns one text per requested
    path, in the order of the request and joined by a line of three
    dashes, and each text starts with its path and a colon, whether
    the file was read or not. *)
Theorem handleReadMultipleFiles_answers_for_every_path data fs :
  exists texts,
    handleReadMultipleFiles cwd dirSize rejectionMessage (ParseSuccess data)
      allowedDirectories symlinksMap noFollowSymlinks fs
    = (Ok (Js.join separator texts), fs)
    /\ Forall2 (fun filePath text => Js.startsWith (filePath +:+ ":") text = true)
         (ReadMultipleFilesArgs.paths data) texts.
Proof.
  unfold handleReadMultipleFiles.
  generalize (effectiveLimit (ReadMultipleFilesArgs.maxBytesPerFile data)).
  intros limit.
  assert (Hall : forall paths,
             exists texts,
               readAll cwd dirSize rejectionMessage limit allowedDirectories
                 symlinksMap noFollowSymlinks paths fs = (Ok texts, fs)
               /\ Forall2 (fun filePath text =>
                             Js.startsWith (filePath +:+ ":") text = true) paths texts).
  { induction paths as [|filePath rest IH].
    - exists []. split; [reflexivity|constructor].
    - destruct (readOne_always_answers limit filePath fs) as [text [Hone Hstart]].
      destruct IH as [texts [Hrest Hall]].
      exists (text :: texts). split; [|constructor; assumption].
      simpl. unfold bind. rewrite Hone, Hrest. reflexivity. }
  destruct (Hall (ReadMultipleFilesArgs.paths data)) as [texts [Hrun Htexts]].
  exists texts. split; [|exact Htexts]. unfold bind. rewrite Hrun. reflexivity.
Qed.

(** X24. [handleEditFile] checks the permission before anything else:
    without it the call fails with the permission error whatever the
    path and the other arguments. With it and the path accepted, the
    handler looks at the size that [fs.stat] reports before it calls
    [applyFileEdits]. Whatever that call would do, it is not made when
    the call of [fs.stat] fails, the handler failing with that error,
    nor when the size is above the limit ([maxBytes], or 10 KiB), the
    handler failing with the size error: nothing is read and nothing
    is written. Only otherwise is the outcome that of [applyFileEdits]
    on the validated path. So a directory larger than the limit, on
    which [applyFileEdits] fails with [EISDIR] by reading, is refused
    by its size. *)
Theorem handleEditFile_gates_then_applies data permissions fs :
  let run applyFileEdits :=
    handleEditFileWith cwd dirSize applyFileEdits (ParseSuccess data) permissions
      allowedDirectories symlinksMap noFollowSymlinks fs in
  let limit := match EditFileArgs.maxBytes data with
               | Some n => n
               | None => 10 * 1024
               end in
  let tooLarge size :=
    Thrown ("File size (" +:+ FsMore.decimal size
              +:+ " bytes) exceeds the maximum allowed size ("
              +:+ FsMore.decimal limit +:+ " bytes) for editing.") in
  (Permissions.edit permissions || Permissions.fullAccess permissions = false ->
   forall applyFileEdits,
     run applyFileEdits
     = (Err (Thrown
          "Cannot edit file: edit permission not granted (requires --allow-edit)"),
        fs))
  /\ (forall validPath,
        Permissions.edit permissions || Permissions.fullAccess permissions = true ->
        validated (EditFileArgs.path data) Sandbox.defaultOptions fs
          = (Ok validPath, fs) ->
        let edited := handleEditFile cwd dirSize createTwoFilesPatch (ParseSuccess data)
                        permissions allowedDirectories symlinksMap noFollowSymlinks
                        fs in
        let apply := applyFileEdits createTwoFilesPatch validPath
                       (EditFileArgs.edits data) (EditFileArgs.dryRun data) fs in
        (forall applyFileEdits e,
           FsMore.stat dirSize validPath fs = (Err e, fs) ->
           run applyFileEdits = (Err e, fs))
        /\ (forall applyFileEdits stats,
              FsMore.stat dirSize validPath fs = (Ok stats, fs) ->
              run applyFileEdits
              = if limit <? FsMore.size stats
                then (Err (tooLarge (FsMore.size stats)), fs)
                else applyFileEdits validPath (EditFileArgs.edits data)
                       (EditFileArgs.dryRun data) fs)
        /\ (forall loc,
              Fs.locate fs true validPath = inr (loc, Some Fs.Dir) ->
              limit < dirSize ->
              edited = (Err (tooLarge dirSize), fs)
              /\ apply = (Err (SystemError EISDIR "read"), fs))
        /\ (forall loc content,
              Fs.locate fs true validPath = inr (loc, Some (Fs.File content)) ->
              edited = if limit <? FsMore.byteLength content
                       then (Err (tooLarge (FsMore.byteLength content)), fs)
                       else apply)).
Proof.
  intros run limit tooLarge. split.
  - intros Hperm applyFileEdits. subst run. unfold handleEditFileWith.
    destruct (Permissions.edit permissions), (Permissions.fullAccess permissions);
      try discriminate. reflexivity.
  - intros validPath Hperm Hv edited apply.
    assert (Hstat : forall applyFileEdits stats,
              FsMore.stat dirSize validPath fs = (Ok stats, fs) ->
              run applyFileEdits
              = if limit <? FsMore.size stats
                then (Err (tooLarge (FsMore.size stats)), fs)
                else applyFileEdits validPath (EditFileArgs.edits data)
                       (EditFileArgs.dryRun data) fs).
    { intros applyFileEdits stats Hs. subst run. unfold handleEditFileWith.
      rewrite (permitted_gate _ _ Hperm). unfold bind at 1. rewrite Hv.
      unfold bind at 1. rewrite Hs.
      change (effectiveLimit (EditFileArgs.maxBytes data)) with limit.
      destruct (limit <? FsMore.size stats); [|reflexivity].
      subst tooLarge. unfold throw, sizeExceeded. rewrite !append_assoc. reflexivity. }
    assert (Hedited : edited = run (applyFileEdits createTwoFilesPatch))
      by reflexivity.
    split; [|split; [exact Hstat|split]].
    + intros applyFileEdits e Hs. subst run. unfold handleEditFileWith.
      rewrite (permitted_gate _ _ Hperm). unfold bind at 1. rewrite Hv.
      unfold bind at 1. rewrite Hs. reflexivity.
    + intros loc Hloc Hlt. rewrite Hedited.
      rewrite (Hstat _ {| FsMore.size := dirSize |})
        by (unfold FsMore.stat; rewrite Hloc; reflexivity).
      simpl. apply Nat.ltb_lt in Hlt. rewrite Hlt. split; [reflexivity|].
      subst apply. unfold applyFileEdits, bind, FsOps.readFile. rewrite Hloc.
      reflexivity.
    + intros loc content Hloc. rewrite Hedited.
      rewrite (Hstat _ {| FsMore.size := FsMore.byteLength content |})
        by (unfold FsMore.stat; rewrite Hloc; reflexivity).
      reflexivity.
Qed.

(** X25. [handleDeleteFile] removes at most one entry and never a
    directory: after any call the file system is as before, or the
    call succeeded and exactly one entry, a file or a symbolic link,
    is gone. *)
Theorem handleDeleteFile_removes_one_file_at_most parsed permissions fs r fs' :
  handleDeleteFile cwd rejectionMessage parsed permissions allowedDirectories
    symlinksMap noFollowSymlinks fs = (r, fs') ->
  fs' = fs
  \/ exists data loc node,
       parsed = ParseSuccess data
       /\ r = Ok ("Successfully deleted " +:+ DeleteFileArgs.path data)
       /\ fs !! Fs.key loc = Some node
       /\ node <> Fs.Dir
       /\ fs' = delete (Fs.key loc) fs.
Proof.
  destruct parsed as [data|error]; [|intros [= _ <-]; left; reflexivity].
  unfold handleDeleteFile, bind, tryCatch.
  destruct (negb (Permissions.delete permissions)
            && negb (Permissions.fullAccess permissions));
    [intros [= _ <-]; left; reflexivity|].
  destruct (validatePath_cases cwd allowedDirectories symlinksMap noFollowSymlinks
              (DeleteFileArgs.path data) Sandbox.defaultOptions fs)
    as [[v ->]|[why ->]]; [|intros [= _ <-]; left; reflexivity].
  destruct (access_frame fs v) as [[[]|ea] ->]; [|intros [= _ <-]; left; reflexivity].
  unfold FsMore.unlink.
  destruct (Fs.locate fs false v) as [e|[loc [node|]]] eqn:Hloc;
    try (intros [= _ <-]; left; reflexivity);
    [|destruct loc; intros [= _ <-]; left; reflexivity].
  pose proof (locate_node fs false v loc (Some node) Hloc) as Hnode.
  destruct loc as [|seg loc]; [intros [= _ <-]; left; reflexivity|].
  simpl in Hnode.
  destruct node as [c| |target]; try (intros [= _ <-]; left; reflexivity);
    intros [= <- <-]; right; eexists data, (seg :: loc), _;
    (split; [reflexivity|]; split; [reflexivity|]; split; [exact Hnode|];
     split; [discriminate|reflexivity]).
Qed.

Lemma includes_cons_other a sub c s :
  Ascii.eqb a c = false ->
  Js.includes (String c s) (String a sub) = Js.includes s (String a sub).
Proof.
  intros H. unfold Js.includes. cbn [Js.indexOf Js.startsWith]. rewrite H. simpl.
  destruct (Js.indexOf (String a sub) s); reflexivity.
Qed.

Lemma already_exists_message path :
  Js.includes ("File already exists: " +:+ path) "ENOENT" = Js.includes path "ENOENT".
Proof.
  change ("File already exists: " +:+ path)
    with (String "F" (String "i" (String "l" (String "e" (String " " (String "a"
         (String "l" (String "r" (String "e" (String "a" (String "d" (String "y"
         (String " " (String "e" (String "x" (String "i" (String "s" (String "t"
         (String "s" (String ":" (String " " path))))))))))))))))))))).
  repeat rewrite includes_cons_other by reflexivity. reflexivity.
Qed.

Lemma enoent_message syscall path :
  Js.includes (FsMore.systemMessage ENOENT syscall path) "ENOENT" = true.
Proof. unfold FsMore.systemMessage. destruct (String.eqb syscall "read"); reflexivity. Qed.

(** X26. With the path accepted, [handleCreateFile] does not write
    over a file that is there, as long as the requested path does not
    hold the text [ENOENT]: it fails with "File already exists",
    whatever the permissions, and changes nothing. When the access
    fails for [ENOENT], it fails with the permission error if neither
    [create] nor [fullAccess] is granted, and otherwise makes the
    parent directory and writes the file. *)
Theorem handleCreateFile_keeps_existing_files data permissions fs validPath :
  validated (WriteFileArgs.path data) {| Sandbox.checkParentExists := false |} fs
    = (Ok validPath, fs) ->
  let run := handleCreateFile cwd rejectionMessage mkdir (ParseSuccess data)
               permissions allowedDirectories symlinksMap noFollowSymlinks fs in
  (FsOps.access validPath fs = (Ok tt, fs) ->
   Js.includes (WriteFileArgs.path data) "ENOENT" = false ->
   run = (Err (Thrown ("File already exists: " +:+ WriteFileArgs.path data)), fs))
  /\ (forall syscall,
        FsOps.access validPath fs = (Err (SystemError ENOENT syscall), fs) ->
        run = if Permissions.create permissions || Permissions.fullAccess permissions
              then (mkdir (Path.dirname validPath) ;;;
                    FsOps.writeFile validPath (WriteFileArgs.content data) ;;;
                    ret ("Successfully created " +:+ WriteFileArgs.path data)) fs
              else (Err (Thrown
                     "Cannot create new file: create permission not granted (requires --allow-create)"),
                    fs)).
Proof.
  intros Hv run. subst run. split.
  - intros Ha Hplain. unfold handleCreateFile. unfold bind at 1. rewrite Hv.
    unfold bind, tryCatch. rewrite Ha. unfold throw at 1. cbn [messageOf].
    rewrite already_exists_message, Hplain. reflexivity.
  - intros syscall Ha. unfold handleCreateFile. unfold bind at 1. rewrite Hv.
    unfold bind at 1, tryCatch. rewrite Ha. cbn [messageOf].
    rewrite enoent_message. simpl negb. cbv iota.
    destruct (Permissions.create permissions), (Permissions.fullAccess permissions);
      reflexivity.
Qed.

(** X27. The check of [handleCreateFile] reads the text of the error:
    when the requested path itself holds [ENOENT], the error "File
    already exists" passes for a missing file. With the permission,
    the handler then goes on to make the parent directory and to write
    over the file that is there. *)
Theorem handleCreateFile_overwrites_when_the_path_holds_ENOENT
    data permissions fs validPath :
  validated (WriteFileArgs.path data) {| Sandbox.checkParentExists := false |} fs
    = (Ok validPath, fs) ->
  FsOps.access validPath fs = (Ok tt, fs) ->
  Js.includes (WriteFileArgs.path data) "ENOENT" = true ->
  Permissions.create permissions || Permissions.fullAccess permissions = true ->
  handleCreateFile cwd rejectionMessage mkdir (ParseSuccess data) permissions
    allowedDirectories symlinksMap noFollowSymlinks fs
  = (mkdir (Path.dirname validPath) ;;;
     FsOps.writeFile validPath (WriteFileArgs.content data) ;;;
     ret ("Successfully created " +:+ WriteFileArgs.path data)) fs.
Proof.
  intros Hv Ha Hholds Hperm. unfold handleCreateFile. unfold bind at 1. rewrite Hv.
  unfold bind at 1, tryCatch. rewrite Ha. unfold throw at 1. cbn [messageOf].
  rewrite already_exists_message, Hholds. simpl negb. cbv iota.
  rewrite (permitted_gate _ _ Hperm). reflexivity.
Qed.

End HandlerBehaviour.

(** Renaming the sample file to the name it has. *)
Lemma handleRenameFile_renames_only_onto_a_free_name_witness :
  handleRenameFile "/"
    (ParseSuccess {| RenameFileArgs.path := "/sandbox/a/f.txt";
                     RenameFileArgs.newName := "f.txt" |})
    renamePermission ["/sandbox"] ∅ false sampleFs
  = (Err (Thrown ("Cannot rename file: a file with name " +:+ quote +:+ "f.txt"
                    +:+ quote +:+ " already exists in the directory")),
     sampleFs).
Proof.
  destruct (handleRenameFile_renames_only_onto_a_free_name "/" ["/sandbox"] ∅ false
              {| RenameFileArgs.path := "/sandbox/a/f.txt";
                 RenameFileArgs.newName := "f.txt" |}
              renamePermission sampleFs "/sandbox/a/f.txt" "/sandbox/a/f.txt")
    as [Htaken _];
    [vm_compute; reflexivity|vm_compute; reflexivity|vm_compute; reflexivity|].
  apply Htaken. vm_compute. reflexivity.
Defined.

(** Modifying the sample file. *)
Lemma handleModifyFile_only_overwrites_witness :
  let run := handleModifyFile "/"
               (ParseSuccess {| WriteFileArgs.path := "/sandbox/a/f.txt";
                                WriteFileArgs.content := "uno" |})
               editPermission ["/sandbox"] ∅ false sampleFs in
  run.1 = Ok "Successfully modified /sandbox/a/f.txt"
  /\ run.2 = <["/sandbox/a/f.txt" := Fs.File "uno"]> sampleFs.
Proof.
  intros run.
  assert (Hrun : run.1 = Ok "Successfully modified /sandbox/a/f.txt")
    by (vm_compute; reflexivity).
  split; [exact Hrun|].
  destruct (handleModifyFile_only_overwrites "/" ["/sandbox"] ∅ false
              {| WriteFileArgs.path := "/sandbox/a/f.txt";
                 WriteFileArgs.content := "uno" |}
              editPermission sampleFs "/sandbox/a/f.txt")
    as [_ [Hdone _]]; [vm_compute; reflexivity|vm_compute; reflexivity|].
  destruct (Hdone _ Hrun) as [_ [loc [old [Hloc [Hfs _]]]]].
  assert (Hl : Fs.locate sampleFs true "/sandbox/a/f.txt"
               = inr (["sandbox"; "a"; "f.txt"], Some (Fs.File "one")))
    by (vm_compute; reflexivity).
  rewrite Hl in Hloc. injection Hloc as <- <-. exact Hfs.
Defined.

(** Moving the sample file into a directory that is not there. *)
Lemma handleMoveFile_needs_the_destination_directory_witness :
  handleMoveFile "/"
    (ParseSuccess {| MoveFileArgs.source := "/sandbox/a/f.txt";
                     MoveFileArgs.destination := "/sandbox/c/f.txt" |})
    movePermission ["/sandbox"] ∅ false sampleFs
  = (Err (Thrown "Destination parent directory does not exist: /sandbox/c"),
     sampleFs).
Proof.
  destruct (handleMoveFile_needs_the_destination_directory "/" ["/sandbox"] ∅ false
              {| MoveFileArgs.source := "/sandbox/a/f.txt";
                 MoveFileArgs.destination := "/sandbox/c/f.txt" |}
              movePermission sampleFs "/sandbox/a/f.txt" "/sandbox/c/f.txt")
    as [Hmissing _];
    [vm_compute; reflexivity|vm_compute; reflexivity|vm_compute; reflexivity|].
  destruct (Hmissing (SystemError ENOENT "access")) as [Hrun _];
    [vm_compute; reflexivity|]. exact Hrun.
Defined.

(** The directory [/sandbox/a], which the platform reports as 4096
    bytes long, read with a limit of two bytes: the answer is the size
    error, not the [EISDIR] of a read. *)
Lemma handleReadFile_checks_the_size_first_witness :
  handleReadFile "/" 4096
    (ParseSuccess {| ReadFileArgs.path := "/sandbox/a";
                     ReadFileArgs.maxBytes := Some 2 |})
    ["/sandbox"] ∅ false sampleFs
  = (Err (Thrown "File size (4096 bytes) exceeds the maximum allowed size (2 bytes)."),
     sampleFs)
  /\ FsOps.readFile "/sandbox/a" sampleFs = (Err (SystemError EISDIR "read"), sampleFs).
Proof.
  destruct (handleReadFile_checks_the_size_first "/" 4096 ["/sandbox"] ∅ false
              {| ReadFileArgs.path := "/sandbox/a"; ReadFileArgs.maxBytes := Some 2 |}
              sampleFs "/sandbox/a") as [_ [_ [Hdir _]]]; [vm_compute; reflexivity|].
  apply (Hdir ["sandbox"; "a"]); [vm_compute; reflexivity|].
  apply Nat.ltb_lt. reflexivity.
Defined.

(** An edit of the directory [/sandbox/a] with a limit of two bytes:
    the answer is the size error, not the [EISDIR] of a read. *)
Lemma handleEditFile_gates_then_applies_witness :
  let data := {| EditFileArgs.path := "/sandbox/a";
                 EditFileArgs.edits := [{| oldText := "one"; newText := "uno" |}];
                 EditFileArgs.dryRun := false;
                 EditFileArgs.maxBytes := Some 2 |} in
  handleEditFile "/" 4096 samplePatch (ParseSuccess data) editPermission ["/sandbox"] ∅
    false sampleFs
  = (Err (Thrown
       "File size (4096 bytes) exceeds the maximum allowed size (2 bytes) for editing."),
     sampleFs)
  /\ applyFileEdits samplePatch "/sandbox/a" (EditFileArgs.edits data) false sampleFs
     = (Err (SystemError EISDIR "read"), sampleFs).
Proof.
  intros data.
  destruct (handleEditFile_gates_then_applies "/" 4096 samplePatch ["/sandbox"] ∅ false
              data editPermission sampleFs) as [_ Hgranted].
  destruct (Hgranted "/sandbox/a") as [_ [_ [Hdir _]]];
    [reflexivity|vm_compute; reflexivity|].
  apply (Hdir ["sandbox"; "a"]); [vm_compute; reflexivity|].
  apply Nat.ltb_lt. reflexivity.
Defined.

(** Deleting the sample file. *)
Lemma handleDeleteFile_removes_one_file_at_most_witness :
  let run := handleDeleteFile "/" sampleRejection
               (ParseSuccess {| DeleteFileArgs.path := "/sandbox/a/f.txt" |})
               deletePermission ["/sandbox"] ∅ false sampleFs in
  run.2 = sampleFs
  \/ exists data loc node,
       ParseSuccess {| DeleteFileArgs.path := "/sandbox/a/f.txt" |} = ParseSuccess data
       /\ run.1 = Ok ("Successfully deleted " +:+ DeleteFileArgs.path data)
       /\ sampleFs !! Fs.key loc = Some node
       /\ node <> Fs.Dir
       /\ run.2 = delete (Fs.key loc) sampleFs.
Proof.
  intros run.
  apply (handleDeleteFile_removes_one_file_at_most "/" sampleRejection ["/sandbox"] ∅
           false (ParseSuccess {| DeleteFileArgs.path := "/sandbox/a/f.txt" |})
           deletePermission sampleFs run.1 run.2).
  apply surjective_pairing.
Defined.

(** Creating the sample file again. *)
Lemma handleCreateFile_keeps_existing_files_witness :
  handleCreateFile "/" sampleRejection sampleMkdir
    (ParseSuccess {| WriteFileArgs.path := "/sandbox/a/f.txt";
                     WriteFileArgs.content := "new" |})
    fullPermissions ["/sandbox"] ∅ false sampleFs
  = (Err (Thrown "File already exists: /sandbox/a/f.txt"), sampleFs).
Proof.
  destruct (handleCreateFile_keeps_existing_files "/" sampleRejection sampleMkdir
              ["/sandbox"] ∅ false
              {| WriteFileArgs.path := "/sandbox/a/f.txt";
                 WriteFileArgs.content := "new" |}
              fullPermissions sampleFs "/sandbox/a/f.txt")
    as [Hexists _]; [vm_compute; reflexivity|].
  apply Hexists; vm_compute; reflexivity.
Defined.

(** Creating a file named [ENOENT.txt] that is there already. *)
Lemma handleCreateFile_overwrites_when_the_path_holds_ENOENT_witness :
  let fs := <["/sandbox/a/ENOENT.txt" := Fs.File "old"]> sampleFs in
  handleCreateFile "/" sampleRejection sampleMkdir
    (ParseSuccess {| WriteFileArgs.path := "/sandbox/a/ENOENT.txt";
                     WriteFileArgs.content := "new" |})
    createPermission ["/sandbox"] ∅ false fs
  = (Ok "Successfully created /sandbox/a/ENOENT.txt",
     <["/sandbox/a/ENOENT.txt" := Fs.File "new"]> fs).
Proof.
  intros fs.
  rewrite (handleCreateFile_overwrites_when_the_path_holds_ENOENT "/" sampleRejection
             sampleMkdir ["/sandbox"] ∅ false
             {| WriteFileArgs.path := "/sandbox/a/ENOENT.txt";
                WriteFileArgs.content := "new" |}
             createPermission fs "/sandbox/a/ENOENT.txt");
    [vm_compute; reflexivity|vm_compute; reflexivity|vm_compute; reflexivity
    |reflexivity|reflexivity].
Defined.

(* ===================================================================== *)
(** * The path sandbox: paths that lead outside the roots *)
(* ===================================================================== *)

Section SegmentFacts.

Local Arguments Ascii.eqb : simpl never.

Lemma split_app_sep sep a b :
  Js.split sep (a +:+ String sep b) = Js.split sep a ++ Js.split sep b.
Proof.
  induction a as [|c a IH].
  - change ("" +:+ String sep b) with (String sep b). simpl.
    rewrite Ascii.eqb_refl. reflexivity.
  - rewrite append_cons. simpl. destruct (Ascii.eqb c sep).
    + rewrite IH. reflexivity.
    + rewrite IH. pose proof (split_not_nil sep a) as Hne.
      destruct (Js.split sep a); [congruence|reflexivity].
Qed.

Lemma split_noSlash l : noSlash l -> Js.split Path.slash l = [l].
Proof.
  induction l as [|c l IH]; intros H; [reflexivity|].
  destruct H as [Hc Hl]. simpl. rewrite Hc, (IH Hl). reflexivity.
Qed.

Lemma split_pieces s : Forall noSlash (Js.split Path.slash s).
Proof.
  induction s as [|c s IH]; simpl.
  - constructor; [exact I|constructor].
  - destruct (Ascii.eqb c Path.slash) eqn:E.
    + constructor; [exact I|exact IH].
    + destruct (Js.split Path.slash s) as [|l ls]; [repeat constructor; exact E|].
      apply Forall_cons in IH as [Hl Hls]. constructor; [split; assumption|exact Hls].
Qed.

Lemma segments_components p : Forall component (Path.segments p).
Proof.
  unfold Path.segments. pose proof (split_pieces p) as H.
  induction H as [|l ls Hl Hls IH]; simpl; [constructor|].
  destruct (Js.truthy l) eqn:E; [|exact IH].
  constructor; [split; assumption|exact IH].
Qed.

Lemma segments_app_slash a b :
  Path.segments (a +:+ String Path.slash b) = Path.segments a ++ Path.segments b.
Proof. unfold Path.segments. rewrite split_app_sep. apply List.filter_app. Qed.

Lemma segments_component l : component l -> Path.segments l = [l].
Proof.
  intros [Ht Hs]. unfold Path.segments. rewrite (split_noSlash l Hs). simpl.
  rewrite Ht. reflexivity.
Qed.

Lemma segments_join segs :
  Forall component segs -> Path.segments (Js.join "/" segs) = segs.
Proof.
  induction 1 as [|l ls Hl Hls IH]; [reflexivity|].
  destruct ls as [|l' ls].
  - simpl. apply segments_component. exact Hl.
  - change (Js.join "/" (l :: l' :: ls)) with (l +:+ String Path.slash (Js.join "/" (l' :: ls))).
    rewrite segments_app_slash, IH, (segments_component l Hl). reflexivity.
Qed.

Lemma segments_leading_slash s : Path.segments (String Path.slash s) = Path.segments s.
Proof. exact (segments_app_slash "" s). Qed.

Lemma segments_trailing_slash s : Path.segments (s +:+ "/") = Path.segments s.
Proof.
  change "/"%string with (String Path.slash ""). rewrite segments_app_slash.
  apply app_nil_r.
Qed.

(** The segments of a key are the segments it was made of. *)
Lemma segments_key segs : Forall component segs -> Path.segments (Fs.key segs) = segs.
Proof.
  intros H. unfold Fs.key.
  change ("/" +:+ Js.join "/" segs) with (String Path.slash (Js.join "/" segs)).
  rewrite segments_leading_slash. apply segments_join. exact H.
Qed.

Lemma pushSegment_keeps (P : string -> Prop) acc seg :
  Forall P acc -> P seg -> Forall P (Path.pushSegment false acc seg).
Proof.
  intros Hacc Hseg. unfold Path.pushSegment.
  destruct (String.eqb seg "."); [exact Hacc|].
  destruct (String.eqb seg "..").
  - destruct acc as [|top below]; [constructor|].
    apply Forall_cons in Hacc as [Htop Hbelow].
    destruct (String.eqb top ".."); [|exact Hbelow].
    constructor; [exact Hseg|]. constructor; assumption.
  - constructor; assumption.
Qed.

Lemma normalizeSegments_keeps (P : string -> Prop) segs :
  Forall P segs -> Forall P (Path.normalizeSegments false segs).
Proof.
  intros H. unfold Path.normalizeSegments. apply Forall_rev.
  assert (Hnil : Forall P (@nil string)) by constructor.
  revert Hnil. generalize (@nil string).
  induction H as [|seg segs Hseg Hsegs IH]; intros acc Hacc; [exact Hacc|].
  simpl. apply IH. apply pushSegment_keeps; assumption.
Qed.

(** [path.normalize] of an absolute path, read back as segments, is
    the segments of the path with [.] and [..] collapsed. *)
Lemma segments_normalize p :
  Path.isAbsolute p = true ->
  Path.segments (Path.normalize p)
  = Path.normalizeSegments false (Path.segments p).
Proof.
  intros Habs. destruct p as [|c rest]; [discriminate|].
  unfold Path.normalize. rewrite Habs. simpl negb.
  pose proof (normalizeSegments_keeps component _ (segments_components (String c rest)))
    as Hns.
  destruct (Path.normalizeSegments false (Path.segments (String c rest)))
    as [|x xs] eqn:E.
  - reflexivity.
  - assert (Hbody : Path.segments (Js.join "/" (x :: xs)) = x :: xs)
      by (apply segments_join; exact Hns).
    assert (Hne : exists c0 b0, Js.join "/" (x :: xs) = String c0 b0).
    { apply Forall_cons in Hns as [[Hx _] _]. destruct x as [|c0 x]; [discriminate|].
      destruct xs; simpl; eauto. }
    destruct Hne as [c0 [b0 Hb]]. rewrite Hb in *.
    destruct (Path.endsWithSlash (String c rest)).
    + change ("/" +:+ (String c0 b0 +:+ "/"))
        with (String Path.slash (String c0 b0 +:+ "/")).
      rewrite segments_leading_slash, segments_trailing_slash. exact Hbody.
    + change ("/" +:+ String c0 b0) with (String Path.slash (String c0 b0)).
      rewrite segments_leading_slash. exact Hbody.
Qed.

End SegmentFacts.

Section KernelFacts.
Import Fs Sandbox.

Variable fs : filesystem.

Lemma resolve_unfold followLast hops :
  resolve fs followLast hops
  = walkWith fs followLast
      match hops with
      | 0 => fun _ _ => inl ELOOP
      | S h => resolve fs followLast h
      end.
Proof. destruct hops; reflexivity. Qed.

Lemma dirsFrom_app cur a b :
  dirsFrom fs cur (a ++ b) <-> dirsFrom fs cur a /\ dirsFrom fs (cur ++ a) b.
Proof.
  revert cur. induction a as [|x a IH]; intros cur; simpl.
  - rewrite app_nil_r. tauto.
  - rewrite IH, <- app_assoc. simpl. tauto.
Qed.

Lemma realDir_nil : realDir fs [].
Proof. exact I. Qed.

Lemma realDir_snoc cur seg :
  realDir fs cur -> plain seg -> component seg ->
  fs !! key (cur ++ [seg]) = Some Dir -> realDir fs (cur ++ [seg]).
Proof.
  intros Hcur Hp Hc Hd. apply dirsFrom_app. split; [exact Hcur|].
  simpl. auto.
Qed.

Lemma realDir_parent cur : realDir fs cur -> realDir fs (parent cur).
Proof.
  intros H. unfold realDir in *. rewrite (parent_lastOf cur) in H.
  apply dirsFrom_app in H as [H _]. exact H.
Qed.

Lemma realDir_components cur : realDir fs cur -> Forall component cur.
Proof.
  unfold realDir. generalize (@nil string). induction cur as [|x cur IH]; intros c0 H;
    [constructor|].
  destruct H as [_ [Hc [_ H]]]. constructor; [exact Hc|]. eapply IH; exact H.
Qed.

(** Walking along directories leads into them. *)
Lemma walkWith_dirsFrom followLast onLink a :
  forall cur rest,
    dirsFrom fs cur a ->
    walkWith fs followLast onLink cur (a ++ rest)
    = walkWith fs followLast onLink (cur ++ a) rest.
Proof.
  induction a as [|seg a IH]; intros cur rest H.
  - rewrite app_nil_r. reflexivity.
  - destruct H as [[Hdot Hdots] [_ [Hdir H]]]. simpl.
    rewrite Hdot, Hdots, Hdir. rewrite (IH _ _ H), <- app_assoc. reflexivity.
Qed.

Lemma walkWith_mono followLast (onLink1 onLink2 : list string -> list string -> errno + located) :
  (forall base rest r, onLink1 base rest = inr r -> onLink2 base rest = inr r) ->
  forall rest cur r,
    walkWith fs followLast onLink1 cur rest = inr r ->
    walkWith fs followLast onLink2 cur rest = inr r.
Proof.
  intros Hlink. induction rest as [|seg rest IH]; intros cur r H; [exact H|].
  simpl in *. destruct (String.eqb seg "."); [apply IH; exact H|].
  destruct (String.eqb seg ".."); [apply IH; exact H|].
  destruct (fs !! key (cur ++ [seg])) as [[c| |target]|]; try exact H.
  - apply IH; exact H.
  - destruct rest, followLast; try exact H; apply Hlink; exact H.
Qed.

Lemma resolve_S followLast hops :
  forall cur rest r,
    resolve fs followLast hops cur rest = inr r ->
    resolve fs followLast (S hops) cur rest = inr r.
Proof.
  induction hops as [|h IH]; intros cur rest r H.
  - rewrite resolve_unfold in H. rewrite (resolve_unfold followLast 1).
    eapply walkWith_mono; [|exact H]. intros; discriminate.
  - rewrite resolve_unfold in H. rewrite (resolve_unfold followLast (S (S h))).
    eapply walkWith_mono; [|exact H]. exact IH.
Qed.

Lemma resolve_more followLast hops more cur rest r :
  resolve fs followLast hops cur rest = inr r ->
  resolve fs followLast (more + hops) cur rest = inr r.
Proof.
  intros H. induction more as [|m IH]; [exact H|]. apply resolve_S. exact IH.
Qed.

(** The answer of the kernel does not depend on the number of links it
    was allowed to follow, once that is enough. *)
Lemma resolve_deterministic followLast h1 h2 cur rest r1 r2 :
  resolve fs followLast h1 cur rest = inr r1 ->
  resolve fs followLast h2 cur rest = inr r2 ->
  r1 = r2.
Proof.
  intros H1 H2. apply (resolve_more _ _ h2) in H1. apply (resolve_more _ _ h1) in H2.
  rewrite Nat.add_comm in H2. congruence.
Qed.

(** A walk along [a ++ b] that arrives has walked along [a] to a
    directory, and along [b] from there. *)
Lemma walkWith_split onLink hops :
  (forall cur rest, walkWith fs true onLink cur rest = resolve fs true hops cur rest) ->
  (forall base a b r,
     b <> [] -> realDir fs base -> Forall component a ->
     onLink base (a ++ b) = inr r ->
     exists L nd h2,
       onLink base a = inr (L, nd) /\ realDir fs L /\ resolve fs true h2 L b = inr r) ->
  forall a cur b r,
    b <> [] -> realDir fs cur -> Forall component a ->
    walkWith fs true onLink cur (a ++ b) = inr r ->
    exists L nd h2,
      walkWith fs true onLink cur a = inr (L, nd)
      /\ realDir fs L /\ resolve fs true h2 L b = inr r.
Proof.
  intros Heq Hlink. induction a as [|seg a IH]; intros cur b r Hb Hcur Ha H.
  - exists cur, (nodeAt fs cur), hops. split; [reflexivity|]. split; [exact Hcur|].
    rewrite <- Heq. exact H.
  - apply Forall_cons in Ha as [Hseg Ha].
    change ((seg :: a) ++ b) with (seg :: (a ++ b)) in H.
    assert (Hne : a ++ b <> []) by (destruct a; [exact Hb|discriminate]).
    cbn [walkWith] in *.
    destruct (String.eqb seg ".") eqn:Edot; [apply IH; assumption|].
    destruct (String.eqb seg "..") eqn:Edots;
      [apply IH; try assumption; apply realDir_parent; exact Hcur|].
    destruct (fs !! key (cur ++ [seg])) as [[c| |target]|] eqn:E.
    + destruct (a ++ b); [congruence|discriminate].
    + apply IH; try assumption. apply realDir_snoc; try assumption. split; assumption.
    + assert (Hon : onLink (if Path.isAbsolute target then [] else cur)
                      ((Path.segments target ++ a) ++ b) = inr r).
      { rewrite <- app_assoc. destruct (a ++ b); [congruence|exact H]. }
      apply Hlink in Hon; [|exact Hb| |].
      * destruct Hon as [L [nd [h2 [H1 [H2 H3]]]]]. exists L, nd, h2.
        split; [|split; assumption]. destruct a; [|exact H1].
        rewrite app_nil_r in H1. rewrite app_nil_r. exact H1.
      * destruct (Path.isAbsolute target); [apply realDir_nil|exact Hcur].
      * apply Forall_app. split; [apply segments_components|exact Ha].
    + destruct (a ++ b); [congruence|discriminate].
Qed.

Lemma resolve_split hops :
  forall a cur b r,
    b <> [] -> realDir fs cur -> Forall component a ->
    resolve fs true hops cur (a ++ b) = inr r ->
    exists L nd h2,
      resolve fs true hops cur a = inr (L, nd)
      /\ realDir fs L /\ resolve fs true h2 L b = inr r.
Proof.
  induction hops as [|h IH]; intros a cur b r Hb Hcur Ha H.
  - rewrite resolve_unfold in H. rewrite (resolve_unfold true 0).
    eapply (walkWith_split _ 0); eauto.
    intros; discriminate.
  - rewrite resolve_unfold in H. rewrite (resolve_unfold true (S h)).
    eapply (walkWith_split _ (S h)); eauto.
Qed.

End KernelFacts.

Section ResolutionFacts.
Import Fs Sandbox.

Variable fs : filesystem.
Variable cache : gmap string string.

Lemma realDir_node cur : realDir fs cur -> nodeAt fs cur = Some Dir.
Proof.
  intros H. destruct cur as [|x cur] using rev_ind; [reflexivity|].
  apply dirsFrom_app in H as [_ [_ [_ [H _]]]]. simpl in H.
  unfold nodeAt. destruct (cur ++ [x]) eqn:E; [destruct cur; discriminate|].
  exact H.
Qed.

Lemma walkWith_link onLink cur seg rest target :
  plain seg ->
  fs !! key (cur ++ [seg]) = Some (Symlink target) ->
  walkWith fs true onLink cur (seg :: rest)
  = onLink (if Path.isAbsolute target then [] else cur) (Path.segments target ++ rest).
Proof.
  intros [Hdot Hdots] E. cbn [walkWith]. rewrite Hdot, Hdots, E.
  destruct rest; reflexivity.
Qed.

Lemma walkWith_absent onLink cur seg rest r :
  plain seg ->
  fs !! key (cur ++ [seg]) = None ->
  walkWith fs true onLink cur (seg :: rest) = inr r ->
  rest = [] /\ r = (cur ++ [seg], None).
Proof.
  intros [Hdot Hdots] E. cbn [walkWith]. rewrite Hdot, Hdots, E.
  destruct rest; [|discriminate]. intros [= <-]. split; reflexivity.
Qed.

Lemma resolve_absent hops cur seg rest r :
  plain seg ->
  fs !! key (cur ++ [seg]) = None ->
  resolve fs true hops cur (seg :: rest) = inr r ->
  rest = [] /\ r = (cur ++ [seg], None).
Proof. rewrite resolve_unfold. apply walkWith_absent. Qed.

(** What the cache says of a link is what the kernel finds there. *)
Lemma soundCache_link cur seg target real :
  soundCache fs cache ->
  realDir fs cur -> plain seg -> component seg ->
  fs !! key (cur ++ [seg]) = Some (Symlink target) ->
  cache !! key (cur ++ [seg]) = Some real ->
  exists nd hops,
    resolve fs true hops (if Path.isAbsolute target then [] else cur)
      (Path.segments target)
    = inr (Path.segments real, Some nd).
Proof.
  intros Hsound Hcur Hplain Hcomp E Ec. specialize (Hsound _ _ Ec).
  unfold realpath, locate in Hsound.
  rewrite segments_key in Hsound
    by (apply Forall_app; split; [apply (realDir_components fs); exact Hcur
                                 |constructor; [exact Hcomp|constructor]]).
  destruct (resolve fs true maxSymlinks [] (cur ++ [seg])) as [e|[R [nd|]]] eqn:Eroot;
    try discriminate.
  injection Hsound as ->. unfold maxSymlinks in Eroot.
  rewrite resolve_unfold, (walkWith_dirsFrom fs true _ cur [] [seg] Hcur) in Eroot.
  simpl app in Eroot. rewrite (walkWith_link _ _ _ _ _ Hplain E), app_nil_r in Eroot.
  exists nd, 39. exact Eroot.
Qed.

(** With a sound cache, the resolution through the cache either stops
    at a link that the cache does not know, or arrives where the kernel
    arrives. *)
Lemma resolveCached_agrees :
  soundCache fs cache ->
  forall rest cur hops loc n,
    Forall plain rest -> Forall component rest -> realDir fs cur ->
    resolve fs true hops cur rest = inr (loc, n) ->
    match resolveCached fs cache cur rest with
    | inl Unknown => True
    | inl Missing => False
    | inr (loc', b) => loc' = loc /\ (b = true <-> n <> None)
    end.
Proof.
  intros Hsound. induction rest as [|seg rest IH];
    intros cur hops loc n Hplain Hcomp Hcur H.
  - rewrite resolve_unfold in H. simpl in H. injection H as <- <-. simpl.
    split; [reflexivity|]. rewrite (realDir_node _ Hcur). split; [discriminate|reflexivity].
  - apply Forall_cons in Hplain as [Hseg Hplain].
    apply Forall_cons in Hcomp as [Hc Hcomp].
    cbn [resolveCached].
    destruct (fs !! key (cur ++ [seg])) as [[c| |target]|] eqn:E.
    + rewrite resolve_unfold in H. cbn [walkWith] in H.
      destruct Hseg as [Hdot Hdots]. rewrite Hdot, Hdots, E in H.
      destruct rest; [|discriminate]. injection H as <- <-.
      split; [reflexivity|]. split; [discriminate|reflexivity].
    + rewrite resolve_unfold in H. cbn [walkWith] in H.
      pose proof Hseg as [Hdot Hdots]. rewrite Hdot, Hdots, E in H.
      rewrite <- resolve_unfold in H.
      eapply IH; eauto. apply realDir_snoc; assumption.
    + destruct (cache !! key (cur ++ [seg])) as [real|] eqn:Ec; [|exact I].
      destruct (soundCache_link cur seg target real Hsound Hcur Hseg Hc E Ec)
        as [nd [h0 Hlink]].
      rewrite resolve_unfold, (walkWith_link _ _ _ _ _ Hseg E) in H.
      destruct hops as [|h]; [discriminate|].
      destruct rest as [|s rest].
      * rewrite app_nil_r in H.
        pose proof (resolve_deterministic fs _ _ _ _ _ _ _ H Hlink) as Heq.
        injection Heq as -> ->. simpl.
        split; [reflexivity|]. split; [discriminate|reflexivity].
      * apply resolve_split in H; [|discriminate| |apply segments_components].
        2:{ destruct (Path.isAbsolute target); [apply realDir_nil|exact Hcur]. }
        destruct H as [L [nd' [h2 [H1 [HL H2]]]]].
        pose proof (resolve_deterministic fs _ _ _ _ _ _ _ H1 Hlink) as Heq.
        injection Heq as -> ->.
        eapply IH; eauto.
    + rewrite resolve_unfold in H.
      apply walkWith_absent in H as [-> [= <- <-]]; [|exact Hseg|exact E].
      split; [reflexivity|]. split; [discriminate|congruence].
Qed.

(** A resolution through the cache along [a ++ b] that arrives has
    resolved [a], and [b] from there. *)
Lemma resolveCached_split a :
  forall cur b r,
    b <> [] ->
    resolveCached fs cache cur (a ++ b) = inr r ->
    exists L,
      resolveCached fs cache cur a = inr (L, true)
      /\ resolveCached fs cache L b = inr r.
Proof.
  induction a as [|seg a IH]; intros cur b r Hb H.
  - exists cur. split; [reflexivity|exact H].
  - change ((seg :: a) ++ b) with (seg :: (a ++ b)) in H.
    assert (Hne : a ++ b <> []) by (destruct a; [exact Hb|discriminate]).
    cbn [resolveCached] in *.
    destruct (fs !! key (cur ++ [seg])) as [[c| |target]|].
    + destruct (a ++ b); [congruence|discriminate].
    + apply IH; assumption.
    + destruct (cache !! key (cur ++ [seg])); [|discriminate]. apply IH; assumption.
    + destruct (a ++ b); [congruence|discriminate].
Qed.

Variable followSymlinks : bool.
Hypothesis cache_sound : followSymlinks = false -> soundCache fs cache.

(** Under either policy, the sandbox resolves a path to the place
    where the kernel resolves it, or stops at a link that the cache
    does not know. *)
Lemma resolveWith_agrees segs loc n :
  Forall plain segs -> Forall component segs ->
  resolve fs true maxSymlinks [] segs = inr (loc, n) ->
  match resolveWith fs cache followSymlinks segs with
  | inl Unknown => followSymlinks = false
  | inl Missing => False
  | inr (loc', b) => loc' = loc /\ (b = true <-> n <> None)
  end.
Proof.
  intros Hplain Hcomp H. unfold resolveWith. destruct followSymlinks.
  - unfold resolveFollowing. rewrite H. destruct n; (split; [reflexivity|]).
    + split; [discriminate|reflexivity].
    + split; [discriminate|congruence].
  - pose proof (resolveCached_agrees (cache_sound eq_refl) segs [] _ _ _
                  Hplain Hcomp (realDir_nil fs) H) as Hc.
    destruct (resolveCached fs cache [] segs) as [[|]|[loc' b]]; auto.
Qed.

(** Past a name that is not there, nothing is resolved but the name
    itself, as a name that is free. *)
Lemma resolveWith_beyond ancestor real node name tail p b :
  Forall plain (ancestor ++ name :: tail) ->
  Forall component (ancestor ++ name :: tail) ->
  resolve fs true maxSymlinks [] ancestor = inr (real, Some node) ->
  fs !! key (real ++ [name]) = None ->
  resolveWith fs cache followSymlinks (ancestor ++ name :: tail) = inr (p, b) ->
  tail = [] /\ b = false /\ p = real ++ [name].
Proof.
  intros Hplain Hcomp Hanc Hnone H.
  apply Forall_app in Hplain as [Hpa Hpt]. apply Forall_cons in Hpt as [Hname _].
  apply Forall_app in Hcomp as [Hca _].
  unfold resolveWith in H. destruct followSymlinks.
  - unfold resolveFollowing in H.
    destruct (resolve fs true maxSymlinks [] (ancestor ++ name :: tail))
      as [e|[loc n]] eqn:E; [discriminate|].
    apply resolve_split in E; [|discriminate|apply realDir_nil|exact Hca].
    destruct E as [L [nd [h2 [H1 [_ H2]]]]].
    pose proof (resolve_deterministic fs _ _ _ _ _ _ _ H1 Hanc) as Heq.
    injection Heq as -> ->.
    apply resolve_absent in H2 as [-> [= -> ->]]; [|exact Hname|exact Hnone].
    injection H as <- <-. repeat split; reflexivity.
  - apply resolveCached_split in H as [L [H1 H2]]; [|discriminate].
    pose proof (resolveCached_agrees (cache_sound eq_refl) ancestor [] _ _ _
                  Hpa Hca (realDir_nil fs) Hanc) as Hc.
    rewrite H1 in Hc. destruct Hc as [-> _].
    cbn [resolveCached] in H2. rewrite Hnone in H2.
    destruct tail; [|discriminate]. injection H2 as <- <-. repeat split; reflexivity.
Qed.

Lemma parent_snoc (l : list string) x : parent (l ++ [x]) = l.
Proof. unfold parent. apply removelast_last. Qed.

Lemma lastOf_snoc (l : list string) x : lastOf (l ++ [x]) = [x].
Proof. unfold lastOf. rewrite rev_unit. reflexivity. Qed.

(** The climb from a path with missing components ends at the
    ancestor that exists, and puts the missing names back under the
    place where that ancestor really is. *)
Lemma climb_leads ancestor real node name rest :
  Forall plain (ancestor ++ name :: rest) ->
  Forall component (ancestor ++ name :: rest) ->
  resolve fs true maxSymlinks [] ancestor = inr (real, Some node) ->
  fs !! key (real ++ [name]) = None ->
  forall n below tail a p,
    (exists more, name :: rest = below ++ more) ->
    climb (resolveWith fs cache followSymlinks) n (ancestor ++ below) tail = inr (a, p) ->
    p = real ++ below ++ tail.
Proof.
  intros Hplain Hcomp Hanc Hnone.
  assert (Hpa : Forall plain ancestor) by (apply Forall_app in Hplain as [H _]; exact H).
  assert (Hca : Forall component ancestor)
    by (apply Forall_app in Hcomp as [H _]; exact H).
  assert (Hat : forall n tail a p,
            climb (resolveWith fs cache followSymlinks) n ancestor tail = inr (a, p) ->
            p = real ++ tail).
  { intros n tail a p H.
    pose proof (resolveWith_agrees ancestor _ _ Hpa Hca Hanc) as Hr.
    destruct n; simpl in H;
      destruct (resolveWith fs cache followSymlinks ancestor) as [[|]|[loc [|]]];
      try discriminate; try (exfalso; exact Hr);
      try (destruct Hr as [-> _]; injection H as _ <-; reflexivity);
      destruct Hr as [_ [_ Hr]]; specialize (Hr ltac:(discriminate)); discriminate. }
  assert (Hbeyond : forall below x more loc,
            name :: rest = (below ++ [x]) ++ more ->
            resolveWith fs cache followSymlinks (ancestor ++ below ++ [x])
            <> inr (loc, true)).
  { intros below x more loc Hmore E.
    assert (Hshape : exists t, below ++ [x] = name :: t).
    { destruct below as [|y below]; simpl in Hmore |- *;
        injection Hmore as <- _; eauto. }
    destruct Hshape as [t Ht]. rewrite Ht in E, Hmore. simpl in Hmore.
    injection Hmore as ->.
    apply resolveWith_beyond with (real := real) (node := node) in E;
      [destruct E as [_ [E _]]; discriminate| | |exact Hanc|exact Hnone].
    - replace (ancestor ++ name :: t ++ more) with ((ancestor ++ name :: t) ++ more)
        in Hplain by (rewrite <- app_assoc; reflexivity).
      apply Forall_app in Hplain as [Hp _]. exact Hp.
    - replace (ancestor ++ name :: t ++ more) with ((ancestor ++ name :: t) ++ more)
        in Hcomp by (rewrite <- app_assoc; reflexivity).
      apply Forall_app in Hcomp as [Hp _]. exact Hp. }
  induction n as [|n IH]; intros below tail a p [more Hmore] H;
    destruct below as [|x below _] using rev_ind;
    try (rewrite app_nil_r in H; rewrite (Hat _ _ _ _ H); reflexivity).
  - simpl in H. pose proof (Hbeyond below x more) as Hb.
    destruct (resolveWith fs cache followSymlinks (ancestor ++ below ++ [x]))
      as [[|]|[loc [|]]]; try discriminate.
    exfalso. exact (Hb loc Hmore eq_refl).
  - assert (Hnext : climb (resolveWith fs cache followSymlinks) n (ancestor ++ below)
                      ([x] ++ tail) = inr (a, p)).
    { simpl in H. pose proof (Hbeyond below x more) as Hb.
      rewrite (app_assoc ancestor below [x]) in H.
      rewrite parent_snoc, lastOf_snoc in H.
      rewrite <- (app_assoc ancestor below [x]) in H.
      destruct (resolveWith fs cache followSymlinks (ancestor ++ below ++ [x]))
        as [[|]|[loc [|]]]; try discriminate; try exact H.
      exfalso. exact (Hb loc Hmore eq_refl). }
    apply IH in Hnext.
    + rewrite Hnext, <- !app_assoc. reflexivity.
    + exists ([x] ++ more). rewrite app_assoc. exact Hmore.
Qed.

End ResolutionFacts.

Section RejectionFacts.
Import Fs Sandbox.

Lemma isPrefix_prefix r p : isPrefix r p = true -> r `prefix_of` p.
Proof.
  revert p. induction r as [|a r IH]; intros p H.
  - exists p. reflexivity.
  - destruct p as [|b p]; [discriminate|]. simpl in H.
    apply andb_true_iff in H as [Hab H]. apply String.eqb_eq in Hab as ->.
    destruct (IH p H) as [k ->]. exists k. reflexivity.
Qed.

Lemma outsideRoots_insideRoots allowedRoots loc :
  outsideRoots allowedRoots loc -> insideRoots allowedRoots loc = false.
Proof.
  intros Hout. destruct (insideRoots allowedRoots loc) eqn:E; [|reflexivity].
  unfold insideRoots in E. apply existsb_exists in E as [root [Hin Hw]].
  exfalso. apply (Hout root Hin). apply isPrefix_prefix. exact Hw.
Qed.

Lemma absolutePath_absolute cwd candidatePath :
  Path.isAbsolute cwd = true -> Path.isAbsolute (absolutePath cwd candidatePath) = true.
Proof.
  intros Hcwd. unfold absolutePath.
  destruct (Path.isAbsolute candidatePath) eqn:E; [exact E|].
  destruct cwd as [|c cwd]; [discriminate|]. exact Hcwd.
Qed.

(** The canonical form that the sandbox computes is the one of
    [path.normalize]. *)
Lemma canonicalSegments_canonicalize cwd candidatePath :
  Path.isAbsolute cwd = true ->
  canonicalSegments cwd candidatePath = canonicalize cwd candidatePath.
Proof.
  intros Hcwd. unfold canonicalSegments.
  rewrite segments_normalize by (apply absolutePath_absolute; exact Hcwd).
  reflexivity.
Qed.

Lemma canonicalize_components cwd candidatePath :
  Forall component (canonicalize cwd candidatePath).
Proof.
  unfold canonicalize. apply normalizeSegments_keeps. apply segments_components.
Qed.

(** A path that really leads out of the roots is rejected: the kernel
    and the sandbox agree on where it leads. *)
Lemma real_escape_rejected fs cwd candidatePath allowedRoots cache followSymlinks
    options loc :
  (followSymlinks = false -> soundCache fs cache) ->
  realLocation fs (canonicalize cwd candidatePath) loc ->
  outsideRoots allowedRoots loc ->
  exists why,
    validate fs cwd candidatePath allowedRoots cache followSymlinks options = inl why.
Proof.
  intros Hsound Hreal Hout. apply outsideRoots_insideRoots in Hout.
  pose proof (canonicalize_plain cwd candidatePath) as Hplain.
  pose proof (canonicalize_components cwd candidatePath) as Hcomp.
  unfold validate, canonicalResolution.
  set (canon := canonicalize cwd candidatePath) in *.
  destruct Hreal as [[n H]|[ancestor [real [node [name [tail
                      [Hsegs [Hanc [Hnone ->]]]]]]]]].
  - pose proof (resolveWith_agrees fs cache followSymlinks Hsound canon loc n
                  Hplain Hcomp H) as Hr.
    destruct (resolveWith fs cache followSymlinks canon) as [[|]|[loc' [|]]].
    + destruct Hr.
    + eexists; reflexivity.
    + destruct Hr as [-> _]. rewrite Hout. simpl. eexists; reflexivity.
    + destruct Hr as [-> _]. rewrite Hout, andb_false_r. eexists; reflexivity.
  - clearbody canon. subst canon.
    destruct (resolveWith fs cache followSymlinks (ancestor ++ name :: tail))
      as [[|]|[p b]] eqn:E.
    + destruct (checkParentExists options); [eexists; reflexivity|].
      destruct (climb _ _ _ _) as [why|[a p]] eqn:Ec; [eexists; reflexivity|].
      assert (Hsnoc : name :: tail = List.removelast (name :: tail)
                                     ++ [List.last (name :: tail) name])
        by (apply app_removelast_last; discriminate).
      set (below := List.removelast (name :: tail)) in *.
      set (x := List.last (name :: tail) name) in *. clearbody below x.
      rewrite Hsnoc, app_assoc, parent_snoc, lastOf_snoc in Ec.
      eapply (climb_leads fs cache followSymlinks Hsound ancestor real node name tail)
        in Ec; eauto.
      rewrite Ec, <- Hsnoc, Hout, andb_false_r. eexists; reflexivity.
    + eexists; reflexivity.
    + apply resolveWith_beyond with (real := real) (node := node) in E; auto.
      destruct E as [-> [-> ->]]. rewrite Hout, andb_false_r. eexists; reflexivity.
Qed.

Lemma insideRoots_prefix allowedRoots loc :
  insideRoots allowedRoots loc = true ->
  exists root, In root allowedRoots /\ Path.segments root `prefix_of` loc.
Proof.
  unfold insideRoots. intros H. apply existsb_exists in H as [root [Hin Hw]].
  exists root. split; [exact Hin|]. apply isPrefix_prefix. exact Hw.
Qed.

(** With the links followed and the parent required, a path that the
    sandbox accepts is one that the kernel resolves, to a place inside
    a root. *)
Lemma accepted_is_inside fs cwd candidatePath allowedRoots cache options validPath :
  checkParentExists options = true ->
  validate fs cwd candidatePath allowedRoots cache true options = inr validPath ->
  exists loc n root,
    resolve fs true maxSymlinks [] (canonicalize cwd candidatePath) = inr (loc, n)
    /\ validPath = key loc
    /\ In root allowedRoots
    /\ Path.segments root `prefix_of` loc.
Proof.
  intros Hparent. unfold validate, canonicalResolution, resolveWith, resolveFollowing.
  rewrite Hparent.
  destruct (resolve fs true maxSymlinks [] (canonicalize cwd candidatePath))
    as [e|[loc [node|]]]; [discriminate| |].
  - destruct (insideRoots allowedRoots loc) eqn:E; [|discriminate].
    simpl. intros [= <-]. destruct (insideRoots_prefix _ _ E) as [root [Hin Hp]].
    exists loc, (Some node), root. auto.
  - destruct (insideRoots allowedRoots loc) eqn:E;
      [|rewrite andb_false_r; discriminate].
    rewrite andb_true_r. destruct (insideRoots allowedRoots (parent loc)); [|discriminate].
    intros [= <-]. destruct (insideRoots_prefix _ _ E) as [root [Hin Hp]].
    exists loc, None, root. auto.
Qed.

End RejectionFacts.

Section RefusalFacts.

Variable cwd : string.
Variable dirSize : nat.
Variable rejectionMessage : Rejection -> string -> string.
Variable mkdir : string -> IO unit.
Variable createTwoFilesPatch :
  string -> string -> string -> string -> string -> string -> string.
Variable Date : Type.
Variable dateText : Date -> string.
Variables birthtime mtime atime : list string -> Date.
Variable mode : list string -> nat.
Variables (allowedDirectories : list string) (symlinksMap : gmap string string).
Variable noFollowSymlinks : bool.

Local Abbreviation validated p o fs :=
  (validatePath cwd p allowedDirectories symlinksMap noFollowSymlinks o fs).

Lemma readAll_reports why limit p fs :
  validated p Sandbox.defaultOptions fs = (Err (Rejected why), fs) ->
  forall paths,
  exists texts,
    readAll cwd dirSize rejectionMessage limit allowedDirectories symlinksMap
      noFollowSymlinks paths fs = (Ok texts, fs)
    /\ Forall2
         (fun filePath text =>
            filePath = p -> text = p +:+ ": Error - " +:+ rejectionMessage why p)
         paths texts.
Proof.
  intros Hv. induction paths as [|filePath rest IH].
  - exists []. split; [reflexivity|constructor].
  - destruct IH as [texts [Hrest Hall]].
    destruct (readOne_always_answers cwd dirSize rejectionMessage allowedDirectories
                symlinksMap noFollowSymlinks limit filePath fs) as [text [Hone _]].
    exists (text :: texts). split.
    + simpl. unfold bind. rewrite Hone, Hrest. reflexivity.
    + constructor; [|exact Hall]. intros ->.
      unfold readOne, tryCatch in Hone. unfold bind at 1 in Hone.
      rewrite Hv in Hone. injection Hone as <-. reflexivity.
Qed.

(** No handler goes past a path that the sandbox rejects. *)
Lemma rejected_stops fs p :
  (forall options,
   exists why,
     Sandbox.validate fs cwd p allowedDirectories symlinksMap (negb noFollowSymlinks)
       options = inl why) ->
  noOperationProceeds cwd dirSize rejectionMessage mkdir createTwoFilesPatch Date
    dateText birthtime mtime atime mode allowedDirectories symlinksMap noFollowSymlinks
    fs p.
Proof.
  intros Hrej.
  assert (Hv : forall options, exists why,
             validated p options fs = (Err (Rejected why), fs)).
  { intros options. destruct (Hrej options) as [why Hwhy]. exists why.
    apply validatePath_rejected. exact Hwhy. }
  destruct (Hv Sandbox.defaultOptions) as [why Hdefault].
  destruct (Hv {| Sandbox.checkParentExists := false |}) as [why' Hcreate].
  unfold noOperationProceeds, refused, stopped.
  repeat match goal with |- _ /\ _ => split end.
  - intros maxBytes. exists why. unfold handleReadFile, handleReadFileWith.
    unfold bind at 1.
    cbn [ReadFileArgs.path]. rewrite Hdefault. reflexivity.
  - exists why. intros paths maxBytesPerFile.
    destruct (readAll_reports why (effectiveLimit maxBytesPerFile) p fs Hdefault paths)
      as [texts [Hrun Hall]].
    exists texts. split; [|exact Hall].
    unfold handleReadMultipleFiles. unfold bind.
    cbn [ReadMultipleFilesArgs.paths ReadMultipleFilesArgs.maxBytesPerFile].
    rewrite Hrun. reflexivity.
  - intros content permissions. exists why'. unfold handleCreateFile. unfold bind at 1.
    cbn [WriteFileArgs.path]. rewrite Hcreate. reflexivity.
  - intros content permissions. exists why. unfold handleModifyFile. unfold bind at 1.
    cbn [WriteFileArgs.path]. rewrite Hdefault. reflexivity.
  - intros edits dryRun maxBytes permissions.
    unfold handleEditFile, handleEditFileWith.
    destruct (Permissions.edit permissions || Permissions.fullAccess permissions) eqn:Ep.
    + rewrite (permitted_gate _ _ Ep). unfold bind at 1. cbn [EditFileArgs.path].
      rewrite Hdefault. eexists. split; [reflexivity|]. intros _. eexists; reflexivity.
    + apply orb_false_iff in Ep as [-> ->]. eexists. split; [reflexivity|discriminate].
  - exists why. unfold handleGetFileInfo. unfold bind at 1.
    cbn [GetFileInfoArgs.path]. rewrite Hdefault. reflexivity.
  - intros destination permissions. unfold handleMoveFile.
    destruct (Permissions.move permissions || Permissions.fullAccess permissions) eqn:Ep.
    + rewrite (permitted_gate _ _ Ep). unfold bind at 1. cbn [MoveFileArgs.source].
      rewrite Hdefault. eexists. split; [reflexivity|]. intros _. eexists; reflexivity.
    + apply orb_false_iff in Ep as [-> ->]. eexists. split; [reflexivity|discriminate].
  - intros source permissions. unfold handleMoveFile.
    destruct (Permissions.move permissions || Permissions.fullAccess permissions) eqn:Ep.
    + rewrite (permitted_gate _ _ Ep). unfold bind at 1. cbn [MoveFileArgs.source].
      destruct (validatePath_cases cwd allowedDirectories symlinksMap noFollowSymlinks
                  source Sandbox.defaultOptions fs) as [[v ->]|[w ->]].
      * unfold bind at 1. cbn [MoveFileArgs.destination]. rewrite Hcreate.
        eexists. split; [reflexivity|]. intros _. eexists; reflexivity.
      * eexists. split; [reflexivity|]. intros _. eexists; reflexivity.
    + apply orb_false_iff in Ep as [-> ->]. eexists. split; [reflexivity|discriminate].
  - intros permissions. unfold handleDeleteFile.
    destruct (Permissions.delete permissions || Permissions.fullAccess permissions) eqn:Ep.
    + rewrite (permitted_gate _ _ Ep). unfold bind at 1. cbn [DeleteFileArgs.path].
      rewrite Hdefault. eexists. split; [reflexivity|]. intros _. eexists; reflexivity.
    + apply orb_false_iff in Ep as [-> ->]. eexists. split; [reflexivity|discriminate].
  - intros newName permissions. unfold handleRenameFile.
    destruct (Permissions.rename permissions || Permissions.fullAccess permissions) eqn:Ep.
    + rewrite (permitted_gate _ _ Ep). unfold bind at 1. cbn [RenameFileArgs.path].
      rewrite Hdefault. eexists. split; [reflexivity|]. intros _. eexists; reflexivity.
    + apply orb_false_iff in Ep as [-> ->]. eexists. split; [reflexivity|discriminate].
Qed.


End RefusalFacts.

